(** * Tab Whisperer: the background worker's summarize, group and persist pipeline

    A shallow embedding of [background.js] (the MV3 service worker) and the
    properties its specification states about it.

    Conventions of the embedding.
    - JavaScript strings are [string]: the bytes of the text in UTF-8.
      White space for [trim] is the white space and the line terminators
      of ECMAScript.  [toLowerCase] maps every letter whose lower case
      holds an ASCII letter; a letter whose lower case lies outside ASCII
      is carried unchanged, which no search for an ASCII word can tell.
      Lengths and [slice] count bytes: the code units of the source on
      ASCII text.
    - A call that may reject or throw yields a [js_result]; a [try] block is
      a computation in [js_result] whose [Throws] is the [catch].
    - The browser, the pages, the clock and the on-device models are a host
      state [H] behind the [Host] interface; [chrome.storage.local] is a
      record of its own next to it.  The worker's functions are state
      passing over the two; [await] is sequencing, the worker runs one step
      at a time, and the two creations that [Promise.all] starts together
      are run one after the other.
    - The fields of a summary record are text: a tab's url and title are
      strings, and a capability is taken to put text in [summary]. *)

From Stdlib Require Import List Bool Arith ZArith Lia Ascii String Permutation.
From Stdlib Require Import DecimalString.
From Stdlib Require DecimalPos DecimalZ.
Import ListNotations.

Local Open Scope list_scope.
Local Open Scope string_scope.

(** ** Results of fallible calls *)

Inductive js_result (A : Type) : Type :=
| Returns (a : A)
| Throws.
Arguments Returns {A} a.
Arguments Throws {A}.

Definition res_bind {A B} (r : js_result A) (k : A -> js_result B) : js_result B :=
  match r with
  | Returns a => k a
  | Throws => Throws
  end.

Declare Scope res_scope.
Delimit Scope res_scope with res.
Notation "x <-? r ;; k" := (res_bind r (fun x => k))
  (at level 61, r at next level, right associativity) : res_scope.

(** ** Strings *)

Module Str.

Fixpoint startsWith (s p : string) : bool :=
  match p, s with
  | EmptyString, _ => true
  | String a p', String b s' => Ascii.eqb a b && startsWith s' p'
  | String _ _, EmptyString => false
  end.

(** [s.slice(n)], for [n] within the string. *)
Fixpoint drop (n : nat) (s : string) : string :=
  match n, s with
  | O, _ => s
  | S n', String _ s' => drop n' s'
  | S _, EmptyString => EmptyString
  end.

(** [s.slice(0, n)]. *)
Fixpoint slice_to (n : nat) (s : string) : string :=
  match n, s with
  | S n', String c s' => String c (slice_to n' s')
  | _, _ => EmptyString
  end.

Definition endsWith (s p : string) : bool :=
  (String.length p <=? String.length s)%nat
  && String.eqb (drop (String.length s - String.length p) s) p.

(** [s.includes(k)]: [k] occurs in [s] as a substring. *)
Fixpoint includes (s k : string) : bool :=
  startsWith s k
  || match s with
     | EmptyString => false
     | String _ s' => includes s' k
     end.

(** [new RegExp("(k1|k2|...)").test(text)] for literal alternatives. *)
Definition test_any (alternatives : list string) (text : string) : bool :=
  existsb (includes text) alternatives.

Definition lower_char (c : ascii) : ascii :=
  let n := nat_of_ascii c in
  if ((65 <=? n) && (n <=? 90))%nat then ascii_of_nat (n + 32) else c.

(** [s.toLowerCase()] on UTF-8 text.  The letters A to Z, and the two
    letters outside ASCII whose lower case holds an ASCII letter: U+0130
    (bytes 196 176) becomes i followed by U+0307 (bytes 204 135), and the
    Kelvin sign U+212A (bytes 226 132 170) becomes k.  Every other letter
    outside ASCII is carried unchanged: its lower case lies outside ASCII
    as well. *)
Fixpoint toLowerCase (s : string) : string :=
  match s with
  | EmptyString => EmptyString
  | String c s1 =>
      match s1 with
      | String d s2 =>
          if Ascii.eqb c "196" && Ascii.eqb d "176" then
            String "i" (String "204" (String "135" (toLowerCase s2)))
          else
            match s2 with
            | String e s3 =>
                if Ascii.eqb c "226" && Ascii.eqb d "132" && Ascii.eqb e "170" then
                  String "k" (toLowerCase s3)
                else String (lower_char c) (toLowerCase s1)
            | EmptyString => String (lower_char c) (toLowerCase s1)
            end
      | EmptyString => String (lower_char c) EmptyString
      end
  end.

Definition utf8 (bytes : list nat) : string :=
  string_of_list_ascii (map ascii_of_nat bytes).

(** The characters [trim] removes, in UTF-8: the white space TAB, VT, FF,
    SP, NBSP (U+00A0), ZWNBSP (U+FEFF) and the space separators U+1680,
    U+2000 to U+200A, U+202F, U+205F and U+3000, and the line terminators
    LF, CR, LS (U+2028) and PS (U+2029). *)
Definition white_space : list string :=
  [ utf8 [9]; utf8 [10]; utf8 [11]; utf8 [12]; utf8 [13]; utf8 [32];
    utf8 [194; 160];
    utf8 [225; 154; 128];
    utf8 [226; 128; 128]; utf8 [226; 128; 129]; utf8 [226; 128; 130];
    utf8 [226; 128; 131]; utf8 [226; 128; 132]; utf8 [226; 128; 133];
    utf8 [226; 128; 134]; utf8 [226; 128; 135]; utf8 [226; 128; 136];
    utf8 [226; 128; 137]; utf8 [226; 128; 138];
    utf8 [226; 128; 168]; utf8 [226; 128; 169]; utf8 [226; 128; 175];
    utf8 [226; 129; 159];
    utf8 [227; 128; 128];
    utf8 [239; 187; 191] ]%list.

(** [s] without the white-space character at its head, if it has one. *)
Definition strip_start (s : string) : option string :=
  match List.find (startsWith s) white_space with
  | Some ws => Some (drop (String.length ws) s)
  | None => None
  end.

(** [s] without the white-space character at its end, if it has one. *)
Definition strip_end (s : string) : option string :=
  match List.find (endsWith s) white_space with
  | Some ws => Some (slice_to (String.length s - String.length ws) s)
  | None => None
  end.

Fixpoint strip_all (strip : string -> option string) (fuel : nat) (s : string) : string :=
  match fuel with
  | O => s
  | S fuel' =>
      match strip s with
      | Some r => strip_all strip fuel' r
      | None => s
      end
  end.

(** Each step removes at least one byte, so the length of [s] is fuel
    enough. *)
Definition trimStart (s : string) : string := strip_all strip_start (String.length s) s.

Definition trimEnd (s : string) : string := strip_all strip_end (String.length s) s.

Definition trim (s : string) : string := trimEnd (trimStart s).

(** A string is truthy when it is not empty. *)
Definition truthy (s : string) : bool := negb (String.eqb s EmptyString).

(** [s || d]. *)
Definition or_default (s d : string) : string := if truthy s then s else d.

(** [arr.join(sep)]. *)
Fixpoint join (sep : string) (parts : list string) : string :=
  match parts with
  | [] => EmptyString
  | [p] => p
  | p :: rest => p ++ sep ++ join sep rest
  end.

(** [String(n)] for an integer [n]. *)
Definition of_Z (n : Z) : string := NilZero.string_of_int (Z.to_int n).

End Str.

(** ** Values read back from JSON text *)

Set Warnings "-register-all,-abstract-large-number".

(** A number is kept as the decimal literal [mantissa * 10 ^ exponent] it was
    read from, and stands for the binary double nearest to it. *)
Inductive JSValue : Type :=
| JNull
| JBool (b : bool)
| JNumber (mantissa exponent : Z)
| JString (s : string)
| JArray (items : list JSValue)
| JObject (props : list (string * JSValue)).

(** ** Ordinary objects

    The own enumerable properties of an object, kept in the order in which
    [Object.keys] and [Object.entries] list them: array-index keys in
    ascending numeric order, then the other keys in creation order. *)

Module Obj.

Definition t (A : Type) : Type := list (string * A).

Definition digit_of (c : ascii) : option N :=
  let n := N_of_ascii c in
  if ((48 <=? n) && (n <=? 57))%N then Some (n - 48)%N else None.

Fixpoint digits_value (acc : N) (s : string) : option N :=
  match s with
  | EmptyString => Some acc
  | String c r =>
      match digit_of c with
      | Some d => digits_value (acc * 10 + d)%N r
      | None => None
      end
  end.

(** A canonical numeric string below 2^32 - 1. *)
Definition array_index (k : string) : option N :=
  match k with
  | EmptyString => None
  | String c r =>
      if Ascii.eqb c "0" && negb (String.eqb r EmptyString) then None
      else match digits_value 0 k with
           | Some n => if (n <? 4294967295)%N then Some n else None
           | None => None
           end
  end.

Definition goes_before (k k' : string) : bool :=
  match array_index k, array_index k' with
  | Some i, Some j => (i <? j)%N
  | Some _, None => true
  | None, _ => false
  end.

Fixpoint get {A} (o : t A) (k : string) : option A :=
  match o with
  | [] => None
  | (k', v) :: r => if String.eqb k' k then Some v else get r k
  end.

Definition has {A} (o : t A) (k : string) : bool :=
  match get o k with Some _ => true | None => false end.

Fixpoint replace {A} (o : t A) (k : string) (v : A) : t A :=
  match o with
  | [] => []
  | (k', v') :: r =>
      if String.eqb k' k then (k', v) :: r else (k', v') :: replace r k v
  end.

Fixpoint insert_new {A} (o : t A) (k : string) (v : A) : t A :=
  match o with
  | [] => [(k, v)]
  | (k', v') :: r =>
      if goes_before k k' then (k, v) :: o else (k', v') :: insert_new r k v
  end.

(** Creating a data property (object literals, [JSON.parse],
    [Object.fromEntries]): an existing key keeps its place. *)
Definition define {A} (o : t A) (k : string) (v : A) : t A :=
  if has o k then replace o k v else insert_new o k v.

(** [o[k] = v] on an object created by [{}]: the key ["__proto__"] reaches
    the accessor inherited from [Object.prototype] and creates no own
    property. *)
Definition assign {A} (o : t A) (k : string) (v : A) : t A :=
  if String.eqb k "__proto__" then o else define o k v.

Definition keys {A} (o : t A) : list string := map fst o.

Definition entries {A} (o : t A) : list (string * A) := o.

Definition fromEntries {A} (es : list (string * A)) : t A :=
  fold_left (fun o e => define o (fst e) (snd e)) es [].

End Obj.

(** ** [JSON.parse] and [JSON.stringify] *)

Module JSON.

(** The double quote, character 34. *)
Definition dquote : ascii := "034"%char.

Definition is_ws (c : ascii) : bool :=
  let n := nat_of_ascii c in
  ((n =? 32) || (n =? 9) || (n =? 10) || (n =? 13))%nat.

Fixpoint skip_ws (s : string) : string :=
  match s with
  | String c r => if is_ws c then skip_ws r else s
  | EmptyString => EmptyString
  end.

Definition hex_of (c : ascii) : option N :=
  let n := N_of_ascii c in
  if ((48 <=? n) && (n <=? 57))%N then Some (n - 48)%N
  else if ((97 <=? n) && (n <=? 102))%N then Some (n - 87)%N
  else if ((65 <=? n) && (n <=? 70))%N then Some (n - 55)%N
  else None.

Definition chr (n : N) : ascii := ascii_of_N n.

(** The bytes of one UTF-16 code unit that stands alone. *)
Definition code_unit (n : N) : string :=
  if (n <? 128)%N then String (chr n) EmptyString
  else if (n <? 2048)%N then
    String (chr (192 + n / 64)) (String (chr (128 + n mod 64)) EmptyString)
  else
    String (chr (224 + n / 4096))
      (String (chr (128 + (n / 64) mod 64))
         (String (chr (128 + n mod 64)) EmptyString)).

Definition is_high_surrogate (n : N) : bool := ((55296 <=? n) && (n <=? 56319))%N.

Definition is_low_surrogate (n : N) : bool := ((56320 <=? n) && (n <=? 57343))%N.

(** The bytes of the character that a high and a low surrogate make
    together. *)
Definition surrogate_pair (hi lo : N) : string :=
  let n := (65536 + (hi - 55296) * 1024 + (lo - 56320))%N in
  String (chr (240 + n / 262144))
    (String (chr (128 + (n / 4096) mod 64))
       (String (chr (128 + (n / 64) mod 64))
          (String (chr (128 + n mod 64)) EmptyString))).

(** The code unit of [\uXXXX] at the head of [s]. *)
Definition unicode_escape (s : string) : option (N * string) :=
  match s with
  | String b (String u (String h1 (String h2 (String h3 (String h4 r))))) =>
      if Ascii.eqb b "\" && Ascii.eqb u "u" then
        match hex_of h1, hex_of h2, hex_of h3, hex_of h4 with
        | Some a, Some b', Some c, Some d =>
            Some ((((a * 16 + b') * 16 + c) * 16 + d)%N, r)
        | _, _, _, _ => None
        end
      else None
  | _ => None
  end.

(** The character after a backslash: quote, backslash, slash, b, f, n, r, t. *)
Definition escape (c : ascii) : option string :=
  let one n := Some (String (chr n) EmptyString) in
  match nat_of_ascii c with
  | 34 => one 34%N
  | 92 => one 92%N
  | 47 => one 47%N
  | 98 => one 8%N
  | 102 => one 12%N
  | 110 => one 10%N
  | 114 => one 13%N
  | 116 => one 9%N
  | _ => None
  end.

(** The characters of a string literal, after its opening quote.  An
    escaped high surrogate directly followed by an escaped low surrogate is
    one character. *)
Fixpoint parse_chars (fuel : nat) (s : string) : option (string * string) :=
  match fuel with
  | O => None
  | S fuel' =>
      match s with
      | EmptyString => None
      | String c r =>
          if Ascii.eqb c dquote then Some (EmptyString, r)
          else if Ascii.eqb c "\" then
            match r with
            | String e r' =>
                if Ascii.eqb e "u" then
                  match unicode_escape s with
                  | Some (n, r1) =>
                      let (bytes, r2) :=
                        match (if is_high_surrogate n then unicode_escape r1 else None) with
                        | Some (n', r2) =>
                            if is_low_surrogate n' then (surrogate_pair n n', r2)
                            else (code_unit n, r1)
                        | None => (code_unit n, r1)
                        end in
                      match parse_chars fuel' r2 with
                      | Some (t, rest) => Some (bytes ++ t, rest)
                      | None => None
                      end
                  | None => None
                  end
                else
                  match escape e, parse_chars fuel' r' with
                  | Some x, Some (t, rest) => Some (x ++ t, rest)
                  | _, _ => None
                  end
            | EmptyString => None
            end
          else if (nat_of_ascii c <? 32)%nat then None
          else
            match parse_chars fuel' r with
            | Some (t, rest) => Some (String c t, rest)
            | None => None
            end
      end
  end.

Fixpoint take_digits (s : string) : string * string :=
  match s with
  | String c r =>
      match Obj.digit_of c with
      | Some _ => let (d, rest) := take_digits r in (String c d, rest)
      | None => (EmptyString, s)
      end
  | EmptyString => (EmptyString, EmptyString)
  end.

Definition digits_Z (d : string) : Z :=
  match Obj.digits_value 0 d with Some n => Z.of_N n | None => 0%Z end.

(** int: a lone [0], or a non-zero digit followed by digits. *)
Definition parse_int (s : string) : option (string * string) :=
  match s with
  | String c r =>
      if Ascii.eqb c "0" then Some ("0", r)
      else match Obj.digit_of c with
           | Some _ => Some (take_digits s)
           | None => None
           end
  | EmptyString => None
  end.

Definition parse_frac (s : string) : option (string * string) :=
  match s with
  | String "." r =>
      match take_digits r with
      | (EmptyString, _) => None
      | (d, rest) => Some (d, rest)
      end
  | _ => Some (EmptyString, s)
  end.

Definition parse_exp (s : string) : option (Z * string) :=
  let digits (neg : bool) (r : string) :=
    match take_digits r with
    | (EmptyString, _) => None
    | (d, rest) => Some ((if neg then - digits_Z d else digits_Z d)%Z, rest)
    end in
  match s with
  | String c r =>
      if Ascii.eqb c "e" || Ascii.eqb c "E" then
        match r with
        | String "+" r' => digits false r'
        | String "-" r' => digits true r'
        | _ => digits false r
        end
      else Some (0%Z, s)
  | EmptyString => Some (0%Z, s)
  end.

Definition parse_number (s : string) : option (JSValue * string) :=
  let (neg, s1) := match s with
                   | String "-" r => (true, r)
                   | _ => (false, s)
                   end in
  match parse_int s1 with
  | Some (i, s2) =>
      match parse_frac s2 with
      | Some (f, s3) =>
          match parse_exp s3 with
          | Some (e, s4) =>
              let m := digits_Z (i ++ f) in
              Some (JNumber (if neg then - m else m)%Z
                            (e - Z.of_nat (String.length f))%Z, s4)
          | None => None
          end
      | None => None
      end
  | None => None
  end.

Fixpoint parse_value (fuel : nat) (s : string) : option (JSValue * string) :=
  match fuel with
  | O => None
  | S fuel' =>
      match skip_ws s with
      | EmptyString => None
      | String c r as s0 =>
          if Ascii.eqb c "{" then
            match skip_ws r with
            | String "}" r' => Some (JObject [], r')
            | _ => parse_members fuel' [] r
            end
          else if Ascii.eqb c "[" then
            match skip_ws r with
            | String "]" r' => Some (JArray [], r')
            | _ => parse_elements fuel' [] r
            end
          else if Ascii.eqb c dquote then
            match parse_chars (S (String.length r)) r with
            | Some (t, rest) => Some (JString t, rest)
            | None => None
            end
          else if Str.startsWith s0 "true" then Some (JBool true, Str.drop 4 s0)
          else if Str.startsWith s0 "false" then Some (JBool false, Str.drop 5 s0)
          else if Str.startsWith s0 "null" then Some (JNull, Str.drop 4 s0)
          else parse_number s0
      end
  end
with parse_elements (fuel : nat) (acc : list JSValue) (s : string)
     : option (JSValue * string) :=
  match fuel with
  | O => None
  | S fuel' =>
      match parse_value fuel' s with
      | Some (v, r) =>
          match skip_ws r with
          | String "," r' => parse_elements fuel' (acc ++ [v])%list r'
          | String "]" r' => Some (JArray (acc ++ [v])%list, r')
          | _ => None
          end
      | None => None
      end
  end
with parse_members (fuel : nat) (acc : Obj.t JSValue) (s : string)
     : option (JSValue * string) :=
  match fuel with
  | O => None
  | S fuel' =>
      match skip_ws s with
      | String c r =>
          if Ascii.eqb c dquote then
            match parse_chars (S (String.length r)) r with
            | Some (k, r1) =>
                match skip_ws r1 with
                | String ":" r2 =>
                    match parse_value fuel' r2 with
                    | Some (v, r3) =>
                        match skip_ws r3 with
                        | String "," r4 => parse_members fuel' (Obj.define acc k v) r4
                        | String "}" r4 => Some (JObject (Obj.define acc k v), r4)
                        | _ => None
                        end
                    | None => None
                    end
                | _ => None
                end
            | None => None
            end
          else None
      | EmptyString => None
      end
  end.

(** [JSON.parse(text)]; a [SyntaxError] is [Throws]. *)
Definition parse (text : string) : js_result JSValue :=
  match parse_value (2 * String.length text + 2) text with
  | Some (v, rest) =>
      match skip_ws rest with
      | EmptyString => Returns v
      | _ => Throws
      end
  | None => Throws
  end.

Definition hex_char (n : N) : ascii :=
  if (n <? 10)%N then chr (48 + n) else chr (87 + n).

(** The quoting of one character by [JSON.stringify]. *)
Definition quote_char (c : ascii) : string :=
  let n := N_of_ascii c in
  let esc x := String "\" (String x EmptyString) in
  if (n =? 34)%N then esc dquote
  else if (n =? 92)%N then esc "\"%char
  else if (n =? 8)%N then esc "b"%char
  else if (n =? 12)%N then esc "f"%char
  else if (n =? 10)%N then esc "n"%char
  else if (n =? 13)%N then esc "r"%char
  else if (n =? 9)%N then esc "t"%char
  else if (n <? 32)%N then
    "\u00" ++ String (hex_char (n / 16)) (String (hex_char (n mod 16)) EmptyString)
  else String c EmptyString.

Fixpoint quote_chars (s : string) : string :=
  match s with
  | EmptyString => EmptyString
  | String c r => quote_char c ++ quote_chars r
  end.

Definition quote (s : string) : string :=
  String dquote (quote_chars s ++ String dquote EmptyString).

(** [JSON.stringify] of an array of objects whose properties are strings. *)
Definition stringify_object (props : list (string * string)) : string :=
  "{" ++ Str.join "," (map (fun p => quote (fst p) ++ ":" ++ quote (snd p)) props) ++ "}".

Definition stringify_array (objects : list (list (string * string))) : string :=
  "[" ++ Str.join "," (map stringify_object objects) ++ "]".

End JSON.

(** ** Reading parsed values the way the worker does *)

Module Js.

(** The double nearest to [m * 10 ^ e] is a zero: the decimal is at most
    [2 ^ -1075], half of the least positive double (the tie goes to the
    even neighbour, which is zero). *)
Definition rounds_to_zero (m e : Z) : bool :=
  (Z.abs m * 2 ^ 1075 <=? 10 ^ (- e))%Z.

(** [!!v]. *)
Definition truthy (v : JSValue) : bool :=
  match v with
  | JNull => false
  | JBool b => b
  | JNumber m e => negb (rounds_to_zero m e)
  | JString s => Str.truthy s
  | JArray _ | JObject _ => true
  end.

(** [v.k] for a value that is not [null], and for the names the worker
    reads ([groups], [url], [title], [summary], [available]): only an
    object can own them; nothing is inherited under these names. *)
Definition prop (v : JSValue) (k : string) : option JSValue :=
  match v with
  | JObject props => Obj.get props k
  | _ => None
  end.

(** [v.k]: reading a property of [null] is a [TypeError]. *)
Definition item_prop (v : JSValue) (k : string) : js_result (option JSValue) :=
  match v with
  | JNull => Throws
  | _ => Returns (prop v k)
  end.

(** [v?.k]. *)
Definition opt_prop (v : JSValue) (k : string) : option JSValue :=
  match v with
  | JNull => None
  | _ => prop v k
  end.

(** [s === v] for a string [s]. *)
Definition strict_eq_string (s : string) (v : option JSValue) : bool :=
  match v with
  | Some (JString t) => String.eqb s t
  | _ => false
  end.

(** [v || ''] for a property that may be missing. *)
Definition or_empty (v : option JSValue) : JSValue :=
  match v with
  | Some x => if truthy x then x else JString EmptyString
  | None => JString EmptyString
  end.

(** [typeof v === 'object'] for a truthy [v]. *)
Definition is_object (v : JSValue) : bool :=
  match v with
  | JArray _ | JObject _ => true
  | _ => false
  end.

Fixpoint indexed (i : Z) (items : list JSValue) : list (string * JSValue) :=
  match items with
  | [] => []
  | x :: r => (Str.of_Z i, x) :: indexed (i + 1) r
  end.

(** [Object.entries(v)] for an object or an array read from JSON. *)
Definition entries (v : JSValue) : list (string * JSValue) :=
  match v with
  | JObject props => Obj.entries props
  | JArray items => indexed 0 items
  | _ => []
  end.

(** [arr.find(f)] with a callback that may throw. *)
Fixpoint find {A} (f : A -> js_result bool) (l : list A) : js_result (option A) :=
  match l with
  | [] => Returns None
  | x :: r =>
      match f x with
      | Returns true => Returns (Some x)
      | Returns false => find f r
      | Throws => Throws
      end
  end.

(** [arr.map(f)] with a callback that may throw. *)
Fixpoint map {A B} (f : A -> js_result B) (l : list A) : js_result (list B) :=
  match l with
  | [] => Returns []
  | x :: r =>
      match f x with
      | Returns y =>
          match map f r with
          | Returns ys => Returns (y :: ys)
          | Throws => Throws
          end
      | Throws => Throws
      end
  end.

End Js.

(** ** Data model *)

(** A tab as [chrome.tabs.query] reports it. *)
Module Tab.
Record t : Type := mk {
  id : option Z;
  windowId : Z;
  url : option string;
  pendingUrl : option string;
  title : option string;
  favIconUrl : option string
}.
End Tab.

(** A summary record, built by [processTabsAndStore] for each tab it keeps. *)
Module Summary.
Record t : Type := mk {
  tabId : Z;
  windowId : Z;
  url : string;
  title : string;
  favIconUrl : string;
  summary : string
}.
End Summary.

(** An entry of a group: an input summary record itself, or the object
    [{tabId: null, url, title, favIconUrl: '', summary}] made for an item of
    the model's answer that matches no input record. *)
Inductive GroupEntry : Type :=
| Original (s : Summary.t)
| Placeholder (url title summary : JSValue).

Definition entry_tabId (e : GroupEntry) : option Z :=
  match e with
  | Original s => Some (Summary.tabId s)
  | Placeholder _ _ _ => None
  end.

Definition entry_url (e : GroupEntry) : JSValue :=
  match e with
  | Original s => JString (Summary.url s)
  | Placeholder u _ _ => u
  end.

Definition entry_title (e : GroupEntry) : JSValue :=
  match e with
  | Original s => JString (Summary.title s)
  | Placeholder _ t _ => t
  end.

Definition entry_favIconUrl (e : GroupEntry) : string :=
  match e with
  | Original s => Summary.favIconUrl s
  | Placeholder _ _ _ => EmptyString
  end.

(** The group set: category name to list of entries. *)
Definition Groups : Type := Obj.t (list GroupEntry).

(** [{generatedAt, groups}]; [generatedAt] is [null] in the initial value. *)
Module Snapshot.
Record t : Type := mk {
  generatedAt : option Z;
  groups : Groups
}.
End Snapshot.

Module Session.
Record t : Type := mk {
  id : string;
  name : string;
  generatedAt : option Z;
  groups : Groups
}.
End Session.

(** [chrome.storage.local]: the keys the extension uses; [None] is a key
    that was never set. *)
Module Storage.
Record t : Type := mk {
  latestGroups : option Snapshot.t;
  savedSessions : option (list Session.t);
  theme : option string
}.

Definition empty : t := mk None None None.

Definition set_latestGroups (v : Snapshot.t) (st : t) : t :=
  mk (Some v) (savedSessions st) (theme st).

Definition set_savedSessions (v : list Session.t) (st : t) : t :=
  mk (latestGroups st) (Some v) (theme st).
End Storage.

(** The page a script is injected into. *)
Module Document.
Record t : Type := mk {
  title : string;
  metaDescription : option string;
  bodyInnerText : option string
}.
End Document.

(** ** The host: browser, pages, clock and on-device models *)

(** What [summarizer.summarize] resolved to, as far as the worker looks at
    it: a string, or another value with its [summary] property (taken to be
    text when present). *)
Inductive SummarizeResult : Type :=
| SummaryText (s : string)
| SummaryOther (summary : option string).

(** What [languageModel.prompt] resolved to: a string, or another value;
    [PromptOther (Some t)] is a value whose [output] is truthy and converts
    to the string [t], [PromptOther None] one whose [output] is falsy or
    missing.  A value whose [output] cannot be converted is counted with the
    calls that throw: both end in the same [catch]. *)
Inductive PromptResult : Type :=
| PromptText (s : string)
| PromptOther (output : option string).

Section Capabilities.

Variable H : Type.

Record Summarizer : Type := {
  summarize : string -> H -> js_result SummarizeResult * H
}.

Record LanguageModel : Type := {
  prompt : string -> H -> js_result PromptResult * H
}.

(** [ai.summarizer] or [ai.languageModel]: [capabilities] is [None] when
    it is not a function; [create] resolves to [None] for a falsy value. *)
Record AIFactory (X : Type) : Type := {
  capabilities : option (H -> js_result JSValue * H);
  create : JSValue -> H -> js_result (option X) * H
}.

Record AINamespace : Type := {
  summarizer : option (AIFactory Summarizer);
  languageModel : option (AIFactory LanguageModel)
}.

End Capabilities.

Arguments summarize {H} _ _ _.
Arguments prompt {H} _ _ _.
Arguments capabilities {H X} _.
Arguments create {H X} _ _ _.
Arguments summarizer {H} _.
Arguments languageModel {H} _.

(** The calls the worker makes on its environment.  Those the source leaves
    unguarded ([Date], [chrome.tabs.query]) are taken to resolve.
    [chrome_scripting_executeScript] gives the document the injected function
    ran against, or [Throws] when the call rejects or gives no result. *)
Class Host (H : Type) : Type := {
  Date_now : H -> Z * H;
  Date_toLocaleString : H -> string * H;
  chrome_tabs_query : H -> list Tab.t * H;
  chrome_scripting_executeScript : option Z -> H -> js_result Document.t * H;
  self_ai : H -> option (AINamespace H);
  chrome_aiOriginTrial : H -> option (AINamespace H)
}.

Record World (H : Type) : Type := mkWorld {
  host : H;
  local : Storage.t
}.
Arguments mkWorld {H} _ _.
Arguments host {H} _.
Arguments local {H} _.

(** The worker's steps: state passing over the world. *)
Definition M (H A : Type) : Type := World H -> A * World H.

Definition ret {H A} (a : A) : M H A := fun w => (a, w).

Definition bind {H A B} (m : M H A) (k : A -> M H B) : M H B :=
  fun w => let (a, w') := m w in k a w'.

Declare Scope worker_scope.
Delimit Scope worker_scope with worker.
Notation "x <- m ;; k" := (bind m (fun x => k))
  (at level 61, m at next level, right associativity) : worker_scope.
Notation "m ;;; k" := (bind m (fun _ => k))
  (at level 61, right associativity) : worker_scope.

Definition call {H A} (op : H -> A * H) : M H A :=
  fun w => let (a, h) := op (host w) in (a, mkWorld h (local w)).

Definition read {H A} (f : H -> A) : M H A := fun w => (f (host w), w).

Definition storage_get {H A} (key : Storage.t -> A) : M H A :=
  fun w => (key (local w), w).

Definition storage_set {H} (update : Storage.t -> Storage.t) : M H unit :=
  fun w => (tt, mkWorld (host w) (update (local w))).

(** ** The worker *)

Definition nl : string := String "010"%char EmptyString.

(** [s] between double quotes. *)
Definition dq (s : string) : string :=
  String JSON.dquote (s ++ String JSON.dquote EmptyString).

Section Worker.

Context {H : Type} `{Host H}.

Local Open Scope worker_scope.

Definition resolveAISummarizerAPI : M H (option (AIFactory H (Summarizer H))) :=
  aiGlobal <- read self_ai ;;
  trial <- read chrome_aiOriginTrial ;;
  match aiGlobal with
  | Some {| summarizer := Some api |} => ret (Some api)
  | _ =>
      match trial with
      | Some {| summarizer := Some api |} => ret (Some api)
      | _ => ret None
      end
  end.

Definition resolveAILanguageModelAPI : M H (option (AIFactory H (LanguageModel H))) :=
  aiGlobal <- read self_ai ;;
  trial <- read chrome_aiOriginTrial ;;
  match aiGlobal with
  | Some {| languageModel := Some api |} => ret (Some api)
  | _ =>
      match trial with
      | Some {| languageModel := Some api |} => ret (Some api)
      | _ => ret None
      end
  end.

(** [caps?.available === 'no'] *)
Definition unavailable (caps : JSValue) : bool :=
  Js.strict_eq_string "no" (Js.opt_prop caps "available").

(** The body shared by the two [tryCreate...] functions, after the API was
    resolved: probe [capabilities] when it is a function, then [create]. *)
Definition tryCreate {X} (api : AIFactory H X) (options : JSValue) : M H (option X) :=
  let creating :=
    r <- call (create api options) ;;
    match r with
    | Returns x => ret x
    | Throws => ret None
    end in
  match capabilities api with
  | Some probe =>
      caps <- call probe ;;
      match caps with
      | Returns c => if unavailable c then ret None else creating
      | Throws => ret None
      end
  | None => creating
  end.

Definition tryCreateSummarizer : M H (option (Summarizer H)) :=
  api <- resolveAISummarizerAPI ;;
  match api with
  | None => ret None
  | Some api =>
      tryCreate api
        (JObject [("type", JString "paragraph"); ("length", JString "short")])
  end.

Definition tryCreateLanguageModel : M H (option (LanguageModel H)) :=
  api <- resolveAILanguageModelAPI ;;
  match api with
  | None => ret None
  | Some api =>
      tryCreate api
        (JObject [("systemPrompt",
           JString "You are Tab Whisperer, an assistant that groups browser tabs by intent.")])
  end.

(** The function injected into the page. *)
Definition collect (document : Document.t) : string :=
  let title := Document.title document in
  let metaDesc :=
    match Document.metaDescription document with Some d => d | None => EmptyString end in
  let body :=
    match Document.bodyInnerText document with Some b => b | None => EmptyString end in
  let parts := [title] in
  let parts := if Str.truthy metaDesc then (parts ++ [metaDesc])%list else parts in
  let parts := if Str.truthy body then (parts ++ [body])%list else parts in
  Str.join (nl ++ nl) parts.

Definition fetchTabTextContent (tabId : option Z) : M H string :=
  r <- call (chrome_scripting_executeScript tabId) ;;
  match r with
  | Returns document => ret (Str.slice_to 12000 (collect document))
  | Throws => ret EmptyString
  end.

Definition tabTitle (tab : Tab.t) : string :=
  Str.or_default
    (match Tab.title tab with Some t => t | None => EmptyString end) "Untitled".

(** First attempt of [summarizeTab]: [None] when it falls through. *)
Definition summarizeWithSummarizer (tab : Tab.t) (s : Summarizer H) : M H (option string) :=
  let title := tabTitle tab in
  content <- fetchTabTextContent (Tab.id tab) ;;
  if Str.truthy content then
    let text := "Title: " ++ title ++ nl ++ nl ++ content in
    res <- call (summarize s text) ;;
    match res with
    | Returns (SummaryText r) => ret (Some r)
    | Returns (SummaryOther (Some r)) => if Str.truthy r then ret (Some r) else ret None
    | Returns (SummaryOther None) => ret None
    | Throws => ret None
    end
  else ret None.

(** Second attempt of [summarizeTab]. *)
Definition summarizeWithLanguageModel (tab : Tab.t) (m : LanguageModel H) : M H (option string) :=
  let title := tabTitle tab in
  content <- fetchTabTextContent (Tab.id tab) ;;
  let text :=
    "Summarize in one concise sentence for a tab dashboard. Title: " ++ dq title
    ++ ". Content:" ++ nl ++ nl ++ Str.slice_to 6000 content in
  res <- call (prompt m text) ;;
  match res with
  | Returns (PromptText r) => ret (Some (Str.trim r))
  | Returns (PromptOther (Some r)) => ret (Some (Str.trim r))
  | Returns (PromptOther None) => ret None
  | Throws => ret None
  end.

Definition summarizeTab (tab : Tab.t) (summarizer : option (Summarizer H))
    (languageModel : option (LanguageModel H)) : M H string :=
  let title := tabTitle tab in
  first <- match summarizer with
           | Some s => summarizeWithSummarizer tab s
           | None => ret None
           end ;;
  match first with
  | Some r => ret r
  | None =>
      second <- match languageModel with
                | Some m => summarizeWithLanguageModel tab m
                | None => ret None
                end ;;
      match second with
      | Some r => ret r
      | None => ret ("Summary for " ++ title)
      end
  end.

End Worker.

(** ** Grouping *)

(** The object literal [{ Research: [], Shopping: [], Entertainment: [],
    Work: [], Other: [] }] of the heuristic fallback. *)
Record Buckets : Type := mkBuckets {
  Research : list GroupEntry;
  Shopping : list GroupEntry;
  Entertainment : list GroupEntry;
  Work : list GroupEntry;
  Other : list GroupEntry
}.

Definition research_words : list string :=
  ["paper"; "research"; "arxiv"; "wiki"; "docs"; "guide"].
Definition shopping_words : list string :=
  ["amazon"; "ebay"; "shop"; "price"; "deal"; "buy"; "cart"].
Definition entertainment_words : list string :=
  ["youtube"; "netflix"; "spotify"; "game"; "movie"; "music"].
Definition work_words : list string :=
  ["jira"; "github"; "gitlab"; "slack"; "notion"; "figma"; "drive"].

(** The text the keyword tests run on. *)
Definition item_text (item : Summary.t) : string :=
  Str.toLowerCase (Summary.title item ++ " " ++ Summary.summary item).

(** One turn of the loop over [summaries]. *)
Definition push_item (groups : Buckets) (item : Summary.t) : Buckets :=
  let text := item_text item in
  let e := Original item in
  match groups with
  | mkBuckets r s en w o =>
      if Str.test_any research_words text then mkBuckets (r ++ [e]) s en w o
      else if Str.test_any shopping_words text then mkBuckets r (s ++ [e]) en w o
      else if Str.test_any entertainment_words text then mkBuckets r s (en ++ [e]) w o
      else if Str.test_any work_words text then mkBuckets r s en (w ++ [e]) o
      else mkBuckets r s en w (o ++ [e])
  end%list.

Definition buckets_entries (groups : Buckets) : list (string * list GroupEntry) :=
  [("Research", Research groups); ("Shopping", Shopping groups);
   ("Entertainment", Entertainment groups); ("Work", Work groups);
   ("Other", Other groups)].

(** [v.length] as a condition. *)
Definition nonempty {A} (l : list A) : bool :=
  match l with [] => false | _ :: _ => true end.

(** The heuristic fallback of [groupSummaries], which is also the whole of
    [groupSummariesMock]. *)
Definition heuristicFallback (summaries : list Summary.t) : Groups :=
  let groups := fold_left push_item summaries (mkBuckets [] [] [] [] []) in
  Obj.fromEntries (filter (fun e => nonempty (snd e)) (Obj.entries (buckets_entries groups))).

(** [text.replace(/^```(?:json)?|```$/g, '')]: the fence at the very start,
    with [json] when it follows, and the fence at the very end of what
    remains. *)
Definition strip_fences (text : string) : string :=
  let fence := "```" in
  let t :=
    if Str.startsWith text fence then
      let r := Str.drop 3 text in
      if Str.startsWith r "json" then Str.drop 4 r else r
    else text in
  if Str.endsWith t fence then Str.slice_to (String.length t - 3) t else t.

Definition instruction : string :=
  Str.join " "
    ["You are organizing browser tabs into human-friendly categories like Research, Shopping, Entertainment, Work, etc.";
     "Return ONLY compact JSON with this shape: {" ++ dq "groups" ++ ": {" ++ dq "Category"
       ++ ": [{" ++ dq "title" ++ ": string, " ++ dq "summary" ++ ": string, "
       ++ dq "url" ++ ": string}]}}";
     "No explanations or markdown. Ensure valid JSON and avoid code fences."].

(** The items sent to the model. *)
Definition prompt_items (summaries : list Summary.t) : list (list (string * string)) :=
  map (fun s => [("title", Summary.title s);
                 ("summary", Str.slice_to 400 (Summary.summary s));
                 ("url", Summary.url s)]) summaries.

Definition grouping_prompt (summaries : list Summary.t) : string :=
  instruction ++ nl ++ "Tabs:" ++ nl ++ JSON.stringify_array (prompt_items summaries).

(** [s.url === item.url || s.title === item.title] *)
Definition matches (item : JSValue) (s : Summary.t) : js_result bool :=
  (u <-? Js.item_prop item "url" ;;
   if Js.strict_eq_string (Summary.url s) u then Returns true
   else t <-? Js.item_prop item "title" ;;
        Returns (Js.strict_eq_string (Summary.title s) t))%res.

(** The callback of [v.map]: the item is replaced by the first input record
    it matches, or by a fresh object when it matches none. *)
Definition relink (summaries : list Summary.t) (item : JSValue) : js_result GroupEntry :=
  (found <-? Js.find (matches item) summaries ;;
   match found with
   | Some s => Returns (Original s)
   | None =>
       u <-? Js.item_prop item "url" ;;
       t <-? Js.item_prop item "title" ;;
       sm <-? Js.item_prop item "summary" ;;
       Returns (Placeholder (Js.or_empty u) (Js.or_empty t) (Js.or_empty sm))
   end)%res.

(** The loop over [Object.entries(parsed.groups)], filling [cleaned]. *)
Fixpoint clean_entries (summaries : list Summary.t) (es : list (string * JSValue))
    (cleaned : Groups) : js_result Groups :=
  match es with
  | [] => Returns cleaned
  | (k, v) :: rest =>
      match v with
      | JArray items =>
          match Js.map (relink summaries) items with
          | Returns l => clean_entries summaries rest (Obj.assign cleaned k l)
          | Throws => Throws
          end
      | _ => clean_entries summaries rest cleaned
      end
  end.

(** From [parsed] to the [return cleaned] of the AI path: [Returns None]
    when control leaves the [if]s without returning. *)
Definition cleaned_groups (summaries : list Summary.t) (parsed : JSValue)
    : js_result (option Groups) :=
  if Js.truthy parsed then
    match Js.prop parsed "groups" with
    | Some groups =>
        if Js.truthy groups && Js.is_object groups then
          match clean_entries summaries (Js.entries groups) [] with
          | Returns cleaned =>
              if nonempty (Obj.keys cleaned) then Returns (Some cleaned) else Returns None
          | Throws => Throws
          end
        else Returns None
    | None => Returns None
    end
  else Returns None.

(** [typeof raw === 'string' ? raw : (raw?.output ? String(raw.output) : '')] *)
Definition response_text (raw : PromptResult) : string :=
  match raw with
  | PromptText s => s
  | PromptOther (Some t) => t
  | PromptOther None => EmptyString
  end.

(** Everything in the [try] after the prompt resolved. *)
Definition groups_of_response (summaries : list Summary.t) (raw : js_result PromptResult)
    : js_result (option Groups) :=
  (r <-? raw ;;
   parsed <-? JSON.parse (strip_fences (response_text r)) ;;
   cleaned_groups summaries parsed)%res.

Section Pipeline.

Context {H : Type} `{Host H}.

Local Open Scope worker_scope.

Definition groupSummaries (summaries : list Summary.t)
    (languageModel : option (LanguageModel H)) : M H Groups :=
  match languageModel with
  | Some m =>
      if nonempty summaries then
        raw <- call (prompt m (grouping_prompt summaries)) ;;
        match groups_of_response summaries raw with
        | Returns (Some cleaned) => ret cleaned
        | _ => ret (heuristicFallback summaries)
        end
      else ret (heuristicFallback summaries)
  | None => ret (heuristicFallback summaries)
  end.

Definition groupSummariesMock (summaries : list Summary.t) : M H Groups :=
  ret (heuristicFallback summaries).

Definition fetchAllTabs : M H (list Tab.t) := call chrome_tabs_query.

(** [!tab.id || tab.pendingUrl === 'chrome://newtab/' ||
    tab.url?.startsWith('chrome://')] *)
Definition skipped (tab : Tab.t) : bool :=
  match Tab.id tab with
  | None => true
  | Some i => (i =? 0)%Z
  end
  || match Tab.pendingUrl tab with
     | Some p => String.eqb p "chrome://newtab/"
     | None => false
     end
  || match Tab.url tab with
     | Some u => Str.startsWith u "chrome://"
     | None => false
     end.

Definition opt_string (s : option string) : string :=
  match s with Some x => x | None => EmptyString end.

(** The record pushed for a tab that is kept; such a tab has an id. *)
Definition summary_record (tab : Tab.t) (summary : string) : Summary.t :=
  Summary.mk (match Tab.id tab with Some i => i | None => 0%Z end)
    (Tab.windowId tab) (opt_string (Tab.url tab)) (opt_string (Tab.title tab))
    (opt_string (Tab.favIconUrl tab)) summary.

(** The loop over [tabs], from the list of summaries built so far. *)
Fixpoint summarizeTabs (tabs : list Tab.t) (summarizer : option (Summarizer H))
    (languageModel : option (LanguageModel H)) (summaries : list Summary.t)
    : M H (list Summary.t) :=
  match tabs with
  | [] => ret summaries
  | tab :: rest =>
      if skipped tab then summarizeTabs rest summarizer languageModel summaries
      else
        summary <- summarizeTab tab summarizer languageModel ;;
        summarizeTabs rest summarizer languageModel
          (summaries ++ [summary_record tab summary])%list
  end.

Definition processTabsAndStore : M H Snapshot.t :=
  tabs <- fetchAllTabs ;;
  summarizer <- tryCreateSummarizer ;;
  languageModel <- tryCreateLanguageModel ;;
  summaries <- summarizeTabs tabs summarizer languageModel [] ;;
  grouped <- groupSummaries summaries languageModel ;;
  now <- call Date_now ;;
  let payload := Snapshot.mk (Some now) grouped in
  storage_set (Storage.set_latestGroups payload) ;;;
  ret payload.

Definition default_snapshot : Snapshot.t := Snapshot.mk None [].

Definition getLatestGroups : M H Snapshot.t :=
  stored <- storage_get Storage.latestGroups ;;
  match stored with
  | Some latest => ret latest
  | None => ret default_snapshot
  end.

Definition saveSession (sessionName : option string) : M H Session.t :=
  latest <- getLatestGroups ;;
  stored <- storage_get Storage.savedSessions ;;
  let existing := match stored with Some l => l | None => [] end in
  now <- call Date_now ;;
  name <- (if Str.truthy (opt_string sessionName) then ret (opt_string sessionName)
           else (stamp <- call Date_toLocaleString ;; ret ("Session " ++ stamp))) ;;
  let session :=
    Session.mk (Str.of_Z now) name (Snapshot.generatedAt latest) (Snapshot.groups latest) in
  let updated := (existing ++ [session])%list in
  storage_set (Storage.set_savedSessions updated) ;;;
  ret session.

(** The [onInstalled] listener. *)
Definition onInstalled : M H unit :=
  storage_set (fun st => Storage.mk (Some default_snapshot) (Some []) (Storage.theme st)).

End Pipeline.

(** ** Messages from the popup *)

(** [MESSAGE_TYPES] *)
Definition PROCESS_TABS : string := "PROCESS_TABS".
Definition GET_LATEST_GROUPS : string := "GET_LATEST_GROUPS".
Definition SAVE_SESSION : string := "SAVE_SESSION".

(** A message: [type] and [name] may be missing. *)
Module Message.
Record t : Type := mk {
  type : option string;
  name : option string
}.
End Message.

(** What [sendResponse] is given: [{ok: true, data}] with a snapshot or a
    session, or [{ok: false, error}]. *)
Inductive ResponseData : Type :=
| SnapshotData (snapshot : Snapshot.t)
| SessionData (session : Session.t).

Inductive Response : Type :=
| Ok (data : ResponseData)
| Failure (error : string).

Section Messages.

Context {H : Type} `{Host H}.

Local Open Scope worker_scope.

(** The [onMessage] listener, as the response it sends; [message] is [None]
    for [null] or [undefined].  The three commands cannot throw here (the
    host calls they leave unguarded are taken to resolve), so the [catch] of
    the listener is never entered. *)
Definition onMessage (message : option Message.t) : M H Response :=
  let type := match message with Some m => Message.type m | None => None end in
  let name := match message with Some m => Message.name m | None => None end in
  match type with
  | Some t =>
      if String.eqb t PROCESS_TABS then
        data <- processTabsAndStore ;; ret (Ok (SnapshotData data))
      else if String.eqb t GET_LATEST_GROUPS then
        data <- getLatestGroups ;; ret (Ok (SnapshotData data))
      else if String.eqb t SAVE_SESSION then
        data <- saveSession name ;; ret (Ok (SessionData data))
      else ret (Failure "Unknown message type")
  | None => ret (Failure "Unknown message type")
  end.

End Messages.

(** ** A small host to run the worker on

    A clock that advances by one at each reading, a fixed list of open tabs,
    one document shown by every page (or none, when script injection
    rejects), and models that give one fixed reply. *)

Module Demo.

Record State : Type := mk {
  clock : Z;
  tabs : list Tab.t;
  page : option Document.t;
  summarizer_reply : option (js_result SummarizeResult);
  model_reply : option (js_result PromptResult)
}.

Definition the_summarizer (r : js_result SummarizeResult) : Summarizer State :=
  {| summarize := fun _ h => (r, h) |}.

Definition the_model (r : js_result PromptResult) : LanguageModel State :=
  {| prompt := fun _ h => (r, h) |}.

Definition factory {X} (x : X) : AIFactory State X :=
  {| capabilities := None; create := fun _ h => (Returns (Some x), h) |}.

Definition ai (h : State) : option (AINamespace State) :=
  Some {| summarizer := option_map (fun r => factory (the_summarizer r)) (summarizer_reply h);
          languageModel := option_map (fun r => factory (the_model r)) (model_reply h) |}.

#[global] Instance demo_host : Host State := {
  Date_now h := (clock h, mk (clock h + 1) (tabs h) (page h) (summarizer_reply h) (model_reply h));
  Date_toLocaleString h := ("1/1/2026, 12:00:00 AM", h);
  chrome_tabs_query h := (tabs h, h);
  chrome_scripting_executeScript _ h :=
    (match page h with Some d => Returns d | None => Throws end, h);
  self_ai := ai;
  chrome_aiOriginTrial _ := None
}.

(** Single quotes stand for double quotes in the JSON text of the examples. *)
Fixpoint json (s : string) : string :=
  match s with
  | EmptyString => EmptyString
  | String c r => String (if Ascii.eqb c "'" then JSON.dquote else c) (json r)
  end.

Definition tab (i : Z) (url title : string) : Tab.t :=
  Tab.mk (Some i) 1 (Some url) None (Some title) None.

Definition record (i : Z) (url title summary : string) : Summary.t :=
  Summary.mk i 1 url title EmptyString summary.

Definition world (h : State) : World State := mkWorld h Storage.empty.

Definition quiet : State := mk 1000 [] None None None.

End Demo.

(** ** The fallback grouping as the specification words it

    Five fixed categories; a record goes to the first category, in the order
    Research, Shopping, Entertainment, Work, one of whose keywords occurs in
    the lowercased title and summary; [CatOther] catches the rest; the empty
    categories are left out. *)

Inductive Category : Type :=
| CatResearch | CatShopping | CatEntertainment | CatWork | CatOther.

Definition category_name (c : Category) : string :=
  match c with
  | CatResearch => "Research"
  | CatShopping => "Shopping"
  | CatEntertainment => "Entertainment"
  | CatWork => "Work"
  | CatOther => "Other"
  end.

Definition category_eqb (a b : Category) : bool :=
  match a, b with
  | CatResearch, CatResearch | CatShopping, CatShopping
  | CatEntertainment, CatEntertainment | CatWork, CatWork | CatOther, CatOther => true
  | _, _ => false
  end.

Definition categories : list Category :=
  [CatResearch; CatShopping; CatEntertainment; CatWork; CatOther].

Definition keyword_table : list (Category * list string) :=
  [(CatResearch, research_words); (CatShopping, shopping_words);
   (CatEntertainment, entertainment_words); (CatWork, work_words)].

(** The text the keywords are looked for in: the title and the summary put
    together, a space between them, in lower case. *)
Definition spec_text (item : Summary.t) : string :=
  Str.toLowerCase (Summary.title item ++ " " ++ Summary.summary item).

Definition spec_category (item : Summary.t) : Category :=
  match List.find (fun row => Str.test_any (snd row) (spec_text item)) keyword_table with
  | Some row => fst row
  | None => CatOther
  end.

(** The records of a category, in input order. *)
Definition members (c : Category) (summaries : list Summary.t) : list GroupEntry :=
  map Original (filter (fun s => category_eqb (spec_category s) c) summaries).

Definition spec_fallback (summaries : list Summary.t) : Groups :=
  filter (fun e => nonempty (snd e))
    (map (fun c => (category_name c, members c summaries)) categories).

(** ** Statements about the model's answer and the tabs *)

(** [s.url === item.url || s.title === item.title], for an item that is not
    [null]. *)
Definition item_matches (item : JSValue) (s : Summary.t) : bool :=
  Js.strict_eq_string (Summary.url s) (Js.prop item "url")
  || Js.strict_eq_string (Summary.title s) (Js.prop item "title").

(** What an item of the answer becomes in its group: the first input record
    with the item's url or title, else a fresh record without a tab that
    holds the item's own url, title and summary. *)
Definition kept_entry (summaries : list Summary.t) (item : JSValue) : GroupEntry :=
  match List.find (item_matches item) summaries with
  | Some s => Original s
  | None =>
      Placeholder (Js.or_empty (Js.prop item "url"))
        (Js.or_empty (Js.prop item "title"))
        (Js.or_empty (Js.prop item "summary"))
  end.

(** The groups are the arrays that [groups] holds under a key other than
    "__proto__", each with one record for every item of the array, in
    order. *)
Definition holds_answer (summaries : list Summary.t) (groups : JSValue) (out : Groups)
    : Prop :=
  forall k l,
    In (k, l) out <->
    k <> "__proto__"
    /\ exists items,
         In (k, JArray items) (Js.entries groups)
         /\ l = map (kept_entry summaries) items.

(** The keys of an object are distinct. *)
Definition keys_unique (v : JSValue) : Prop :=
  match v with
  | JObject props => NoDup (map fst props)
  | _ => True
  end.

(** The keys of an object are distinct, and so are those of each of its
    values. *)
Definition keys_unique_twice (v : JSValue) : Prop :=
  match v with
  | JObject props => NoDup (map fst props) /\ Forall keys_unique (map snd props)
  | _ => True
  end.



(** No empty category: no key is the empty string, no list is empty. *)
Definition no_empty_category (groups : Groups) : Prop :=
  forall k l, In (k, l) groups -> k <> EmptyString /\ l <> [].

(** The exclusion test as the specification words it. *)
Definition excluded_as_specified (tab : Tab.t) : bool :=
  match Tab.id tab with None => true | Some _ => false end
  || match Tab.pendingUrl tab with
     | Some p => String.eqb p "chrome://newtab/"
     | None => false
     end
  || match Tab.url tab with
     | Some u => Str.startsWith u "chrome://"
     | None => false
     end.

(** ** Statements and inputs used below *)

(** [c] occurs in [k]. *)
Fixpoint has_char (c : ascii) (k : string) : bool :=
  match k with
  | EmptyString => false
  | String x k' => Ascii.eqb c x || has_char c k'
  end.

(** Three records for the example of the specification. *)
Definition paper_record : Summary.t :=
  Demo.record 11 "https://arxiv.org/abs/1706.03762" "Attention Is All You Need" "arxiv paper".
Definition deal_record : Summary.t :=
  Demo.record 12 "https://www.amazon.com/dp/B0" "Headphones" "amazon deal".
Definition video_record : Summary.t :=
  Demo.record 13 "https://www.youtube.com/watch?v=1" "Lo-fi beats" "youtube video".

(** The example as the specification states it: records with the three
    summaries, whatever their titles, land in Research, Shopping and
    Entertainment. *)
Definition example_placement : Prop :=
  forall r1 r2 r3 : Summary.t,
    Summary.summary r1 = "arxiv paper" ->
    Summary.summary r2 = "amazon deal" ->
    Summary.summary r3 = "youtube video" ->
    fst (groupSummaries [r1; r2; r3] None (Demo.world Demo.quiet))
    = [("Research", [Original r1]); ("Shopping", [Original r2]);
       ("Entertainment", [Original r3])].

(** A record with the second summary of the example, under a title that
    holds a Research keyword. *)
Definition guide_record : Summary.t :=
  Demo.record 12 "https://www.amazon.com/dp/B0" "Buyer's Guide" "amazon deal".

(** A step run on a host alone, with nothing in storage. *)
Definition run_host {H A} (m : M H A) (h : H) : A * H :=
  let (a, w) := m (mkWorld h Storage.empty) in (a, host w).

(** A step that neither reads nor writes [chrome.storage.local]: its result
    and its effect on the host are those of [run_host], and the storage is
    left as it was. *)
Definition host_only {H A} (m : M H A) : Prop :=
  forall w, m w = (fst (run_host m (host w)), mkWorld (snd (run_host m (host w))) (local w)).

(** Every record of every group carries the tabId, url and title of an
    input record. *)
Definition relinked_to_inputs (summaries : list Summary.t) (groups : Groups) : Prop :=
  forall k l e, In (k, l) groups -> In e l ->
    exists s, In s summaries
              /\ entry_tabId e = Some (Summary.tabId s)
              /\ entry_url e = JString (Summary.url s)
              /\ entry_title e = JString (Summary.title s).

Definition alpha_record : Summary.t :=
  Demo.record 7 "https://a.example/" "Alpha" "Summary for Alpha".

(** An answer with one item for the input record and one for a page that
    was never open. *)
Definition answer_with_stranger : PromptResult :=
  PromptText (Demo.json
    "{'groups':{'Research':[{'title':'Alpha','url':'https://a.example/'},{'title':'Beta','url':'https://b.example/'}]}}").

(** An answer that lists a category with nothing in it. *)
Definition answer_with_empty_category : PromptResult :=
  PromptText (Demo.json
    "{'groups':{'Research':[{'title':'Alpha','url':'https://a.example/'}],'Shopping':[]}}").


(** A host whose pages can be read and whose summarizer answers. *)
Definition reading_host : Demo.State :=
  Demo.mk 1000 [] (Some (Document.mk "Alpha" None (Some "All about alpha.")))
    (Some (Returns (SummaryText "A page about alpha."))) None.

(** One summary record for each tab that the test of the specification does
    not exclude, in tab order. *)
Definition one_record_per_unexcluded_tab (tabs : list Tab.t) (summaries : list Summary.t)
    : Prop :=
  Forall2 (fun tab s => exists summary, s = summary_record tab summary)
    (filter (fun tab => negb (excluded_as_specified tab)) tabs) summaries.

(** A tab whose id is the number 0. *)
Definition zero_tab : Tab.t := Demo.tab 0 "https://b.example/" "Beta".

(** A host with three open tabs, one of them a browser page. *)
Definition browsing_host : Demo.State :=
  Demo.mk 5 [Demo.tab 1 "https://github.com/" "GitHub"; zero_tab;
             Demo.tab 3 "chrome://settings" "Settings"] None None None.

Definition github_record : Summary.t :=
  Demo.record 1 "https://github.com/" "GitHub" "Summary for GitHub".

(** ** Statements and inputs for the further properties *)

(** An answer with a [null] among its items. *)
Definition answer_with_null_item : PromptResult :=
  PromptText (Demo.json
    "{'groups':{'Research':[{'title':'Alpha','url':'https://a.example/'},null]}}").

(** What an item sent to the model is, once it is read back from JSON. *)
Definition echoed (props : list (string * string)) : JSValue :=
  JObject (map (fun p => (fst p, JString (snd p))) props).

Definition echoed_items (summaries : list Summary.t) : list JSValue :=
  map echoed (prompt_items summaries).

(** No two records share a url, and no two share a title. *)
Definition distinct_tabs (summaries : list Summary.t) : Prop :=
  NoDup (map Summary.url summaries) /\ NoDup (map Summary.title summaries).

(** Two tabs on the same page, and a third. *)
Definition twin_first : Summary.t :=
  Demo.record 21 "https://news.example/" "News" "Summary for News".
Definition twin_second : Summary.t :=
  Demo.record 22 "https://news.example/" "News (2)" "Summary for News (2)".
Definition loner : Summary.t :=
  Demo.record 23 "https://mail.example/" "Mail" "Summary for Mail".

(** The answer about [alpha_record], bare. *)
Definition bare_answer : string :=
  Demo.json "{'groups':{'Reading':[{'title':'Alpha','url':'https://a.example/'}]}}".

(** A host whose pages cannot be read, with a summarizer at hand. *)
Definition closed_pages_host : Demo.State :=
  Demo.mk 1000 [] None (Some (Returns (SummaryText "never asked"))) None.

(** The text is made of white-space characters only. *)
Inductive all_white : string -> Prop :=
| all_white_nil : all_white EmptyString
| all_white_cons (ws rest : string) :
    In ws Str.white_space -> all_white rest -> all_white (ws ++ rest).

(** An answer padded with a space and a no-break space (U+00A0) at its
    head, and a narrow no-break space (U+202F) and a line feed at its end. *)
Definition padded_answer : string :=
  Str.utf8 [32; 194; 160] ++ "A tidy summary." ++ Str.utf8 [226; 128; 175; 10].

(** A host whose language model pads its answer with white space. *)
Definition padding_model : LanguageModel Demo.State :=
  Demo.the_model (Returns (PromptText padded_answer)).

(** The summarizer API a global offers, if any. *)
Definition offered_summarizer {H} (ai : option (AINamespace H))
    : option (AIFactory H (Summarizer H)) :=
  match ai with Some ns => summarizer ns | None => None end.

Definition offered_languageModel {H} (ai : option (AINamespace H))
    : option (AIFactory H (LanguageModel H)) :=
  match ai with Some ns => languageModel ns | None => None end.

(** An API that reports it is not available, and whose [create] would
    advance the clock if it were called. *)
Definition refusing_api : AIFactory Demo.State (Summarizer Demo.State) :=
  {| capabilities :=
       Some (fun h => (Returns (JObject [("available", JString "no")]), h));
     create := fun _ h => (Returns (Some (Demo.the_summarizer Throws)), snd (Date_now h)) |}.

(** An API without a [capabilities] function, whose [create] throws. *)
Definition throwing_api : AIFactory Demo.State (Summarizer Demo.State) :=
  {| capabilities := None; create := fun _ h => (Throws, h) |}.

(** An API whose probe says 'readily', and whose [create] advances the
    clock. *)
Definition ready_api : AIFactory Demo.State (Summarizer Demo.State) :=
  {| capabilities :=
       Some (fun h => (Returns (JObject [("available", JString "readily")]), h));
     create := fun _ h => (Returns (Some (Demo.the_summarizer Throws)), snd (Date_now h)) |}.

(** The options [tryCreateSummarizer] and [tryCreateLanguageModel] pass to
    [create]. *)
Definition summarizer_options : JSValue :=
  JObject [("type", JString "paragraph"); ("length", JString "short")].

Definition languageModel_options : JSValue :=
  JObject [("systemPrompt",
     JString "You are Tab Whisperer, an assistant that groups browser tabs by intent.")].

(** A host on which each of the two globals, [self.ai] and
    [chrome.aiOriginTrial], is there or not; the capabilities each one
    creates answer with the name of the global they came from. *)
Module Globals.

Record State : Type := mk {
  built_in : bool;
  origin_trial : bool
}.

Definition summarizer_of (label : string) : Summarizer State :=
  {| summarize := fun _ h => (Returns (SummaryText label), h) |}.

Definition model_of (label : string) : LanguageModel State :=
  {| prompt := fun _ h => (Returns (PromptText label), h) |}.

Definition factory {X} (x : X) : AIFactory State X :=
  {| capabilities := None; create := fun _ h => (Returns (Some x), h) |}.

Definition namespace (label : string) : AINamespace State :=
  {| summarizer := Some (factory (summarizer_of label));
     languageModel := Some (factory (model_of label)) |}.

#[global] Instance globals_host : Host State := {
  Date_now h := (0%Z, h);
  Date_toLocaleString h := (EmptyString, h);
  chrome_tabs_query h := ([], h);
  chrome_scripting_executeScript _ h := (Throws, h);
  self_ai h := if built_in h then Some (namespace "self.ai") else None;
  chrome_aiOriginTrial h :=
    if origin_trial h then Some (namespace "chrome.aiOriginTrial") else None
}.

Definition world (h : State) : World State := mkWorld h Storage.empty.

End Globals.

(** The record of a tab when no capability is at hand. *)
Definition fallback_record (tab : Tab.t) : Summary.t :=
  summary_record tab ("Summary for " ++ tabTitle tab).

(** A host with only browser pages open. *)
Definition settings_only_host : Demo.State :=
  Demo.mk 5 [Demo.tab 3 "chrome://settings" "Settings";
             Tab.mk (Some 4%Z) 1%Z (Some "https://c.example/") (Some "chrome://newtab/")
               (Some "New Tab") None] None None None.

(** The type of a message, if it has one. *)
Definition message_type (message : option Message.t) : option string :=
  match message with Some m => Message.type m | None => None end.

(** A record whose url names a work site but whose title and summary do
    not. *)
Definition pull_requests : Summary.t :=
  Demo.record 31 "https://github.com/pulls" "Pull requests" "Summary for Pull requests".

(** The same page with another url, and with its text in capitals. *)
Definition pull_requests_shouted : Summary.t :=
  Demo.record 32 "https://example.org/" "PULL REQUESTS" "Summary for Pull Requests".

(** One member of an object as [JSON.stringify] writes it. *)
Definition member_text (p : string * string) : string :=
  JSON.quote (fst p) ++ ":" ++ JSON.quote (snd p).

(** The properties of the item sent for a record. *)
Definition item_props (s : Summary.t) : list (string * string) :=
  [("title", Summary.title s); ("summary", Str.slice_to 400 (Summary.summary s));
   ("url", Summary.url s)].

(** The answer that echoes the items sent, all under the category [k]. *)
Definition echo_answer (k : string) (summaries : list Summary.t) : string :=
  "{" ++ JSON.quote "groups" ++ ":"
  ++ ("{" ++ JSON.quote k ++ ":" ++ JSON.stringify_array (prompt_items summaries) ++ "}")
  ++ "}".

(** * Properties *)

(** ** Objects *)

Section ObjFacts.

Context {A : Type}.

Lemma insert_new_plain (o : Obj.t A) k v :
  Obj.array_index k = None -> Obj.insert_new o k v = (o ++ [(k, v)])%list.
Proof.
  intros Hk. induction o as [|[k' v'] o IH]; simpl; [reflexivity|].
  unfold Obj.goes_before. rewrite Hk. now rewrite IH.
Qed.

Lemma get_absent (o : Obj.t A) k :
  ~ In k (Obj.keys o) -> Obj.get o k = None.
Proof.
  induction o as [|[k' v'] o IH]; simpl; intros Hn; [reflexivity|].
  destruct (String.eqb_spec k' k) as [->|Hne].
  - exfalso. apply Hn. now left.
  - apply IH. intros Hin. apply Hn. now right.
Qed.

Lemma define_plain (o : Obj.t A) k v :
  Obj.array_index k = None -> ~ In k (Obj.keys o) ->
  Obj.define o k v = (o ++ [(k, v)])%list.
Proof.
  intros Hk Hn. unfold Obj.define, Obj.has.
  rewrite (get_absent _ _ Hn). now apply insert_new_plain.
Qed.

Lemma fromEntries_plain_from (es acc : list (string * A)) :
  Forall (fun e => Obj.array_index (fst e) = None) es ->
  NoDup (map fst (acc ++ es)) ->
  fold_left (fun o e => Obj.define o (fst e) (snd e)) es acc = (acc ++ es)%list.
Proof.
  revert acc. induction es as [|[k v] es IH]; intros acc Hidx Hnd; simpl.
  - now rewrite app_nil_r.
  - inversion Hidx as [|? ? Hk Hrest]; subst. simpl in Hk.
    assert (Hsplit : (acc ++ (k, v) :: es = (acc ++ [(k, v)]) ++ es)%list)
      by now rewrite <- app_assoc.
    rewrite define_plain; trivial.
    + rewrite IH; trivial; [now rewrite <- app_assoc | now rewrite <- Hsplit].
    + rewrite map_app in Hnd. simpl in Hnd.
      apply NoDup_remove_2 in Hnd. intros Hin. apply Hnd.
      apply in_or_app. now left.
Qed.

(** With distinct keys none of which is an array index, [fromEntries]
    keeps the entries as they come. *)
Lemma fromEntries_plain (es : list (string * A)) :
  Forall (fun e => Obj.array_index (fst e) = None) es ->
  NoDup (map fst es) ->
  Obj.fromEntries es = es.
Proof.
  intros Hidx Hnd. unfold Obj.fromEntries.
  now rewrite fromEntries_plain_from.
Qed.

Lemma NoDup_keys_filter (p : string * A -> bool) (es : list (string * A)) :
  NoDup (map fst es) -> NoDup (map fst (filter p es)).
Proof.
  induction es as [|e es IH]; simpl; intros Hnd; [constructor|].
  inversion Hnd as [|? ? Hnotin Hrest]; subst.
  destruct (p e); simpl; [constructor|]; auto.
  intros Hin. apply Hnotin.
  apply in_map_iff in Hin. destruct Hin as [x [Hx Hin]].
  apply filter_In in Hin. apply in_map_iff. exists x. tauto.
Qed.

End ObjFacts.

(** ** The heuristic fallback *)

Lemma spec_category_cases (item : Summary.t) :
  spec_category item =
    if Str.test_any research_words (item_text item) then CatResearch
    else if Str.test_any shopping_words (item_text item) then CatShopping
    else if Str.test_any entertainment_words (item_text item) then CatEntertainment
    else if Str.test_any work_words (item_text item) then CatWork
    else CatOther.
Proof.
  unfold spec_category, keyword_table. cbn [List.find snd fst].
  change (spec_text item) with (item_text item).
  destruct (Str.test_any research_words _); [reflexivity|].
  destruct (Str.test_any shopping_words _); [reflexivity|].
  destruct (Str.test_any entertainment_words _); [reflexivity|].
  destruct (Str.test_any work_words _); reflexivity.
Qed.

Lemma members_cons (c : Category) (item : Summary.t) (l : list Summary.t) :
  members c (item :: l) =
    if category_eqb (spec_category item) c then Original item :: members c l
    else members c l.
Proof.
  unfold members. cbn [filter]. now destruct (category_eqb _ c).
Qed.

(** The loop files each record under its category, behind what the bucket
    already holds. *)
Lemma fold_push_item (summaries : list Summary.t) :
  forall r s e w o,
    fold_left push_item summaries (mkBuckets r s e w o) =
    mkBuckets (r ++ members CatResearch summaries) (s ++ members CatShopping summaries)
      (e ++ members CatEntertainment summaries) (w ++ members CatWork summaries)
      (o ++ members CatOther summaries).
Proof.
  induction summaries as [|item l IH]; intros r s e w o.
  - cbn. now rewrite !app_nil_r.
  - cbn [fold_left]. rewrite !members_cons.
    unfold push_item. rewrite spec_category_cases.
    destruct (Str.test_any research_words _);
      [|destruct (Str.test_any shopping_words _);
        [|destruct (Str.test_any entertainment_words _);
          [|destruct (Str.test_any work_words _)]]];
      rewrite IH; cbn [category_eqb]; now rewrite <- ?app_assoc.
Qed.

Lemma category_names_plain :
  Forall (fun c => Obj.array_index (category_name c) = None) categories
  /\ NoDup (map category_name categories).
Proof.
  split.
  - repeat constructor.
  - repeat constructor; cbn; intuition discriminate.
Qed.

(** The code's fallback is the specification's. *)
Lemma heuristicFallback_spec (summaries : list Summary.t) :
  heuristicFallback summaries = spec_fallback summaries.
Proof.
  unfold heuristicFallback, spec_fallback. rewrite fold_push_item.
  unfold Obj.entries, buckets_entries. cbn [Research Shopping Entertainment Work Other app].
  apply fromEntries_plain.
  - apply Forall_forall. intros [k l] Hin. apply filter_In in Hin.
    destruct Hin as [Hin _]. cbn in Hin.
    destruct Hin as [E|[E|[E|[E|[E|[]]]]]]; inversion E; reflexivity.
  - apply NoDup_keys_filter. cbn. apply category_names_plain.
Qed.

Lemma concat_nonempty {A K : Type} (es : list (K * list A)) :
  List.concat (map snd (filter (fun e => nonempty (snd e)) es)) = List.concat (map snd es).
Proof.
  induction es as [|[k l] es IH]; [reflexivity|].
  cbn [filter snd]. destruct l as [|x l]; cbn; [assumption|].
  now rewrite IH.
Qed.

Lemma members_partition (summaries : list Summary.t) :
  Permutation
    (members CatResearch summaries ++ members CatShopping summaries
     ++ members CatEntertainment summaries ++ members CatWork summaries
     ++ members CatOther summaries)
    (map Original summaries).
Proof.
  induction summaries as [|item l IH]; [constructor|].
  rewrite !members_cons. cbn [map].
  destruct (spec_category item); cbn [category_eqb].
  - cbn. now constructor.
  - symmetry. apply Permutation_cons_app. now symmetry.
  - symmetry. rewrite app_assoc. apply Permutation_cons_app.
    rewrite <- app_assoc. now symmetry.
  - symmetry. rewrite 2!app_assoc. apply Permutation_cons_app.
    rewrite <- 2!app_assoc. now symmetry.
  - symmetry. rewrite 3!app_assoc. apply Permutation_cons_app.
    rewrite <- 3!app_assoc. now symmetry.
Qed.

Lemma spec_fallback_In (summaries : list Summary.t) k l :
  In (k, l) (spec_fallback summaries) <->
  exists c, k = category_name c /\ l = members c summaries /\ l <> [].
Proof.
  unfold spec_fallback. rewrite filter_In, in_map_iff. cbn [snd]. split.
  - intros [[c [E _]] Hne]. inversion E; subst. exists c. repeat split.
    intros E'. rewrite E' in Hne. discriminate.
  - intros [c [-> [-> Hne]]]. split.
    + exists c. split; [reflexivity|]. destruct c; cbn; tauto.
    + destruct (members c summaries); [contradiction | reflexivity].
Qed.

Lemma category_eqb_eq (a b : Category) : category_eqb a b = true <-> a = b.
Proof. destruct a, b; cbn; split; intros E; try reflexivity; discriminate. Qed.

Lemma members_In (c : Category) (summaries : list Summary.t) (e : GroupEntry) :
  In e (members c summaries) <->
  exists s, e = Original s /\ In s summaries /\ spec_category s = c.
Proof.
  unfold members. rewrite in_map_iff. split.
  - intros [s [<- Hin]]. apply filter_In in Hin. destruct Hin as [Hin Hc].
    exists s. rewrite category_eqb_eq in Hc. auto.
  - intros [s [-> [Hin Hc]]]. exists s. split; [reflexivity|].
    apply filter_In. split; [assumption|]. now apply category_eqb_eq.
Qed.

(** The fallback never keeps an empty category. *)
Lemma heuristicFallback_no_empty_category (summaries : list Summary.t) :
  no_empty_category (heuristicFallback summaries).
Proof.
  intros k l Hin. rewrite heuristicFallback_spec in Hin.
  apply spec_fallback_In in Hin. destruct Hin as [c [-> [-> Hne]]].
  split; [|assumption]. destruct c; discriminate.
Qed.

(** ** Keywords across the space between title and summary *)

Lemma toLowerCase_unfold (c : ascii) (s1 : string) :
  Str.toLowerCase (String c s1)
  = match s1 with
    | String d s2 =>
        if Ascii.eqb c "196" && Ascii.eqb d "176" then
          String "i" (String "204" (String "135" (Str.toLowerCase s2)))
        else
          match s2 with
          | String e s3 =>
              if Ascii.eqb c "226" && Ascii.eqb d "132" && Ascii.eqb e "170" then
                String "k" (Str.toLowerCase s3)
              else String (Str.lower_char c) (Str.toLowerCase s1)
          | EmptyString => String (Str.lower_char c) (Str.toLowerCase s1)
          end
    | EmptyString => String (Str.lower_char c) EmptyString
    end.
Proof. destruct s1 as [|d [|e s3]]; reflexivity. Qed.

Lemma toLowerCase_space (b : string) :
  Str.toLowerCase (String " " b) = String " " (Str.toLowerCase b).
Proof. destruct b as [|d [|e r]]; reflexivity. Qed.

(** A space ends whatever character stands before it: lowering goes
    through. *)
Lemma toLowerCase_sep (a b : string) :
  Str.toLowerCase (a ++ String " " b)
  = Str.toLowerCase a ++ String " " (Str.toLowerCase b).
Proof.
  assert (G : forall n a, (String.length a <= n)%nat ->
            Str.toLowerCase (a ++ String " " b)
            = Str.toLowerCase a ++ String " " (Str.toLowerCase b)).
  { induction n as [|n IH]; intros [|c a'] Hlen; cbn [String.length] in Hlen;
      try (apply toLowerCase_space); try lia.
    destruct a' as [|d a''].
    - change (String c EmptyString ++ String " " b) with (String c (String " " b)).
      rewrite (toLowerCase_unfold c (String " " b)), (toLowerCase_unfold c EmptyString).
      change (Ascii.eqb " " "176") with false. change (Ascii.eqb " " "132") with false.
      rewrite !andb_false_r. rewrite toLowerCase_space.
      now destruct b.
    - assert (IHd : Str.toLowerCase (String d a'' ++ String " " b)
                    = Str.toLowerCase (String d a'') ++ String " " (Str.toLowerCase b)).
      { apply IH. cbn [String.length] in *. lia. }
      change (String c (String d a'') ++ String " " b)
        with (String c (String d (a'' ++ String " " b))).
      change (String d a'' ++ String " " b) with (String d (a'' ++ String " " b)) in IHd.
      rewrite (toLowerCase_unfold c (String d (a'' ++ String " " b))),
        (toLowerCase_unfold c (String d a'')).
      rewrite IHd.
      assert (IHr : Str.toLowerCase (a'' ++ String " " b)
                  = Str.toLowerCase a'' ++ String " " (Str.toLowerCase b)).
      { apply IH. cbn [String.length] in *. lia. }
      rewrite IHr.
      destruct (Ascii.eqb c "196" && Ascii.eqb d "176"); [reflexivity|].
      destruct a'' as [|e r].
      + change (EmptyString ++ String " " b) with (String " " b).
        cbv beta iota.
        change (Ascii.eqb " " "170") with false. rewrite andb_false_r. reflexivity.
      + change (String e r ++ String " " b) with (String e (r ++ String " " b)).
        cbv beta iota.
        destruct (Ascii.eqb c "226" && Ascii.eqb d "132" && Ascii.eqb e "170");
          [|reflexivity].
        change (String "k" (Str.toLowerCase r) ++ String " " (Str.toLowerCase b))
          with (String "k" (Str.toLowerCase r ++ String " " (Str.toLowerCase b))).
        f_equal. apply IH. cbn [String.length] in *. lia. }
  exact (G (String.length a) a (le_n _)).
Qed.

Lemma startsWith_sep (a b : string) (c : ascii) :
  forall k, has_char c k = false ->
    Str.startsWith (a ++ String c b) k = Str.startsWith a k.
Proof.
  induction a as [|y a IH]; intros [|x k] Hk; cbn; try reflexivity;
    cbn in Hk; apply orb_false_iff in Hk; destruct Hk as [Hx Hk].
  - rewrite Ascii.eqb_sym, Hx. reflexivity.
  - now rewrite IH.
Qed.

Lemma includes_sep (a b : string) (c : ascii) (k : string) :
  has_char c k = false ->
  Str.includes (a ++ String c b) k = Str.includes a k || Str.includes (String c b) k.
Proof.
  intros Hk. induction a as [|y a IH].
  - destruct k; cbn; [reflexivity|]. reflexivity.
  - change (String y a ++ String c b) with (String y (a ++ String c b)).
    cbn [Str.includes]. rewrite IH.
    change (String y (a ++ String c b)) with (String y a ++ String c b).
    rewrite startsWith_sep by assumption.
    now rewrite orb_assoc.
Qed.

Lemma test_any_sep (words : list string) (a b : string) (c : ascii) :
  Forall (fun k => has_char c k = false) words ->
  Str.test_any words (a ++ String c b)
  = Str.test_any words a || Str.test_any words (String c b).
Proof.
  unfold Str.test_any. induction 1 as [|k ws Hk _ IH]; cbn [existsb]; [reflexivity|].
  rewrite IH, includes_sep by assumption.
  destruct (Str.includes a k), (Str.includes (String c b) k),
    (existsb (Str.includes a) ws); reflexivity.
Qed.

Lemma item_text_split (item : Summary.t) :
  item_text item
  = Str.toLowerCase (Summary.title item)
    ++ String " " (Str.toLowerCase (Summary.summary item)).
Proof. unfold item_text. apply toLowerCase_sep. Qed.

Lemma words_without_space :
  Forall (fun k => has_char " " k = false)
    (research_words ++ shopping_words ++ entertainment_words ++ work_words).
Proof. repeat constructor. Qed.

(** A keyword is found in the text of a record when it is found in the
    title or in the summary: no keyword holds a space. *)
Lemma test_any_item (words : list string) (item : Summary.t) :
  In words (map snd keyword_table) ->
  Str.test_any words (item_text item)
  = Str.test_any words (Str.toLowerCase (Summary.title item))
    || Str.test_any words (String " " (Str.toLowerCase (Summary.summary item))).
Proof.
  intros Hin. rewrite item_text_split. apply test_any_sep.
  pose proof words_without_space as Hw. rewrite Forall_forall in Hw.
  apply Forall_forall. intros k Hk. apply Hw.
  cbn in Hin. destruct Hin as [<-|[<-|[<-|[<-|[]]]]];
    repeat (apply in_or_app; (now left) || right); assumption.
Qed.

Lemma category_arxiv_paper (r : Summary.t) :
  Summary.summary r = "arxiv paper" -> spec_category r = CatResearch.
Proof.
  intros E. rewrite spec_category_cases.
  rewrite (test_any_item research_words) by (cbn; auto).
  rewrite E.
  assert (T : Str.test_any research_words (String " " (Str.toLowerCase "arxiv paper")) = true)
    by reflexivity.
  now rewrite T, orb_true_r.
Qed.

Lemma category_amazon_deal (r : Summary.t) :
  Summary.summary r = "amazon deal" ->
  Str.test_any research_words (Str.toLowerCase (Summary.title r)) = false ->
  spec_category r = CatShopping.
Proof.
  intros E Hr. rewrite spec_category_cases.
  rewrite (test_any_item research_words), (test_any_item shopping_words) by (cbn; auto).
  rewrite E, Hr.
  assert (T1 : Str.test_any research_words (String " " (Str.toLowerCase "amazon deal")) = false)
    by reflexivity.
  assert (T2 : Str.test_any shopping_words (String " " (Str.toLowerCase "amazon deal")) = true)
    by reflexivity.
  now rewrite T1, T2, orb_true_r.
Qed.

Lemma category_youtube_video (r : Summary.t) :
  Summary.summary r = "youtube video" ->
  Str.test_any research_words (Str.toLowerCase (Summary.title r)) = false ->
  Str.test_any shopping_words (Str.toLowerCase (Summary.title r)) = false ->
  spec_category r = CatEntertainment.
Proof.
  intros E Hr Hs. rewrite spec_category_cases.
  rewrite (test_any_item research_words), (test_any_item shopping_words),
    (test_any_item entertainment_words) by (cbn; auto).
  rewrite E, Hr, Hs.
  assert (T1 : Str.test_any research_words (String " " (Str.toLowerCase "youtube video")) = false)
    by reflexivity.
  assert (T2 : Str.test_any shopping_words (String " " (Str.toLowerCase "youtube video")) = false)
    by reflexivity.
  assert (T3 : Str.test_any entertainment_words (String " " (Str.toLowerCase "youtube video")) = true)
    by reflexivity.
  now rewrite T1, T2, T3, orb_true_r.
Qed.

Section FallbackClaims.

Context {H : Type} `{Host H}.

(** C3, as the code has it.  Without a language model, [groupSummaries]
    gives the keyword grouping of the specification: each record sits in
    exactly one of the five categories, the first one (Research, Shopping,
    Entertainment, Work) with a keyword in the lowercased text made of the
    title, a space and the summary, else Other.  The title counts: records
    whose summaries are "arxiv paper", "amazon deal" and "youtube video"
    land in Research, Shopping and Entertainment when their titles bring
    no keyword of an earlier category. *)
Theorem fallback_first_match_wins (summaries : list Summary.t) (w : World H) :
  let out := fst (groupSummaries summaries None w) in
  out = spec_fallback summaries
  /\ (forall s, In s summaries ->
        exists l, In (category_name (spec_category s), l) out /\ In (Original s) l)
  /\ (forall k l s, In (k, l) out -> In (Original s) l ->
        k = category_name (spec_category s))
  /\ (forall r1 r2 r3,
        Summary.summary r1 = "arxiv paper" ->
        Summary.summary r2 = "amazon deal" ->
        Summary.summary r3 = "youtube video" ->
        Str.test_any research_words (Str.toLowerCase (Summary.title r2)) = false ->
        Str.test_any research_words (Str.toLowerCase (Summary.title r3)) = false ->
        Str.test_any shopping_words (Str.toLowerCase (Summary.title r3)) = false ->
        fst (groupSummaries [r1; r2; r3] None w)
        = [("Research", [Original r1]); ("Shopping", [Original r2]);
           ("Entertainment", [Original r3])]).
Proof.
  cbn [groupSummaries ret fst]. rewrite heuristicFallback_spec.
  split; [reflexivity|]. split; [|split].
  - intros s Hin. exists (members (spec_category s) summaries).
    assert (Hmem : In (Original s) (members (spec_category s) summaries))
      by (apply members_In; eauto).
    split; [|assumption].
    apply spec_fallback_In. exists (spec_category s). repeat split.
    intros E. rewrite E in Hmem. contradiction.
  - intros k l s Hin Hs. apply spec_fallback_In in Hin.
    destruct Hin as [c [-> [-> _]]]. apply members_In in Hs.
    destruct Hs as [s' [E [_ Hc]]]. inversion E; subst. reflexivity.
  - intros r1 r2 r3 E1 E2 E3 T2 T3 T3'.
    rewrite heuristicFallback_spec. unfold spec_fallback, categories.
    cbn [map]. rewrite !members_cons.
    rewrite (category_arxiv_paper r1 E1), (category_amazon_deal r2 E2 T2),
      (category_youtube_video r3 E3 T3 T3').
    reflexivity.
Qed.

(** C10.  The heuristic fallback, in [groupSummaries] and in
    [groupSummariesMock], is a partition of its input: its groups are, in
    the order Research, Shopping, Entertainment, Work, Other, the non-empty
    ones among the lists of the records of each category in input order,
    and together they hold every input record exactly once. *)
Theorem fallback_is_a_partition (summaries : list Summary.t) (w : World H) :
  fst (groupSummariesMock summaries w) = heuristicFallback summaries
  /\ fst (groupSummaries summaries None w) = heuristicFallback summaries
  /\ heuristicFallback summaries
     = filter (fun e => nonempty (snd e))
         (map (fun c => (category_name c,
                         map Original
                           (filter (fun s => category_eqb (spec_category s) c) summaries)))
            [CatResearch; CatShopping; CatEntertainment; CatWork; CatOther])
  /\ Permutation (List.concat (map snd (heuristicFallback summaries)))
       (map Original summaries).
Proof.
  repeat split; try reflexivity.
  - apply heuristicFallback_spec.
  - rewrite heuristicFallback_spec. unfold spec_fallback.
    rewrite concat_nonempty. cbn [categories map snd List.concat].
    rewrite app_nil_r. apply members_partition.
Qed.

End FallbackClaims.

(** C3, as stated, fails: the summaries alone do not place the records.
    Under the title "Buyer's Guide" the record with the summary "amazon
    deal" lands in Research, where "guide" is a keyword. *)
Lemma titled_deal_goes_to_research :
  Summary.summary guide_record = "amazon deal"
  /\ fst (groupSummaries [paper_record; guide_record; video_record] None
            (Demo.world Demo.quiet))
     = [("Research", [Original paper_record; Original guide_record]);
        ("Entertainment", [Original video_record])]
  /\ ~ example_placement.
Proof.
  split; [reflexivity|]. split; [vm_compute; reflexivity|].
  intros Hc.
  specialize (Hc paper_record guide_record video_record eq_refl eq_refl eq_refl).
  vm_compute in Hc. discriminate Hc.
Qed.

Lemma fallback_first_match_wins_witness :
  fst (groupSummaries [paper_record; deal_record; video_record] None (Demo.world Demo.quiet))
  = [("Research", [Original paper_record]); ("Shopping", [Original deal_record]);
     ("Entertainment", [Original video_record])].
Proof.
  exact (proj2 (proj2 (proj2
           (fallback_first_match_wins (H := Demo.State) [] (Demo.world Demo.quiet))))
           paper_record deal_record video_record
           eq_refl eq_refl eq_refl eq_refl eq_refl eq_refl).
Defined.

(** ** Steps that only talk to the host *)

Section HostOnly.

Context {H : Type}.

Lemma host_only_ret {A} (a : A) : host_only (H := H) (ret a).
Proof. intros [h st]. reflexivity. Qed.

Lemma host_only_call {A} (op : H -> A * H) : host_only (call op).
Proof.
  intros [h st]. unfold run_host, call. cbn. now destruct (op h).
Qed.

Lemma host_only_read {A} (f : H -> A) : host_only (read f).
Proof. intros [h st]. reflexivity. Qed.

Lemma host_only_bind {A B} (m : M H A) (k : A -> M H B) :
  host_only m -> (forall a, host_only (k a)) -> host_only (bind m k).
Proof.
  intros Hm Hk [h st]. unfold run_host, bind. cbn [host local].
  rewrite (Hm (mkWorld h st)), (Hm (mkWorld h Storage.empty)). cbn [host local].
  destruct (run_host m h) as [a h1]. cbn [fst snd].
  rewrite (Hk a (mkWorld h1 st)), (Hk a (mkWorld h1 Storage.empty)). cbn [host local].
  now destruct (run_host (k a) h1).
Qed.

End HostOnly.

Ltac host_only_step :=
  first
    [ apply host_only_ret
    | apply host_only_call
    | apply host_only_read
    | apply host_only_bind; [|intros ?]
    | match goal with
      | |- host_only (match ?x with _ => _ end) => destruct x
      | |- host_only (if ?x then _ else _) => destruct x
      end ].

Ltac host_only_auto := repeat host_only_step.

Section WorkerFacts.

Context {H : Type} `{Host H}.

Lemma host_only_tryCreate {X} (api : AIFactory H X) (options : JSValue) :
  host_only (tryCreate api options).
Proof. unfold tryCreate. host_only_auto. Qed.

Lemma host_only_tryCreateSummarizer : host_only tryCreateSummarizer.
Proof.
  unfold tryCreateSummarizer, resolveAISummarizerAPI.
  host_only_auto; apply host_only_tryCreate.
Qed.

Lemma host_only_tryCreateLanguageModel : host_only tryCreateLanguageModel.
Proof.
  unfold tryCreateLanguageModel, resolveAILanguageModelAPI.
  host_only_auto; apply host_only_tryCreate.
Qed.

Lemma host_only_fetchTabTextContent (tabId : option Z) :
  host_only (fetchTabTextContent tabId).
Proof. unfold fetchTabTextContent. host_only_auto. Qed.

Lemma host_only_summarizeTab tab summarizer languageModel :
  host_only (summarizeTab tab summarizer languageModel).
Proof.
  unfold summarizeTab, summarizeWithSummarizer, summarizeWithLanguageModel.
  host_only_auto; apply host_only_fetchTabTextContent.
Qed.

Lemma host_only_groupSummaries summaries (languageModel : option (LanguageModel H)) :
  host_only (groupSummaries summaries languageModel).
Proof. unfold groupSummaries. host_only_auto. Qed.

Lemma host_only_summarizeTabs tabs summarizer languageModel :
  forall summaries, host_only (summarizeTabs tabs summarizer languageModel summaries).
Proof.
  induction tabs as [|tab rest IH]; intros summaries; cbn [summarizeTabs].
  - apply host_only_ret.
  - destruct (skipped tab); [apply IH|].
    apply host_only_bind; [apply host_only_summarizeTab | intros; apply IH].
Qed.

End WorkerFacts.

(** ** Persistence *)

Lemma of_Z_not_empty (n : Z) : Str.of_Z n <> EmptyString.
Proof.
  unfold Str.of_Z. destruct (Z.to_int n) as [d|d]; cbn; [|discriminate].
  destruct d; discriminate.
Qed.

Ltac run_steps :=
  repeat match goal with
         | |- context [let (_, _) := ?t in _] => destruct t
         end.

Lemma to_int_not_nil (n : Z) : Z.to_int n <> Decimal.Pos Decimal.Nil /\ Z.to_int n <> Decimal.Neg Decimal.Nil.
Proof.
  destruct n as [|p|p]; cbn; split; try discriminate;
    intros E; inversion E as [E']; now apply DecimalPos.Unsigned.to_uint_nonnil in E'.
Qed.

Lemma of_Z_inj (a b : Z) : Str.of_Z a = Str.of_Z b -> a = b.
Proof.
  unfold Str.of_Z. intros E.
  assert (Ea : NilZero.int_of_string (NilZero.string_of_int (Z.to_int a)) = Some (Z.to_int a))
    by (apply NilZero.isi; apply to_int_not_nil).
  assert (Eb : NilZero.int_of_string (NilZero.string_of_int (Z.to_int b)) = Some (Z.to_int b))
    by (apply NilZero.isi; apply to_int_not_nil).
  rewrite E, Eb in Ea. inversion Ea as [E'].
  rewrite <- (DecimalZ.of_to a), <- (DecimalZ.of_to b). now rewrite E'.
Qed.

Section Persistence.

Context {H : Type} `{Host H}.

Local Open Scope list_scope.

(** A processing run: what it returns and what it does to the host depend
    on the host alone, and the payload takes the place of [latestGroups]. *)
Lemma processTabsAndStore_run :
  exists F : H -> Snapshot.t * H,
    forall w : World H,
      processTabsAndStore w
      = (fst (F (host w)),
         mkWorld (snd (F (host w)))
           (Storage.set_latestGroups (fst (F (host w))) (local w))).
Proof.
  pose (prefix :=
          (bind fetchAllTabs (fun tabs =>
           bind tryCreateSummarizer (fun summarizer =>
           bind tryCreateLanguageModel (fun languageModel =>
           bind (summarizeTabs tabs summarizer languageModel []) (fun summaries =>
           bind (groupSummaries summaries languageModel) (fun grouped =>
           bind (call Date_now) (fun now =>
           ret (Snapshot.mk (Some now) grouped)))))))) : M H Snapshot.t).
  assert (Hp : host_only prefix).
  { unfold prefix, fetchAllTabs.
    repeat first
      [ apply host_only_tryCreateSummarizer
      | apply host_only_tryCreateLanguageModel
      | apply host_only_summarizeTabs
      | apply host_only_groupSummaries
      | host_only_step ]. }
  exists (run_host prefix). intros w.
  assert (E : processTabsAndStore w
              = (fst (prefix w),
                 mkWorld (host (snd (prefix w)))
                   (Storage.set_latestGroups (fst (prefix w)) (local (snd (prefix w)))))).
  { unfold processTabsAndStore, prefix, bind, storage_set, ret.
    run_steps. reflexivity. }
  rewrite E, (Hp w). reflexivity.
Qed.

(** C5.  After two processing runs the stored [latestGroups] is exactly
    the payload the second run returned; the saved sessions and the theme
    are as before; and the second run returns and stores the same payload
    whatever the storage held when it started, the first run's snapshot
    included. *)
Theorem processing_overwrites_snapshot (w : World H) :
  let first := processTabsAndStore w in
  let second := processTabsAndStore (snd first) in
  Storage.latestGroups (local (snd second)) = Some (fst second)
  /\ Storage.savedSessions (local (snd second)) = Storage.savedSessions (local w)
  /\ Storage.theme (local (snd second)) = Storage.theme (local w)
  /\ (forall st : Storage.t,
        processTabsAndStore (mkWorld (host (snd first)) st)
        = (fst second,
           mkWorld (host (snd second)) (Storage.set_latestGroups (fst second) st))).
Proof.
  destruct processTabsAndStore_run as [F HF]. cbn zeta.
  rewrite (HF (snd (processTabsAndStore w))), (HF w). cbn [fst snd host local].
  repeat split. intros st. now rewrite HF.
Qed.

Lemma saveSession_run (sessionName : option string) (w : World H) :
  let existing :=
    match Storage.savedSessions (local w) with Some l => l | None => [] end in
  let session := fst (saveSession sessionName w) in
  local (snd (saveSession sessionName w))
  = Storage.set_savedSessions (existing ++ [session]) (local w)
  /\ Session.id session = Str.of_Z (fst (Date_now (host w)))
  /\ Session.groups session
     = match Storage.latestGroups (local w) with
       | Some latest => Snapshot.groups latest
       | None => []
       end.
Proof.
  unfold saveSession, getLatestGroups, bind, storage_get, storage_set, call, ret.
  destruct w as [h st]. cbn [host local].
  destruct (Storage.latestGroups st); cbn [host local fst snd];
    destruct (Date_now h) as [now h1]; cbn [host local fst snd];
    destruct (Str.truthy (opt_string sessionName)); cbn [host local fst snd];
    try destruct (Date_toLocaleString h1); cbn; repeat split.
Qed.

(** C6.  [saveSession] only appends: the stored list becomes the sessions
    stored before, unchanged and in order (none when the key was never
    set), followed by the one session it returns; a second call adds one
    more behind it; [latestGroups] is left alone. *)
Theorem saveSession_appends (name name' : option string) (w : World H) :
  let existing :=
    match Storage.savedSessions (local w) with Some l => l | None => [] end in
  let first := saveSession name w in
  let second := saveSession name' (snd first) in
  Storage.savedSessions (local (snd first)) = Some (existing ++ [fst first])
  /\ Storage.savedSessions (local (snd second))
     = Some (existing ++ [fst first; fst second])
  /\ List.length (existing ++ [fst first; fst second]) = (List.length existing + 2)%nat
  /\ Storage.latestGroups (local (snd second)) = Storage.latestGroups (local w).
Proof.
  cbn zeta.
  destruct (saveSession_run name w) as [E1 _].
  destruct (saveSession_run name' (snd (saveSession name w))) as [E2 _].
  rewrite E2, E1. cbn [Storage.savedSessions Storage.latestGroups Storage.set_savedSessions].
  repeat split.
  - now rewrite <- app_assoc.
  - rewrite length_app. reflexivity.
Qed.

(** C7.  With no snapshot stored, or with the value the installation
    stores, [saveSession] returns a session with no groups, whose id is the
    decimal text of the clock reading, hence a string that is not empty,
    and the session is the last one of the stored list. *)
Theorem saveSession_without_snapshot (name : option string) (w : World H) :
  Storage.latestGroups (local w) = None
  \/ Storage.latestGroups (local w) = Some default_snapshot ->
  let session := fst (saveSession name w) in
  Session.groups session = []
  /\ Session.id session = Str.of_Z (fst (Date_now (host w)))
  /\ Session.id session <> EmptyString
  /\ exists earlier,
       Storage.savedSessions (local (snd (saveSession name w)))
       = Some (earlier ++ [session]).
Proof.
  intros Hnone. cbn zeta.
  destruct (saveSession_run name w) as [E1 [E2 E3]].
  repeat split.
  - rewrite E3. now destruct Hnone as [-> | ->].
  - assumption.
  - rewrite E2. apply of_Z_not_empty.
  - rewrite E1. eexists. reflexivity.
Qed.

(** Right after installation the stored snapshot is the default one. *)
Lemma onInstalled_default (w : World H) :
  Storage.latestGroups (local (snd (onInstalled w))) = Some default_snapshot.
Proof. reflexivity. Qed.

End Persistence.

Lemma saveSession_without_snapshot_witness :
  Session.groups (fst (saveSession (Some "Monday") (snd (onInstalled (Demo.world Demo.quiet)))))
  = []
  /\ Session.id (fst (saveSession (Some "Monday") (snd (onInstalled (Demo.world Demo.quiet)))))
     = "1000".
Proof.
  pose proof (saveSession_without_snapshot (H := Demo.State) (Some "Monday")
                (snd (onInstalled (Demo.world Demo.quiet)))
                (or_intror eq_refl)) as P.
  split; [exact (proj1 P) | exact (proj1 (proj2 P))].
Defined.

(** ** Re-linking the items of the model's answer *)

Lemma matches_not_null (item : JSValue) (s : Summary.t) :
  item <> JNull -> matches item s = Returns (item_matches item s).
Proof.
  intros Hn. unfold matches, item_matches.
  destruct item; try contradiction; cbn [Js.item_prop res_bind];
    destruct (Js.strict_eq_string (Summary.url s) _); reflexivity.
Qed.

Lemma find_pure {A} (f : A -> bool) (g : A -> js_result bool) (l : list A) :
  (forall x, g x = Returns (f x)) -> Js.find g l = Returns (List.find f l).
Proof.
  intros Hg. induction l as [|x l IH]; cbn; [reflexivity|].
  rewrite Hg. destruct (f x); [reflexivity | assumption].
Qed.

Lemma relink_null (summaries : list Summary.t) : relink summaries JNull = Throws.
Proof. destruct summaries; reflexivity. Qed.

(** What the callback of [v.map] gives for an item that is not [null]: the
    first input record with the item's url or title, else a fresh object
    with the item's own url, title and summary, [''] for each one that is
    missing or falsy. *)
Lemma relink_not_null (summaries : list Summary.t) (item : JSValue) :
  item <> JNull ->
  relink summaries item
  = Returns match List.find (item_matches item) summaries with
            | Some s => Original s
            | None =>
                Placeholder (Js.or_empty (Js.prop item "url"))
                  (Js.or_empty (Js.prop item "title"))
                  (Js.or_empty (Js.prop item "summary"))
            end.
Proof.
  intros Hn. unfold relink.
  rewrite (find_pure (item_matches item)) by (intros; now apply matches_not_null).
  cbn [res_bind]. destruct (List.find _ summaries); [reflexivity|].
  destruct item; try contradiction; reflexivity.
Qed.

Lemma relink_returns (summaries : list Summary.t) (item : JSValue) (e : GroupEntry) :
  relink summaries item = Returns e ->
  match List.find (item_matches item) summaries with
  | Some s => e = Original s
  | None =>
      e = Placeholder (Js.or_empty (Js.prop item "url"))
            (Js.or_empty (Js.prop item "title"))
            (Js.or_empty (Js.prop item "summary"))
  end.
Proof.
  destruct item eqn:E; try (rewrite relink_null; discriminate);
    (rewrite relink_not_null by discriminate; intros [= <-];
     now destruct (List.find _ summaries)).
Qed.

Lemma map_returns_In {A B} (f : A -> js_result B) (l : list A) :
  forall l' y, Js.map f l = Returns l' -> In y l' ->
    exists x, In x l /\ f x = Returns y.
Proof.
  induction l as [|x l IH]; cbn; intros l' y E Hin.
  - inversion E; subst. contradiction.
  - destruct (f x) as [y0|] eqn:Ex; [|discriminate].
    destruct (Js.map f l) as [ys|]; [|discriminate].
    inversion E; subst. destruct Hin as [<-|Hin].
    + exists x. auto.
    + destruct (IH ys y eq_refl Hin) as [x' [Hx' Ef]]. exists x'. auto.
Qed.

Lemma map_returns_length {A B} (f : A -> js_result B) (l : list A) :
  forall l', Js.map f l = Returns l' -> List.length l' = List.length l.
Proof.
  induction l as [|x l IH]; cbn; intros l' E.
  - now inversion E.
  - destruct (f x); [|discriminate].
    destruct (Js.map f l) as [ys|]; [|discriminate].
    inversion E; subst. cbn. now rewrite (IH ys).
Qed.

Section AssignFacts.

Context {A : Type}.

Lemma replace_In (o : Obj.t A) k v k' v' :
  In (k', v') (Obj.replace o k v) -> In (k', v') o \/ v' = v.
Proof.
  induction o as [|[k0 v0] o IH]; cbn; [tauto|].
  destruct (String.eqb k0 k); cbn; intros [E|Hin]; auto.
  - inversion E; auto.
  - destruct (IH Hin); auto.
Qed.

Lemma insert_new_In (o : Obj.t A) k v k' v' :
  In (k', v') (Obj.insert_new o k v) -> In (k', v') o \/ (k', v') = (k, v).
Proof.
  induction o as [|[k0 v0] o IH]; cbn.
  - intros [E|[]]. now right.
  - destruct (Obj.goes_before k k0); cbn; intros [E|Hin]; auto.
    destruct (IH Hin); auto.
Qed.

(** After [o[k] = v], a value of [o] is [v] or was there before. *)
Lemma assign_In (o : Obj.t A) k v k' v' :
  In (k', v') (Obj.assign o k v) -> In (k', v') o \/ v' = v.
Proof.
  unfold Obj.assign, Obj.define.
  destruct (String.eqb k "__proto__"); [auto|].
  destruct (Obj.has o k); intros Hin.
  - now apply replace_In in Hin.
  - apply insert_new_In in Hin. destruct Hin as [Hin|E]; auto.
    inversion E; auto.
Qed.

End AssignFacts.

(** Every list of [cleaned] was there before the loop or is the image of
    an array of the answer under [relink]. *)
Lemma clean_entries_In (summaries : list Summary.t) (es : list (string * JSValue)) :
  forall cleaned out k l,
    clean_entries summaries es cleaned = Returns out ->
    In (k, l) out ->
    In (k, l) cleaned
    \/ exists k0 items,
         In (k0, JArray items) es /\ Js.map (relink summaries) items = Returns l.
Proof.
  induction es as [|[k0 v] es IH]; cbn [clean_entries]; intros cleaned out k l E Hin.
  - inversion E; subst. now left.
  - assert (Hskip : forall c, clean_entries summaries es c = Returns out ->
                      In (k, l) c
                      \/ (exists k1 items, In (k1, JArray items) es
                                           /\ Js.map (relink summaries) items = Returns l) ->
                      In (k, l) c
                      \/ (exists k1 items, In (k1, JArray items) ((k0, v) :: es)
                                           /\ Js.map (relink summaries) items = Returns l)).
    { intros c _ [Hc|[k1 [items [H1 H2]]]]; [now left|].
      right. exists k1, items. split; [now right | assumption]. }
    destruct v as [| | | |items|];
      try (apply (Hskip cleaned E); now apply (IH cleaned out)).
    destruct (Js.map (relink summaries) items) as [l0|] eqn:Em; [|discriminate].
    destruct (IH _ out k l E Hin) as [Hc|[k1 [items1 [H1 H2]]]].
    + apply assign_In in Hc. destruct Hc as [Hc| ->]; [now left|].
      right. exists k0, items. split; [now left | assumption].
    + right. exists k1, items1. split; [now right | assumption].
Qed.


(** The two ways out of [groupSummaries]. *)
Lemma groupSummaries_cases {H : Type} `{Host H} (summaries : list Summary.t)
    (languageModel : option (LanguageModel H)) (w : World H) :
  fst (groupSummaries summaries languageModel w) = heuristicFallback summaries
  \/ exists m raw parsed groups,
       languageModel = Some m
       /\ fst (prompt m (grouping_prompt summaries) (host w)) = Returns raw
       /\ JSON.parse (strip_fences (response_text raw)) = Returns parsed
       /\ Js.prop parsed "groups" = Some groups
       /\ Js.is_object groups = true
       /\ clean_entries summaries (Js.entries groups) []
          = Returns (fst (groupSummaries summaries languageModel w))
       /\ fst (groupSummaries summaries languageModel w) <> [].
Proof.
  unfold groupSummaries. destruct languageModel as [m|]; [|now left].
  destruct (nonempty summaries); [|now left].
  unfold bind, call, ret.
  destruct (prompt m (grouping_prompt summaries) (host w)) as [raw h1] eqn:Ep.
  cbn [fst]. unfold groups_of_response.
  destruct raw as [raw|]; cbn [res_bind]; [|now left].
  destruct (JSON.parse _) as [parsed|] eqn:Ej; cbn [res_bind]; [|now left].
  unfold cleaned_groups.
  destruct (Js.truthy parsed); [|now left].
  destruct (Js.prop parsed "groups") as [groups|] eqn:Eg; [|now left].
  destruct (Js.truthy groups); cbn [andb]; [|now left].
  destruct (Js.is_object groups) eqn:Eo; [|now left].
  destruct (clean_entries summaries (Js.entries groups) []) as [cleaned|] eqn:Ec; [|now left].
  destruct cleaned as [|e cleaned]; cbn [nonempty Obj.keys List.map]; [now left|].
  right. exists m, raw, parsed, groups. cbn [fst]. repeat split; try assumption.
  - now rewrite Ep.
  - discriminate.
Qed.

(** An input record in a group is one of the records that were passed in. *)
Lemma groupSummaries_originals {H : Type} `{Host H} (summaries : list Summary.t)
    (languageModel : option (LanguageModel H)) (w : World H) k l s :
  In (k, l) (fst (groupSummaries summaries languageModel w)) ->
  In (Original s) l -> In s summaries.
Proof.
  intros Hin Hs.
  destruct (groupSummaries_cases summaries languageModel w)
    as [E|[m [raw [parsed [groups [_ [_ [_ [_ [_ [Ec _]]]]]]]]]]].
  - rewrite E, heuristicFallback_spec in Hin. apply spec_fallback_In in Hin.
    destruct Hin as [c [_ [-> _]]]. apply members_In in Hs.
    destruct Hs as [s' [E' [Hin' _]]]. now inversion E'; subst.
  - destruct (clean_entries_In _ _ _ _ _ _ Ec Hin) as [[]|[k0 [items [_ Em]]]].
    destruct (map_returns_In _ _ _ _ Em Hs) as [item [_ Er]].
    apply relink_returns in Er.
    destruct (List.find (item_matches item) summaries) as [s'|] eqn:Ef; [|discriminate].
    inversion Er; subst. now apply find_some in Ef.
Qed.

Section KeyedAssign.

Context {A : Type}.

Lemma replace_In_key (o : Obj.t A) k v k' v' :
  In (k', v') (Obj.replace o k v) -> In (k', v') o \/ (k' = k /\ v' = v).
Proof.
  induction o as [|[k0 v0] o IH]; cbn; [tauto|].
  destruct (String.eqb_spec k0 k) as [->|Hne]; cbn; intros [E|Hin]; auto.
  - inversion E; auto.
  - destruct (IH Hin) as [Ho|Hk]; auto.
Qed.

Lemma assign_In_key (o : Obj.t A) k v k' v' :
  In (k', v') (Obj.assign o k v) ->
  In (k', v') o \/ (k' = k /\ v' = v /\ k <> "__proto__").
Proof.
  unfold Obj.assign, Obj.define.
  destruct (String.eqb_spec k "__proto__") as [->|Hne]; [auto|].
  destruct (Obj.has o k); intros Hin.
  - apply replace_In_key in Hin. destruct Hin as [Hin|[-> ->]]; auto.
  - apply insert_new_In in Hin. destruct Hin as [Hin|E]; auto.
    inversion E; auto.
Qed.

End KeyedAssign.

(** A list of [cleaned] sits under the key of the answer's array it was made
    from. *)
Lemma clean_entries_In_key (summaries : list Summary.t) (es : list (string * JSValue)) :
  forall cleaned out k l,
    clean_entries summaries es cleaned = Returns out ->
    In (k, l) out ->
    In (k, l) cleaned
    \/ (k <> "__proto__"
        /\ exists items,
             In (k, JArray items) es /\ Js.map (relink summaries) items = Returns l).
Proof.
  induction es as [|[k0 v] es IH]; cbn [clean_entries]; intros cleaned out k l E Hin.
  - inversion E; subst. now left.
  - assert (Hlift : In (k, l) cleaned
                    \/ (k <> "__proto__"
                        /\ exists items, In (k, JArray items) es
                                         /\ Js.map (relink summaries) items = Returns l) ->
                    In (k, l) cleaned
                    \/ (k <> "__proto__"
                        /\ exists items, In (k, JArray items) ((k0, v) :: es)
                                         /\ Js.map (relink summaries) items = Returns l)).
    { intros [Hc|[Hk [items [H1 H2]]]]; [now left|].
      right. split; [assumption|]. exists items. split; [now right | assumption]. }
    destruct v as [| | | |items|]; try (apply Hlift; now apply (IH cleaned out)).
    destruct (Js.map (relink summaries) items) as [l0|] eqn:Em; [|discriminate].
    destruct (IH _ out k l E Hin) as [Hc|[Hk [items1 [H1 H2]]]].
    + apply assign_In_key in Hc. destruct Hc as [Hc|[-> [-> Hk]]]; [now left|].
      right. split; [assumption|]. exists items. split; [now left | assumption].
    + right. split; [assumption|]. exists items1. split; [now right | assumption].
Qed.

(** ** Objects read from JSON have distinct keys *)

Section DefineFacts.

Context {A : Type}.

Lemma replace_keys (o : Obj.t A) k v : map fst (Obj.replace o k v) = map fst o.
Proof.
  induction o as [|[k0 v0] o IH]; [reflexivity|]. cbn [Obj.replace].
  destruct (String.eqb k0 k); cbn; [reflexivity | now rewrite IH].
Qed.

Lemma insert_new_keys (o : Obj.t A) k v :
  Permutation (map fst (Obj.insert_new o k v)) (k :: map fst o).
Proof.
  induction o as [|[k0 v0] o IH]; [reflexivity|]. cbn [Obj.insert_new].
  destruct (Obj.goes_before k k0); cbn; [reflexivity|].
  rewrite IH. apply perm_swap.
Qed.

Lemma get_present (o : Obj.t A) k :
  Obj.get o k = None -> ~ In k (map fst o).
Proof.
  induction o as [|[k0 v0] o IH]; cbn; [tauto|].
  destruct (String.eqb_spec k0 k) as [->|Hne]; [discriminate|].
  intros E [E'|Hin]; [contradiction | now apply IH].
Qed.

Lemma define_keys_NoDup (o : Obj.t A) k v :
  NoDup (map fst o) -> NoDup (map fst (Obj.define o k v)).
Proof.
  intros Hnd. unfold Obj.define, Obj.has.
  destruct (Obj.get o k) eqn:E.
  - now rewrite replace_keys.
  - apply (Permutation_NoDup (l := k :: map fst o)).
    + symmetry. apply insert_new_keys.
    + constructor; [now apply get_present | assumption].
Qed.

Lemma define_values (P : A -> Prop) (o : Obj.t A) k v :
  Forall P (map snd o) -> P v -> Forall P (map snd (Obj.define o k v)).
Proof.
  intros Ho Hv. rewrite Forall_forall in *. intros x Hx.
  apply in_map_iff in Hx. destruct Hx as [[k' v'] [<- Hin]]. cbn [snd].
  assert (Hcase : In (k', v') o \/ v' = v).
  { unfold Obj.define in Hin. destruct (Obj.has o k).
    - now apply replace_In in Hin.
    - apply insert_new_In in Hin. destruct Hin as [Hin|E]; [now left|].
      inversion E; now right. }
  destruct Hcase as [Hin'| ->]; [|assumption].
  apply Ho. apply in_map_iff. now exists (k', v').
Qed.

(** After [o[k] = v] for a key other than "__proto__", [o] holds [v] under
    [k]. *)
Lemma replace_has (o : Obj.t A) k v :
  In k (map fst o) -> In (k, v) (Obj.replace o k v).
Proof.
  induction o as [|[k0 v0] o IH]; cbn; [tauto|].
  destruct (String.eqb_spec k0 k) as [->|Hne]; cbn.
  - intros _. now left.
  - intros [E|Hin]; [contradiction|]. right. now apply IH.
Qed.

Lemma insert_new_has (o : Obj.t A) k v : In (k, v) (Obj.insert_new o k v).
Proof.
  induction o as [|[k0 v0] o IH]; cbn; [now left|].
  destruct (Obj.goes_before k k0); cbn; [now left | now right].
Qed.

Lemma get_some_key (o : Obj.t A) k x : Obj.get o k = Some x -> In k (map fst o).
Proof.
  induction o as [|[k0 v0] o IH]; cbn; [discriminate|].
  destruct (String.eqb_spec k0 k) as [->|Hne]; [now left|].
  intros E. right. now apply IH.
Qed.

Lemma assign_has (o : Obj.t A) k v :
  k <> "__proto__" -> In (k, v) (Obj.assign o k v).
Proof.
  intros Hk. unfold Obj.assign, Obj.define, Obj.has.
  destruct (String.eqb_spec k "__proto__") as [E|_]; [contradiction|].
  destruct (Obj.get o k) eqn:E.
  - apply replace_has. now apply get_some_key in E.
  - apply insert_new_has.
Qed.

Lemma replace_other (o : Obj.t A) k v k' v' :
  k' <> k -> In (k', v') o -> In (k', v') (Obj.replace o k v).
Proof.
  intros Hk. induction o as [|[k0 v0] o IH]; cbn; [tauto|].
  destruct (String.eqb_spec k0 k) as [->|Hne]; cbn.
  - intros [E|Hin]; [inversion E; subst; contradiction | now right].
  - intros [E|Hin]; [now left | right; now apply IH].
Qed.

Lemma insert_new_other (o : Obj.t A) k v k' v' :
  In (k', v') o -> In (k', v') (Obj.insert_new o k v).
Proof.
  induction o as [|[k0 v0] o IH]; cbn; [tauto|].
  destruct (Obj.goes_before k k0); cbn; [tauto|].
  intros [E|Hin]; [now left | right; now apply IH].
Qed.

(** [o[k] = v] leaves what [o] holds under another key. *)
Lemma assign_other (o : Obj.t A) k v k' v' :
  k' <> k -> In (k', v') o -> In (k', v') (Obj.assign o k v).
Proof.
  intros Hk Hin. unfold Obj.assign, Obj.define.
  destruct (String.eqb k "__proto__"); [assumption|].
  destruct (Obj.has o k); [now apply replace_other | now apply insert_new_other].
Qed.

End DefineFacts.

Lemma parse_number_plain (s : string) (v : JSValue) (r : string) :
  JSON.parse_number s = Some (v, r) -> keys_unique_twice v.
Proof.
  unfold JSON.parse_number.
  destruct (match s with String "-" r0 => (true, r0) | _ => (false, s) end) as [neg s1].
  destruct (JSON.parse_int s1) as [[i s2]|]; [|discriminate].
  destruct (JSON.parse_frac s2) as [[f s3]|]; [|discriminate].
  destruct (JSON.parse_exp s3) as [[e s4]|]; [|discriminate].
  intros [= <- _]. exact I.
Qed.

Lemma keys_unique_twice_once (v : JSValue) : keys_unique_twice v -> keys_unique v.
Proof. destruct v; cbn; tauto. Qed.

Ltac one_char c :=
  destruct c as [[] [] [] [] [] [] [] []]; try discriminate.

Lemma parse_keys_unique (fuel : nat) :
  (forall s v r, JSON.parse_value fuel s = Some (v, r) -> keys_unique_twice v)
  /\ (forall acc s v r, JSON.parse_elements fuel acc s = Some (v, r) -> keys_unique_twice v)
  /\ (forall acc s v r,
        JSON.parse_members fuel acc s = Some (v, r) ->
        keys_unique_twice (JObject acc) -> keys_unique_twice v).
Proof.
  induction fuel as [|fuel [IHv [IHe IHm]]]; [repeat split; intros; discriminate|].
  split; [|split].
  - intros s v r. cbn [JSON.parse_value].
    destruct (JSON.skip_ws s) as [|c t]; [discriminate|].
    destruct (Ascii.eqb c "{").
    { destruct (JSON.skip_ws t) as [|c' t'] eqn:Et.
      - intros E. apply (IHm _ _ _ _ E). cbn. split; constructor.
      - assert (Hcase : (Some (v, r) = Some (JObject [], t') -> keys_unique_twice v)
                        /\ (JSON.parse_members fuel [] t = Some (v, r) -> keys_unique_twice v)).
        { split.
          - intros [= -> _]. cbn. split; constructor.
          - intros E. apply (IHm _ _ _ _ E). cbn. split; constructor. }
        destruct Hcase as [H1 H2].
        destruct c' as [[] [] [] [] [] [] [] []]; intros E;
          first [ now apply H2 | apply H1; now symmetry ]. }
    destruct (Ascii.eqb c "[").
    { destruct (JSON.skip_ws t) as [|c' t'] eqn:Et.
      - apply IHe.
      - assert (H1 : Some (JArray [], t') = Some (v, r) -> keys_unique_twice v)
          by (intros [= <- _]; exact I).
        destruct c' as [[] [] [] [] [] [] [] []]; intros E;
          first [ now apply (IHe _ _ _ _ E) | now apply H1 ]. }
    destruct (Ascii.eqb c JSON.dquote).
    { destruct (JSON.parse_chars _ t) as [[x rest]|]; [|discriminate].
      intros [= <- _]. exact I. }
    destruct (Str.startsWith _ "true"); [intros [= <- _]; exact I|].
    destruct (Str.startsWith _ "false"); [intros [= <- _]; exact I|].
    destruct (Str.startsWith _ "null"); [intros [= <- _]; exact I|].
    apply parse_number_plain.
  - intros acc s v r. cbn [JSON.parse_elements].
    destruct (JSON.parse_value fuel s) as [[x t]|]; [|discriminate].
    destruct (JSON.skip_ws t) as [|c' t']; [discriminate|].
    assert (H1 : Some (JArray (acc ++ [x]), t') = Some (v, r) -> keys_unique_twice v)
      by (intros [= <- _]; exact I).
    destruct c' as [[] [] [] [] [] [] [] []]; intros E;
      first [ discriminate E | now apply (IHe _ _ _ _ E) | now apply H1 ].
  - intros acc s v r. cbn [JSON.parse_members].
    destruct (JSON.skip_ws s) as [|c t]; [discriminate|].
    destruct (Ascii.eqb c JSON.dquote); [|discriminate].
    destruct (JSON.parse_chars _ t) as [[k r1]|]; [|discriminate].
    destruct (JSON.skip_ws r1) as [|c1 r2]; [discriminate|].
    one_char c1.
    destruct (JSON.parse_value fuel r2) as [[x r3]|] eqn:Ex; [|discriminate].
    apply IHv in Ex.
    destruct (JSON.skip_ws r3) as [|c3 r4]; [discriminate|].
    intros E [Hnd Hvals].
    assert (Hacc : keys_unique_twice (JObject (Obj.define acc k x))).
    { split; [now apply define_keys_NoDup|].
      apply define_values; [assumption | now apply keys_unique_twice_once]. }
    assert (H1 : Some (JObject (Obj.define acc k x), r4) = Some (v, r) -> keys_unique_twice v)
      by (intros [= <- _]; exact Hacc).
    destruct c3 as [[] [] [] [] [] [] [] []];
      first [ discriminate E | now apply (IHm _ _ _ _ E) | now apply H1 ].
Qed.

Lemma indexed_keys (items : list JSValue) :
  forall i k, In k (map fst (Js.indexed i items)) -> exists n, (i <= n)%Z /\ k = Str.of_Z n.
Proof.
  induction items as [|x items IH]; cbn; intros i k; [tauto|].
  intros [<-|Hin].
  - exists i. split; [lia | reflexivity].
  - destruct (IH _ _ Hin) as [n [Hn ->]]. exists n. split; [lia | reflexivity].
Qed.

Lemma indexed_NoDup (items : list JSValue) :
  forall i, NoDup (map fst (Js.indexed i items)).
Proof.
  induction items as [|x items IH]; cbn; intros i; constructor; [|apply IH].
  intros Hin. apply indexed_keys in Hin. destruct Hin as [n [Hn E]].
  apply of_Z_inj in E. lia.
Qed.

Lemma get_In {A} (o : Obj.t A) k x : Obj.get o k = Some x -> In (k, x) o.
Proof.
  induction o as [|[k0 v0] o IH]; cbn; [discriminate|].
  destruct (String.eqb_spec k0 k) as [->|Hne].
  - intros [= ->]. now left.
  - intros E. right. now apply IH.
Qed.

(** The entries of a property of what [JSON.parse] returns have distinct
    keys. *)
Lemma parsed_entries_NoDup (text : string) (parsed groups : JSValue) (k : string) :
  JSON.parse text = Returns parsed ->
  Js.prop parsed k = Some groups ->
  NoDup (map fst (Js.entries groups)).
Proof.
  unfold JSON.parse.
  destruct (JSON.parse_value _ text) as [[v rest]|] eqn:Ev; [|discriminate].
  destruct (JSON.skip_ws rest); [|discriminate].
  intros [= <-] Eg.
  apply (proj1 (parse_keys_unique _)) in Ev.
  destruct v as [| | | | |props]; try discriminate. cbn in Eg, Ev.
  destruct Ev as [_ Hvals]. rewrite Forall_forall in Hvals.
  assert (Hg : keys_unique groups).
  { apply Hvals. apply get_In in Eg. apply in_map_iff. now exists (k, groups). }
  destruct groups; cbn; try constructor; [apply indexed_NoDup | exact Hg].
Qed.

Lemma map_relink (summaries : list Summary.t) (items : list JSValue) :
  forall l, Js.map (relink summaries) items = Returns l ->
    l = map (kept_entry summaries) items.
Proof.
  induction items as [|item items IH]; cbn; intros l E.
  - now inversion E.
  - destruct (relink summaries item) as [e|] eqn:Er; [|discriminate].
    destruct (Js.map (relink summaries) items) as [es|]; [|discriminate].
    inversion E; subst. rewrite (IH es eq_refl). f_equal.
    apply relink_returns in Er. unfold kept_entry.
    now destruct (List.find (item_matches item) summaries).
Qed.

(** What [cleaned] holds under a key that the rest of the answer does not
    use stays. *)
Lemma clean_entries_preserves (summaries : list Summary.t) (es : list (string * JSValue))
    k (l : list GroupEntry) :
  ~ In k (map fst es) ->
  forall cleaned out,
    clean_entries summaries es cleaned = Returns out ->
    In (k, l) cleaned -> In (k, l) out.
Proof.
  induction es as [|[k0 v] es IH]; cbn [clean_entries]; intros Hk cleaned out E Hin.
  - now inversion E; subst.
  - cbn in Hk.
    assert (Hrest : ~ In k (map fst es)) by tauto.
    destruct v as [| | | |items|]; try (now apply (IH Hrest cleaned out)).
    destruct (Js.map (relink summaries) items) as [l0|]; [|discriminate].
    apply (IH Hrest _ out E). apply assign_other; [|assumption].
    intros ->. tauto.
Qed.

(** Every array of the answer under a key that [cleaned] can hold is in
    [cleaned], item by item. *)
Lemma clean_entries_keeps (summaries : list Summary.t) (es : list (string * JSValue)) :
  NoDup (map fst es) ->
  forall cleaned out k items,
    clean_entries summaries es cleaned = Returns out ->
    In (k, JArray items) es -> k <> "__proto__" ->
    In (k, map (kept_entry summaries) items) out.
Proof.
  induction es as [|[k0 v] es IH]; cbn [clean_entries]; intros Hnd cleaned out k items E Hin Hk;
    [contradiction|].
  cbn in Hnd. inversion Hnd as [|? ? Hnotin Hrest]; subst.
  destruct Hin as [Ehead|Hin].
  - inversion Ehead; subst.
    destruct (Js.map (relink summaries) items) as [l0|] eqn:Em; [|discriminate].
    apply map_relink in Em. subst l0.
    apply (clean_entries_preserves summaries es k _ Hnotin _ out E).
    now apply assign_has.
  - destruct v as [| | | |items0|]; try (now apply (IH Hrest cleaned out)).
    destruct (Js.map (relink summaries) items0) as [l0|]; [|discriminate].
    exact (IH Hrest _ out k items E Hin Hk).
Qed.

Lemma map_relink_returns (summaries : list Summary.t) (items : list JSValue) :
  ~ In JNull items ->
  Js.map (relink summaries) items = Returns (map (kept_entry summaries) items).
Proof.
  induction items as [|item items IH]; cbn [Js.map map]; intros Hn; [reflexivity|].
  assert (Hitem : item <> JNull) by (intros ->; apply Hn; now left).
  rewrite (relink_not_null summaries item Hitem).
  rewrite IH by (intros Hin; apply Hn; now right). reflexivity.
Qed.

(** Without a [null] among the items, the loop over the answer runs to its
    end. *)
Lemma clean_entries_returns (summaries : list Summary.t) (es : list (string * JSValue)) :
  (forall k items, In (k, JArray items) es -> ~ In JNull items) ->
  forall cleaned, exists out, clean_entries summaries es cleaned = Returns out.
Proof.
  induction es as [|[k0 v] es IH]; cbn [clean_entries]; intros Hn cleaned.
  - now exists cleaned.
  - assert (Hrest : forall k items, In (k, JArray items) es -> ~ In JNull items)
      by (intros k items Hin; apply (Hn k items); now right).
    destruct v as [| | | |items|]; try apply (IH Hrest).
    rewrite (map_relink_returns summaries items) by (apply (Hn k0); now left).
    apply (IH Hrest).
Qed.

Lemma clean_entries_holds_answer (summaries : list Summary.t) (groups : JSValue)
    (out : Groups) :
  NoDup (map fst (Js.entries groups)) ->
  clean_entries summaries (Js.entries groups) [] = Returns out ->
  holds_answer summaries groups out.
Proof.
  intros Hnd Ec k l. split.
  - intros Hin.
    destruct (clean_entries_In_key _ _ _ _ _ _ Ec Hin) as [[]|[Hk [items [Hi Hm]]]].
    split; [assumption|]. exists items. split; [assumption|].
    now apply map_relink in Hm.
  - intros [Hk [items [Hi ->]]].
    apply (clean_entries_keeps summaries (Js.entries groups) Hnd [] _ k items Ec Hi Hk).
Qed.

(** ** The AI-driven path *)

Section AIPath.

Context {H : Type} `{Host H}.

(** The AI path is taken when the model's answer reads as an object whose
    [groups] hold an array under a usable key, and no item is [null]. *)
Lemma groupSummaries_answer (summaries : list Summary.t) (m : LanguageModel H)
    (w : World H) (raw : PromptResult) (parsed groups : JSValue) :
  summaries <> [] ->
  fst (prompt m (grouping_prompt summaries) (host w)) = Returns raw ->
  JSON.parse (strip_fences (response_text raw)) = Returns parsed ->
  Js.prop parsed "groups" = Some groups ->
  Js.is_object groups = true ->
  (forall k items, In (k, JArray items) (Js.entries groups) -> ~ In JNull items) ->
  (exists k items, In (k, JArray items) (Js.entries groups) /\ k <> "__proto__") ->
  clean_entries summaries (Js.entries groups) []
  = Returns (fst (groupSummaries summaries (Some m) w)).
Proof.
  intros Hne Ep Ej Eg Eo Hnull [k [items [Hi Hk]]]. unfold groupSummaries.
  destruct summaries as [|s0 rest] eqn:Es; [contradiction|]. cbn [nonempty].
  rewrite <- Es in *. unfold bind, call, ret.
  destruct (prompt m (grouping_prompt summaries) (host w)) as [r h1]. cbn [fst] in Ep.
  subst r. unfold groups_of_response. cbn [res_bind]. rewrite Ej. cbn [res_bind].
  unfold cleaned_groups. rewrite Eg.
  assert (Etp : Js.truthy parsed = true) by (destruct parsed; try discriminate; reflexivity).
  assert (Etg : Js.truthy groups = true) by (destruct groups; try discriminate; reflexivity).
  rewrite Etp, Etg, Eo. cbn [andb].
  destruct (clean_entries_returns summaries (Js.entries groups) Hnull []) as [out Ec].
  rewrite Ec.
  assert (Hin : In (k, map (kept_entry summaries) items) out).
  { apply (clean_entries_keeps summaries (Js.entries groups)
             (parsed_entries_NoDup _ _ _ _ Ej Eg) [] _ k items Ec Hi Hk). }
  destruct out as [|e out]; [contradiction|]. reflexivity.
Qed.

(** C1, as the code has it.  An item of the answer is replaced by the
    first input record with its url or its title; an item that matches no
    input record is kept, as a fresh record whose tabId is null, whose
    favIconUrl is empty and whose url, title and summary are the item's
    own.  So every record of every group that [groupSummaries] returns is
    an input record, unchanged, or such a record without a tab.  When
    [groupSummaries] does not fall back, its groups are exactly the arrays
    that the answer's [groups] holds under a key other than "__proto__",
    each with one record for every item of the array, in order: no item
    is discarded.  And it does not fall back when the answer reads as an
    object whose [groups] hold an array under such a key and no item is
    [null]. *)
Theorem answer_items_relinked_or_kept (summaries : list Summary.t)
    (languageModel : option (LanguageModel H)) (w : World H) :
  (forall item e, relink summaries item = Returns e ->
     e = kept_entry summaries item
     /\ match List.find (item_matches item) summaries with
        | Some s => e = Original s /\ In s summaries /\ item_matches item s = true
        | None =>
            e = Placeholder (Js.or_empty (Js.prop item "url"))
                  (Js.or_empty (Js.prop item "title"))
                  (Js.or_empty (Js.prop item "summary"))
            /\ entry_tabId e = None /\ entry_favIconUrl e = EmptyString
        end)
  /\ (forall k l e,
        In (k, l) (fst (groupSummaries summaries languageModel w)) -> In e l ->
        (exists s, e = Original s /\ In s summaries)
        \/ (exists item,
              relink summaries item = Returns e
              /\ List.find (item_matches item) summaries = None
              /\ entry_tabId e = None))
  /\ (fst (groupSummaries summaries languageModel w) = heuristicFallback summaries
      \/ exists m raw parsed groups,
           languageModel = Some m
           /\ fst (prompt m (grouping_prompt summaries) (host w)) = Returns raw
           /\ JSON.parse (strip_fences (response_text raw)) = Returns parsed
           /\ Js.prop parsed "groups" = Some groups
           /\ holds_answer summaries groups (fst (groupSummaries summaries languageModel w)))
  /\ (forall m raw parsed groups,
        languageModel = Some m ->
        summaries <> [] ->
        fst (prompt m (grouping_prompt summaries) (host w)) = Returns raw ->
        JSON.parse (strip_fences (response_text raw)) = Returns parsed ->
        Js.prop parsed "groups" = Some groups ->
        Js.is_object groups = true ->
        (forall k items, In (k, JArray items) (Js.entries groups) -> ~ In JNull items) ->
        (exists k items, In (k, JArray items) (Js.entries groups) /\ k <> "__proto__") ->
        holds_answer summaries groups (fst (groupSummaries summaries languageModel w))).
Proof.
  split; [|split; [|split]].
  - intros item e Er. apply relink_returns in Er. unfold kept_entry.
    destruct (List.find (item_matches item) summaries) as [s|] eqn:Ef.
    + apply find_some in Ef. tauto.
    + subst e. repeat split.
  - intros k l e Hin He.
    destruct (groupSummaries_cases summaries languageModel w)
      as [E|[m [raw [parsed [groups [_ [_ [_ [_ [_ [Ec _]]]]]]]]]]].
    + rewrite E, heuristicFallback_spec in Hin. apply spec_fallback_In in Hin.
      destruct Hin as [c [_ [-> _]]]. apply members_In in He.
      destruct He as [s [-> [Hs _]]]. left. eauto.
    + destruct (clean_entries_In _ _ _ _ _ _ Ec Hin) as [[]|[k0 [items [_ Em]]]].
      destruct (map_returns_In _ _ _ _ Em He) as [item [_ Er]].
      pose proof (relink_returns _ _ _ Er) as Hr.
      destruct (List.find (item_matches item) summaries) as [s|] eqn:Ef.
      * left. exists s. split; [assumption|]. now apply find_some in Ef.
      * right. exists item. subst e. repeat split; assumption.
  - destruct (groupSummaries_cases summaries languageModel w)
      as [E|[m [raw [parsed [groups [Em [Ep [Ej [Eg [_ [Ec _]]]]]]]]]]]; [now left|].
    right. exists m, raw, parsed, groups.
    split; [assumption|]. split; [assumption|]. split; [assumption|].
    split; [assumption|].
    exact (clean_entries_holds_answer summaries groups _
             (parsed_entries_NoDup _ _ _ _ Ej Eg) Ec).
  - intros m raw parsed groups -> Hne Ep Ej Eg Eo Hnull Hkey.
    exact (clean_entries_holds_answer summaries groups _
             (parsed_entries_NoDup _ _ _ _ Ej Eg)
             (groupSummaries_answer summaries m w raw parsed groups
                Hne Ep Ej Eg Eo Hnull Hkey)).
Qed.


End AIPath.

(** C1, as stated, fails: the item for a page that was never open stays in
    its group, with no tabId. *)
Lemma unmatched_item_is_kept :
  ~ relinked_to_inputs [alpha_record]
      (fst (groupSummaries [alpha_record] (Some (Demo.the_model (Returns answer_with_stranger)))
              (Demo.world Demo.quiet))).
Proof.
  intros Hc.
  destruct (Hc "Research"
              [Original alpha_record;
               Placeholder (JString "https://b.example/") (JString "Beta") (JString EmptyString)]
              (Placeholder (JString "https://b.example/") (JString "Beta") (JString EmptyString)))
    as [s [_ [Ht _]]].
  - vm_compute. left. reflexivity.
  - right. left. reflexivity.
  - discriminate Ht.
Qed.

Lemma answer_items_relinked_or_kept_witness :
  In ("Research",
      [Original alpha_record;
       Placeholder (JString "https://b.example/") (JString "Beta") (JString EmptyString)])
     (fst (groupSummaries [alpha_record]
             (Some (Demo.the_model (Returns answer_with_stranger)))
             (Demo.world Demo.quiet))).
Proof.
  pose (items := [JObject [("title", JString "Alpha"); ("url", JString "https://a.example/")];
                  JObject [("title", JString "Beta"); ("url", JString "https://b.example/")]]).
  pose (groups := JObject [("Research", JArray items)]).
  apply (proj2 (proj2 (proj2 (answer_items_relinked_or_kept (H := Demo.State)
                                [alpha_record]
                                (Some (Demo.the_model (Returns answer_with_stranger)))
                                (Demo.world Demo.quiet))))
           (Demo.the_model (Returns answer_with_stranger)) answer_with_stranger
           (JObject [("groups", groups)]) groups).
  - reflexivity.
  - discriminate.
  - reflexivity.
  - vm_compute. reflexivity.
  - reflexivity.
  - reflexivity.
  - intros k its [E|[]] Hnull. injection E as <- <-.
    destruct Hnull as [E|[E|[]]]; discriminate E.
  - exists "Research", items. split; [left; reflexivity | discriminate].
  - split; [discriminate|]. exists items. split; [left; reflexivity | reflexivity].
Defined.

(** C2 at an answer that lists an empty category: the AI path returns it as
    it is, where the fallback path would have dropped it. *)
Theorem empty_category_survives_ai_path :
  fst (groupSummaries [alpha_record]
         (Some (Demo.the_model (Returns answer_with_empty_category)))
         (Demo.world Demo.quiet))
  = [("Research", [Original alpha_record]); ("Shopping", [])]
  /\ ~ no_empty_category
         (fst (groupSummaries [alpha_record]
                 (Some (Demo.the_model (Returns answer_with_empty_category)))
                 (Demo.world Demo.quiet))).
Proof.
  assert (E : fst (groupSummaries [alpha_record]
                     (Some (Demo.the_model (Returns answer_with_empty_category)))
                     (Demo.world Demo.quiet))
              = [("Research", [Original alpha_record]); ("Shopping", [])])
    by (vm_compute; reflexivity).
  split; [assumption|]. rewrite E. intros Hc.
  destruct (Hc "Shopping" []) as [_ Hne]; [right; left; reflexivity|].
  now apply Hne.
Qed.


(** ** Summaries *)

Section Summaries.

Context {H : Type} `{Host H}.

(** C8.  [summarizeTab] asks the summarizer first, the language model
    next, and falls back on the title last.  With neither capability it
    returns "Summary for " and the title, "Untitled" for a tab without
    one, and touches nothing.  A summarizer that returns text for a page
    that could be read decides the result, whatever the language model;
    when the summarizer stage gives nothing the call goes on as if there
    were no summarizer; a language model that returns text gives that text
    trimmed; and when its stage gives nothing the title fallback is
    returned. *)
Theorem summarizeTab_tries_in_order (tab : Tab.t) (w : World H) :
  summarizeTab tab None None w = ("Summary for " ++ tabTitle tab, w)
  /\ tabTitle tab
     = match Tab.title tab with
       | Some t => if String.eqb t EmptyString then "Untitled" else t
       | None => "Untitled"
       end
  /\ (forall (s : Summarizer H) (languageModel : option (LanguageModel H))
             document h1 r h2,
        chrome_scripting_executeScript (Tab.id tab) (host w) = (Returns document, h1) ->
        Str.truthy (Str.slice_to 12000 (collect document)) = true ->
        summarize s
          ("Title: " ++ tabTitle tab ++ nl ++ nl ++ Str.slice_to 12000 (collect document)) h1
        = (Returns (SummaryText r), h2) ->
        summarizeTab tab (Some s) languageModel w = (r, mkWorld h2 (local w)))
  /\ (forall (s : Summarizer H) (languageModel : option (LanguageModel H)) w1,
        summarizeWithSummarizer tab s w = (None, w1) ->
        summarizeTab tab (Some s) languageModel w = summarizeTab tab None languageModel w1)
  /\ (forall (m : LanguageModel H) content w1 r h2,
        fetchTabTextContent (Tab.id tab) w = (content, w1) ->
        prompt m
          ("Summarize in one concise sentence for a tab dashboard. Title: "
           ++ dq (tabTitle tab) ++ ". Content:" ++ nl ++ nl ++ Str.slice_to 6000 content)
          (host w1)
        = (Returns (PromptText r), h2) ->
        summarizeTab tab None (Some m) w = (Str.trim r, mkWorld h2 (local w1)))
  /\ (forall (m : LanguageModel H) w1,
        summarizeWithLanguageModel tab m w = (None, w1) ->
        summarizeTab tab None (Some m) w = ("Summary for " ++ tabTitle tab, w1)).
Proof.
  split; [reflexivity|]. split; [|split; [|split; [|split]]].
  - unfold tabTitle, Str.or_default, Str.truthy.
    destruct (Tab.title tab) as [t|]; [|reflexivity].
    now destruct (String.eqb t EmptyString).
  - intros s languageModel document h1 r h2 Hdoc Htext Hsum.
    unfold summarizeTab, summarizeWithSummarizer, fetchTabTextContent, bind, call, ret.
    rewrite Hdoc. cbn [host local]. rewrite Htext.
    cbn [host local]. rewrite Hsum. reflexivity.
  - intros s languageModel w1 Hnone.
    unfold summarizeTab, bind. rewrite Hnone. reflexivity.
  - intros m content w1 r h2 Hfetch Hprompt.
    unfold summarizeTab, summarizeWithLanguageModel, bind, call, ret.
    rewrite Hfetch, Hprompt. reflexivity.
  - intros m w1 Hnone.
    unfold summarizeTab, bind, ret. rewrite Hnone. reflexivity.
Qed.

End Summaries.

Lemma summarizeTab_tries_in_order_witness :
  summarizeTab (Demo.tab 1 "https://a.example/" "Alpha")
    (Some (Demo.the_summarizer (Returns (SummaryText "A page about alpha."))))
    (Some (Demo.the_model (Returns (PromptText "never asked"))))
    (Demo.world reading_host)
  = ("A page about alpha.", Demo.world reading_host).
Proof.
  apply (proj1 (proj2 (proj2
           (summarizeTab_tries_in_order (H := Demo.State)
              (Demo.tab 1 "https://a.example/" "Alpha") (Demo.world reading_host))))
           (Demo.the_summarizer (Returns (SummaryText "A page about alpha.")))
           (Some (Demo.the_model (Returns (PromptText "never asked"))))
           (Document.mk "Alpha" None (Some "All about alpha."))
           reading_host "A page about alpha." reading_host).
  - reflexivity.
  - vm_compute. reflexivity.
  - reflexivity.
Defined.

(** ** Which tabs are processed *)

Section Processing.

Context {H : Type} `{Host H}.

Local Open Scope list_scope.

Lemma Forall2_In_right {A B} (R : A -> B -> Prop) (l1 : list A) (l2 : list B) (y : B) :
  Forall2 R l1 l2 -> In y l2 -> exists x, In x l1 /\ R x y.
Proof.
  induction 1 as [|x y0 l1 l2 Hxy _ IH]; cbn; [contradiction|].
  intros [<-|Hin].
  - exists x. auto.
  - destruct (IH Hin) as [x' [Hx' Hr]]. exists x'. auto.
Qed.

Lemma skipped_iff (tab : Tab.t) :
  skipped tab = true <->
  (Tab.id tab = None \/ Tab.id tab = Some 0%Z
   \/ Tab.pendingUrl tab = Some "chrome://newtab/"
   \/ exists u, Tab.url tab = Some u /\ Str.startsWith u "chrome://" = true).
Proof.
  unfold skipped. rewrite !orb_true_iff. split.
  - intros [[Hid|Hp]|Hu].
    + destruct (Tab.id tab) as [i|]; [|now left].
      apply Z.eqb_eq in Hid. subst. right. now left.
    + destruct (Tab.pendingUrl tab) as [p|]; [|discriminate].
      apply String.eqb_eq in Hp. subst. right. right. now left.
    + destruct (Tab.url tab) as [u|]; [|discriminate].
      right. right. right. now exists u.
  - intros [E|[E|[E|[u [E Hu]]]]]; rewrite E; auto.
Qed.

(** The loop adds, behind the records it starts from, one record for each
    tab it does not skip, in tab order. *)
Lemma summarizeTabs_records (summarizer : option (Summarizer H))
    (languageModel : option (LanguageModel H)) (tabs : list Tab.t) :
  forall acc w0,
    exists rest,
      fst (summarizeTabs tabs summarizer languageModel acc w0) = acc ++ rest
      /\ Forall2 (fun tab s => exists summary, s = summary_record tab summary)
           (filter (fun tab => negb (skipped tab)) tabs) rest.
Proof.
  induction tabs as [|tab rest IH]; intros acc w0; cbn [summarizeTabs filter].
  - exists []. split; [now rewrite app_nil_r | constructor].
  - destruct (skipped tab); cbn [negb]; [apply IH|].
    unfold bind. destruct (summarizeTab tab summarizer languageModel w0) as [summary w1].
    destruct (IH (acc ++ [summary_record tab summary]) w1) as [more [E Hall]].
    exists (summary_record tab summary :: more). split.
    + rewrite E. now rewrite <- app_assoc.
    + constructor; [now exists summary | assumption].
Qed.

Lemma processTabsAndStore_groups (w : World H) :
  exists summarizer languageModel w3 w4,
    Snapshot.groups (fst (processTabsAndStore w))
    = fst (groupSummaries
             (fst (summarizeTabs (fst (chrome_tabs_query (host w)))
                     summarizer languageModel [] w3))
             languageModel w4).
Proof.
  unfold processTabsAndStore, bind, fetchAllTabs.
  unfold call at 1. destruct (chrome_tabs_query (host w)) as [tabs h1]. cbn [fst].
  destruct (tryCreateSummarizer _) as [summarizer w2].
  destruct (tryCreateLanguageModel w2) as [languageModel w3].
  destruct (summarizeTabs tabs summarizer languageModel [] w3) as [summaries w4] eqn:E4.
  destruct (groupSummaries summaries languageModel w4) as [grouped w5] eqn:E5.
  destruct (call Date_now w5) as [now w6]. cbn.
  exists summarizer, languageModel, w3, w4. rewrite E4. cbn [fst]. now rewrite E5.
Qed.

(** C9, as the code has it.  A tab is left out when its id is missing or
    is 0, when its pendingUrl is the new-tab page, or when its url starts
    with "chrome://"; every other tab gives exactly one summary record, in
    tab order, with its id, url and title; an input record found in a
    group of the snapshot is the record of a tab that was not left out;
    and that snapshot is the one stored. *)
Theorem processing_skips_tabs (w : World H) :
  (forall tab,
     skipped tab = true <->
     (Tab.id tab = None \/ Tab.id tab = Some 0%Z
      \/ Tab.pendingUrl tab = Some "chrome://newtab/"
      \/ exists u, Tab.url tab = Some u /\ Str.startsWith u "chrome://" = true))
  /\ (forall tabs summarizer languageModel (w0 : World H),
        Forall2 (fun tab s => exists summary, s = summary_record tab summary)
          (filter (fun tab => negb (skipped tab)) tabs)
          (fst (summarizeTabs tabs summarizer languageModel [] w0)))
  /\ (forall k l s,
        In (k, l) (Snapshot.groups (fst (processTabsAndStore w))) ->
        In (Original s) l ->
        exists tab summary,
          In tab (fst (chrome_tabs_query (host w)))
          /\ skipped tab = false /\ s = summary_record tab summary)
  /\ Storage.latestGroups (local (snd (processTabsAndStore w)))
     = Some (fst (processTabsAndStore w)).
Proof.
  split; [apply skipped_iff|]. split; [|split].
  - intros tabs summarizer languageModel w0.
    destruct (summarizeTabs_records summarizer languageModel tabs [] w0) as [rest [E Hall]].
    now rewrite E.
  - intros k l s Hin Hs.
    destruct (processTabsAndStore_groups w) as [summarizer [languageModel [w3 [w4 E]]]].
    rewrite E in Hin. apply (groupSummaries_originals _ _ _ _ _ _ Hin) in Hs.
    destruct (summarizeTabs_records summarizer languageModel
                (fst (chrome_tabs_query (host w))) [] w3) as [rest [Er Hall]].
    rewrite Er in Hs. cbn [app] in Hs.
    destruct (Forall2_In_right _ _ _ _ Hall Hs) as [tab [Hin' [summary Hrec]]].
    apply filter_In in Hin'. destruct Hin' as [Htab Hkeep].
    exists tab, summary. repeat split; try assumption.
    now destruct (skipped tab).
  - destruct processTabsAndStore_run as [F HF]. now rewrite HF.
Qed.

End Processing.

(** C9, as stated, fails: a tab whose id is 0 has an id, is not on the
    new-tab page and shows no browser page, yet it gives no summary record. *)
Lemma tab_with_id_zero_is_skipped :
  ~ one_record_per_unexcluded_tab [zero_tab]
      (fst (summarizeTabs [zero_tab] None None [] (Demo.world Demo.quiet))).
Proof.
  unfold one_record_per_unexcluded_tab. cbn. intros Hc. inversion Hc.
Qed.

Lemma processing_skips_tabs_witness :
  exists tab summary,
    In tab (fst (chrome_tabs_query (host (Demo.world browsing_host))))
    /\ skipped tab = false /\ github_record = summary_record tab summary.
Proof.
  apply (proj1 (proj2 (proj2 (processing_skips_tabs (H := Demo.State)
                                (Demo.world browsing_host))))
           "Work" [Original github_record] github_record).
  - vm_compute. left. reflexivity.
  - left. reflexivity.
Defined.

(** * Further properties of the worker *)

(** ** Grouping: empty input, categories of the answer, items that are null *)

Lemma map_throws_on {A B} (f : A -> js_result B) (l : list A) (x : A) :
  In x l -> f x = Throws -> Js.map f l = Throws.
Proof.
  induction l as [|y l IH]; cbn; [contradiction|].
  intros [->|Hin] Hx.
  - now rewrite Hx.
  - destruct (f y); [|reflexivity]. now rewrite (IH Hin Hx).
Qed.

Lemma clean_entries_throws (summaries : list Summary.t) (es : list (string * JSValue))
    k items :
  In (k, JArray items) es -> In JNull items ->
  forall cleaned, clean_entries summaries es cleaned = Throws.
Proof.
  intros Hin Hnull. induction es as [|[k0 v] es IH]; [contradiction|].
  intros cleaned. cbn [clean_entries]. destruct Hin as [E|Hin].
  - inversion E; subst.
    now rewrite (map_throws_on _ _ JNull Hnull (relink_null summaries)).
  - destruct v as [| | | |items0|]; try apply (IH Hin).
    destruct (Js.map (relink summaries) items0); [apply (IH Hin) | reflexivity].
Qed.

Section GroupingEdges.

Context {H : Type} `{Host H}.

(** X1.  [groupSummaries] returns the empty mapping exactly when it is given
    no summaries; and then the language model is not prompted: the world is
    left as it was. *)
Theorem groups_empty_iff_no_summaries (summaries : list Summary.t)
    (languageModel : option (LanguageModel H)) (w : World H) :
  (fst (groupSummaries summaries languageModel w) = [] <-> summaries = [])
  /\ groupSummaries [] languageModel w = ([], w).
Proof.
  assert (Hnil : groupSummaries [] languageModel w = ([], w))
    by (destruct languageModel; reflexivity).
  split; [|assumption]. split.
  - intros E. destruct summaries as [|s rest]; [reflexivity|]. exfalso.
    destruct (groupSummaries_cases (s :: rest) languageModel w)
      as [Ef|[m [raw [parsed [groups [_ [_ [_ [_ [_ [_ Hne]]]]]]]]]]]; [|now apply Hne].
    rewrite Ef, heuristicFallback_spec in E.
    assert (Hmem : In (Original s) (members (spec_category s) (s :: rest)))
      by (apply members_In; exists s; cbn; auto).
    assert (Hin : In (category_name (spec_category s), members (spec_category s) (s :: rest))
                    (spec_fallback (s :: rest))).
    { apply spec_fallback_In. exists (spec_category s). repeat split.
      intros E'. rewrite E' in Hmem. contradiction. }
    rewrite E in Hin. contradiction.
  - intros ->. now rewrite Hnil.
Qed.

(** X2.  When [groupSummaries] does not fall back, every category it
    returns is a key of the answer's [groups] under which the answer holds
    an array, never the key "__proto__", and its list is that array with
    each item re-linked, in order; what the answer holds under a key that is
    not an array is dropped. *)
Theorem ai_categories_come_from_answer (summaries : list Summary.t)
    (languageModel : option (LanguageModel H)) (w : World H) :
  fst (groupSummaries summaries languageModel w) = heuristicFallback summaries
  \/ exists m raw parsed groups,
       languageModel = Some m
       /\ fst (prompt m (grouping_prompt summaries) (host w)) = Returns raw
       /\ JSON.parse (strip_fences (response_text raw)) = Returns parsed
       /\ Js.prop parsed "groups" = Some groups
       /\ forall k l,
            In (k, l) (fst (groupSummaries summaries languageModel w)) ->
            k <> "__proto__"
            /\ exists items,
                 In (k, JArray items) (Js.entries groups)
                 /\ Js.map (relink summaries) items = Returns l.
Proof.
  destruct (groupSummaries_cases summaries languageModel w)
    as [E|[m [raw [parsed [groups [Em [Ep [Ej [Eg [_ [Ec _]]]]]]]]]]]; [now left|].
  right. exists m, raw, parsed, groups.
  split; [assumption|]. split; [assumption|]. split; [assumption|].
  split; [assumption|]. intros k l Hin.
  destruct (clean_entries_In_key _ _ _ _ _ _ Ec Hin) as [[]|[Hk Hitems]].
  split; assumption.
Qed.

(** X3.  Re-linking an item throws exactly when the item is [null]; and one
    [null] among the items of any array of the answer makes
    [groupSummaries] give up the whole answer for the keyword fallback. *)
Theorem null_item_abandons_answer (summaries : list Summary.t)
    (m : LanguageModel H) (w : World H) :
  (forall item, relink summaries item = Throws <-> item = JNull)
  /\ (forall raw parsed groups k items,
        fst (prompt m (grouping_prompt summaries) (host w)) = Returns raw ->
        JSON.parse (strip_fences (response_text raw)) = Returns parsed ->
        Js.prop parsed "groups" = Some groups ->
        In (k, JArray items) (Js.entries groups) ->
        In JNull items ->
        fst (groupSummaries summaries (Some m) w) = heuristicFallback summaries).
Proof.
  split.
  - intros item. split.
    + intros E. destruct item; try reflexivity;
        rewrite relink_not_null in E by discriminate; discriminate.
    + intros ->. apply relink_null.
  - intros raw parsed groups k items Ep Ej Eg Hin Hnull.
    destruct (groupSummaries_cases summaries (Some m) w)
      as [E|[m1 [raw1 [parsed1 [groups1 [Em [Ep1 [Ej1 [Eg1 [_ [Ec _]]]]]]]]]]];
      [assumption|].
    exfalso. inversion Em; subst m1. rewrite Ep in Ep1. inversion Ep1; subst raw1.
    rewrite Ej in Ej1. inversion Ej1; subst parsed1.
    rewrite Eg in Eg1. inversion Eg1; subst groups1.
    rewrite (clean_entries_throws summaries _ k items Hin Hnull) in Ec. discriminate.
Qed.

End GroupingEdges.

Lemma null_item_abandons_answer_witness :
  fst (groupSummaries [alpha_record] (Some (Demo.the_model (Returns answer_with_null_item)))
         (Demo.world Demo.quiet))
  = heuristicFallback [alpha_record].
Proof.
  apply (proj2 (null_item_abandons_answer (H := Demo.State) [alpha_record]
                  (Demo.the_model (Returns answer_with_null_item)) (Demo.world Demo.quiet))
           answer_with_null_item
           (JObject [("groups",
              JObject [("Research",
                 JArray [JObject [("title", JString "Alpha");
                                  ("url", JString "https://a.example/")];
                         JNull])])])
           (JObject [("Research",
              JArray [JObject [("title", JString "Alpha");
                               ("url", JString "https://a.example/")];
                      JNull])])
           "Research"
           [JObject [("title", JString "Alpha"); ("url", JString "https://a.example/")];
            JNull]).
  - reflexivity.
  - vm_compute. reflexivity.
  - reflexivity.
  - left. reflexivity.
  - right. left. reflexivity.
Defined.

(** ** Re-linking: the first match wins, and an echoed list comes back whole *)

Lemma find_first {A} (f : A -> bool) (before after : list A) (x : A) :
  (forall y, In y before -> f y = false) -> f x = true ->
  List.find f (before ++ x :: after)%list = Some x.
Proof.
  intros Hb Hx. induction before as [|y before IH]; cbn.
  - now rewrite Hx.
  - rewrite (Hb y) by now left. apply IH. intros z Hz. apply Hb. now right.
Qed.

Lemma item_matches_echoed (s x : Summary.t) :
  item_matches
    (echoed [("title", Summary.title s);
             ("summary", Str.slice_to 400 (Summary.summary s));
             ("url", Summary.url s)]) x
  = String.eqb (Summary.url x) (Summary.url s)
    || String.eqb (Summary.title x) (Summary.title s).
Proof. reflexivity. Qed.

Lemma find_echoed (summaries : list Summary.t) (s : Summary.t) :
  distinct_tabs summaries -> In s summaries ->
  List.find
    (item_matches
       (echoed [("title", Summary.title s);
                ("summary", Str.slice_to 400 (Summary.summary s));
                ("url", Summary.url s)])) summaries
  = Some s.
Proof.
  intros [Hu Ht] Hin. induction summaries as [|x rest IH]; [contradiction|].
  cbn [List.find]. rewrite item_matches_echoed.
  cbn [List.map] in Hu, Ht.
  inversion Hu as [|? ? Hux Hu']; subst. inversion Ht as [|? ? Htx Ht']; subst.
  destruct Hin as [->|Hin].
  - now rewrite String.eqb_refl.
  - assert (Eu : String.eqb (Summary.url x) (Summary.url s) = false).
    { apply String.eqb_neq. intros E. apply Hux. rewrite E. now apply in_map. }
    assert (Et : String.eqb (Summary.title x) (Summary.title s) = false).
    { apply String.eqb_neq. intros E. apply Htx. rewrite E. now apply in_map. }
    rewrite Eu, Et. cbn [orb]. now apply IH.
Qed.

Lemma relink_echoed_sublist (summaries part : list Summary.t) :
  distinct_tabs summaries -> (forall s, In s part -> In s summaries) ->
  Js.map (relink summaries) (echoed_items part) = Returns (map Original part).
Proof.
  intros Hd Hsub. induction part as [|s part IH]; [reflexivity|].
  unfold echoed_items, prompt_items in *. cbn [List.map Js.map].
  rewrite relink_not_null by discriminate.
  rewrite (find_echoed summaries s Hd) by (apply Hsub; now left).
  rewrite IH by (intros x Hx; apply Hsub; now right). reflexivity.
Qed.

Section Relinking.

Context {H : Type} `{Host H}.

(** X4.  An item of the answer that carries the url or the title of an
    input record is always re-linked to an input record, the first one in
    input order that it matches: when two tabs show the same page, an item
    for either of them comes back as the record of the earlier tab. *)
Theorem relink_takes_first_match (before after : list Summary.t) (s : Summary.t)
    (item : JSValue) :
  item_matches item s = true ->
  (forall x, In x before -> item_matches item x = false) ->
  relink (before ++ s :: after)%list item = Returns (Original s).
Proof.
  intros Hs Hb.
  assert (Hn : item <> JNull) by (intros ->; discriminate Hs).
  rewrite relink_not_null by assumption. now rewrite (find_first _ _ _ _ Hb Hs).
Qed.

(** The grouping of an answer that reads back as the items sent. *)
Lemma groupSummaries_echoed (summaries : list Summary.t)
    (m : LanguageModel H) (w : World H) (raw : PromptResult) (k : string) :
  summaries <> [] ->
  distinct_tabs summaries ->
  k <> "__proto__" ->
  fst (prompt m (grouping_prompt summaries) (host w)) = Returns raw ->
  JSON.parse (strip_fences (response_text raw))
  = Returns (JObject [("groups", JObject [(k, JArray (echoed_items summaries))])]) ->
  fst (groupSummaries summaries (Some m) w) = [(k, map Original summaries)].
Proof.
  intros Hne Hd Hk Ep Ej. unfold groupSummaries.
  destruct summaries as [|s0 rest] eqn:Es; [contradiction|]. cbn [nonempty].
  rewrite <- Es in *. unfold bind, call, ret.
  destruct (prompt m (grouping_prompt summaries) (host w)) as [r h1]. cbn [fst] in Ep.
  subst r. unfold groups_of_response. cbn [res_bind]. rewrite Ej. cbn [res_bind].
  unfold cleaned_groups.
  cbn [Js.truthy Js.prop Obj.get String.eqb Ascii.eqb Bool.eqb Js.is_object andb
       Js.entries Obj.entries clean_entries].
  rewrite (relink_echoed_sublist summaries summaries Hd) by auto.
  unfold Obj.assign. apply String.eqb_neq in Hk. rewrite Hk. reflexivity.
Qed.

(** X5.  When no two input records share a url or a title and the model
    answers with the very items it was sent, all under one category, the
    result of [groupSummaries] is that one category holding every input
    record, unchanged and in input order. *)
Theorem echoed_answer_groups_everything (summaries : list Summary.t)
    (m : LanguageModel H) (w : World H) (raw : PromptResult) (k : string) :
  summaries <> [] ->
  distinct_tabs summaries ->
  k <> "__proto__" ->
  fst (prompt m (grouping_prompt summaries) (host w)) = Returns raw ->
  JSON.parse (strip_fences (response_text raw))
  = Returns (JObject [("groups", JObject [(k, JArray (echoed_items summaries))])]) ->
  fst (groupSummaries summaries (Some m) w) = [(k, map Original summaries)].
Proof. apply groupSummaries_echoed. Qed.

End Relinking.

Lemma relink_takes_first_match_witness :
  relink [loner; twin_first; twin_second]
    (echoed [("title", "News (2)"); ("summary", "Summary for News (2)");
             ("url", "https://news.example/")])
  = Returns (Original twin_first).
Proof.
  apply (relink_takes_first_match [loner] [twin_second] twin_first).
  - reflexivity.
  - intros x [<-|[]]. reflexivity.
Defined.

Lemma echoed_answer_groups_everything_witness :
  fst (groupSummaries [loner; twin_first]
         (Some (Demo.the_model (Returns (PromptText (Demo.json
            "```json{'groups':{'Open':[{'title':'Mail','summary':'Summary for Mail','url':'https://mail.example/'},{'title':'News','summary':'Summary for News','url':'https://news.example/'}]}}```")))))
         (Demo.world Demo.quiet))
  = [("Open", [Original loner; Original twin_first])].
Proof.
  apply (echoed_answer_groups_everything (H := Demo.State) [loner; twin_first]
           (Demo.the_model (Returns (PromptText (Demo.json
            "```json{'groups':{'Open':[{'title':'Mail','summary':'Summary for Mail','url':'https://mail.example/'},{'title':'News','summary':'Summary for News','url':'https://news.example/'}]}}```"))))
           (Demo.world Demo.quiet)
           (PromptText (Demo.json
            "```json{'groups':{'Open':[{'title':'Mail','summary':'Summary for Mail','url':'https://mail.example/'},{'title':'News','summary':'Summary for News','url':'https://news.example/'}]}}```"))
           "Open").
  - discriminate.
  - split; repeat constructor; cbn; intuition discriminate.
  - discriminate.
  - reflexivity.
  - vm_compute. reflexivity.
Defined.

(** ** Code fences around the answer *)

Lemma length_append (a b : string) :
  String.length (a ++ b) = (String.length a + String.length b)%nat.
Proof. induction a as [|c a IH]; cbn; [reflexivity | now rewrite IH]. Qed.

Lemma drop_append (a b : string) : Str.drop (String.length a) (a ++ b) = b.
Proof. induction a as [|c a IH]; cbn; [now destruct b | assumption]. Qed.

Lemma slice_to_append (a b : string) : Str.slice_to (String.length a) (a ++ b) = a.
Proof. induction a as [|c a IH]; cbn; [now destruct b | now rewrite IH]. Qed.

Lemma startsWith_append (p t : string) : Str.startsWith (p ++ t) p = true.
Proof.
  induction p as [|c p IH]; cbn; [now destruct t|]. now rewrite Ascii.eqb_refl.
Qed.

Lemma endsWith_append (a b : string) : Str.endsWith (a ++ b) b = true.
Proof.
  unfold Str.endsWith. rewrite length_append.
  replace (String.length a + String.length b - String.length b)%nat
    with (String.length a) by lia.
  rewrite drop_append, String.eqb_refl, andb_true_r.
  apply Nat.leb_le. lia.
Qed.

Lemma strip_suffix_fence (t : string) :
  (if Str.endsWith (t ++ "```") "```"
   then Str.slice_to (String.length (t ++ "```") - 3) (t ++ "```")
   else t ++ "```") = t.
Proof.
  rewrite endsWith_append, length_append.
  replace (String.length t + String.length "```" - 3)%nat with (String.length t)
    by (cbn; lia).
  apply slice_to_append.
Qed.

Section Fences.

Context {H : Type} `{Host H}.

(** X6.  The fence stripping removes one opening fence, with the word json
    when it follows, and one closing fence: a fenced text comes out bare, a
    text with no fence at either end comes out as it is, and an answer put
    between json fences is grouped exactly like the same answer sent
    bare. *)
Theorem fenced_answer_reads_as_bare (t : string) :
  strip_fences ("```json" ++ t ++ "```") = t
  /\ (Str.startsWith t "json" = false -> strip_fences ("```" ++ t ++ "```") = t)
  /\ (Str.startsWith t "```" = false -> Str.endsWith t "```" = false ->
      strip_fences t = t)
  /\ (forall (summaries : list Summary.t) (m m' : LanguageModel H) (w : World H) h1,
        strip_fences t = t ->
        prompt m (grouping_prompt summaries) (host w)
        = (Returns (PromptText ("```json" ++ t ++ "```")), h1) ->
        prompt m' (grouping_prompt summaries) (host w) = (Returns (PromptText t), h1) ->
        groupSummaries summaries (Some m) w = groupSummaries summaries (Some m') w).
Proof.
  assert (E1 : strip_fences ("```json" ++ t ++ "```") = t).
  { unfold strip_fences. cbv zeta.
    change (Str.startsWith ("```json" ++ t ++ "```") "```") with true. cbv iota.
    change (Str.drop 3 ("```json" ++ t ++ "```")) with ("json" ++ t ++ "```").
    rewrite (startsWith_append "json").
    change (Str.drop 4 ("json" ++ t ++ "```")) with (t ++ "```").
    apply strip_suffix_fence. }
  split; [assumption|]. split; [|split].
  - intros Hj. unfold strip_fences. cbv zeta.
    rewrite (startsWith_append "```").
    change (Str.drop 3 ("```" ++ t ++ "```")) with (t ++ "```").
    assert (Hj' : Str.startsWith (t ++ "```") "json" = false).
    { change "```" with (String "`" "``").
      now rewrite startsWith_sep by reflexivity. }
    rewrite Hj'. apply strip_suffix_fence.
  - intros Hs He. unfold strip_fences. cbv zeta. rewrite Hs. now rewrite He.
  - intros summaries m m' w h1 Ht Ep Ep'.
    unfold groupSummaries. destruct (nonempty summaries); [|reflexivity].
    unfold bind, call. rewrite Ep, Ep'.
    unfold groups_of_response. cbn [res_bind response_text]. now rewrite E1, Ht.
Qed.

End Fences.

Lemma fenced_answer_reads_as_bare_witness :
  groupSummaries [alpha_record]
    (Some (Demo.the_model (Returns (PromptText ("```json" ++ bare_answer ++ "```")))))
    (Demo.world Demo.quiet)
  = groupSummaries [alpha_record] (Some (Demo.the_model (Returns (PromptText bare_answer))))
      (Demo.world Demo.quiet).
Proof.
  apply (proj2 (proj2 (proj2 (fenced_answer_reads_as_bare (H := Demo.State) bare_answer)))
           [alpha_record] _ _ (Demo.world Demo.quiet) Demo.quiet).
  - vm_compute. reflexivity.
  - reflexivity.
  - reflexivity.
Defined.

(** ** Page text and summaries *)



Lemma slice_to_empty (n : nat) : Str.slice_to n EmptyString = EmptyString.
Proof. now destruct n. Qed.

(** ** Trimming *)

Lemma string_app_assoc (a b c : string) : (a ++ b) ++ c = a ++ (b ++ c).
Proof. induction a as [|x a IH]; cbn; [reflexivity | now rewrite IH]. Qed.

Lemma string_app_nil_r (a : string) : a ++ EmptyString = a.
Proof. induction a as [|x a IH]; cbn; [reflexivity | now rewrite IH]. Qed.

Lemma string_app_length (a b : string) :
  String.length (a ++ b) = (String.length a + String.length b)%nat.
Proof. induction a as [|x a IH]; cbn; [reflexivity | now rewrite IH]. Qed.

Lemma startsWith_split (s p : string) :
  Str.startsWith s p = true -> s = p ++ Str.drop (String.length p) s.
Proof.
  revert s. induction p as [|a p IH]; intros s Hs; [reflexivity|].
  destruct s as [|b s]; cbn in Hs; [discriminate|].
  apply andb_true_iff in Hs. destruct Hs as [Hab Hs].
  apply Ascii.eqb_eq in Hab. subst b. cbn. now rewrite <- IH.
Qed.

Lemma startsWith_longer (s t p : string) :
  Str.startsWith s p = true -> Str.startsWith (s ++ t) p = true.
Proof.
  intros Hs. apply startsWith_split in Hs. rewrite Hs, string_app_assoc.
  apply startsWith_append.
Qed.

Lemma slice_drop (n : nat) (s : string) : Str.slice_to n s ++ Str.drop n s = s.
Proof.
  revert s. induction n as [|n IH]; intros [|c s]; cbn; try reflexivity.
  now rewrite IH.
Qed.

Lemma endsWith_split (s p : string) :
  Str.endsWith s p = true -> s = Str.slice_to (String.length s - String.length p) s ++ p.
Proof.
  unfold Str.endsWith. intros Hs. apply andb_true_iff in Hs. destruct Hs as [_ Hs].
  apply String.eqb_eq in Hs.
  pose proof (slice_drop (String.length s - String.length p) s) as E.
  rewrite Hs in E. now symmetry.
Qed.

Lemma white_space_nonempty (ws : string) :
  In ws Str.white_space -> (1 <= String.length ws)%nat.
Proof.
  assert (F : Forall (fun ws => (1 <= String.length ws)%nat) Str.white_space)
    by (repeat constructor).
  rewrite Forall_forall in F. apply F.
Qed.

Lemma find_none_existsb {A} (f : A -> bool) (l : list A) :
  List.find f l = None -> existsb f l = false.
Proof.
  induction l as [|x l IH]; [reflexivity|]. cbn.
  destruct (f x); [discriminate | exact IH].
Qed.

Lemma existsb_false_find {A} (f : A -> bool) (l : list A) :
  existsb f l = false -> List.find f l = None.
Proof.
  induction l as [|x l IH]; [reflexivity|]. cbn.
  destruct (f x); [discriminate | exact IH].
Qed.

Lemma strip_start_some (s r : string) :
  Str.strip_start s = Some r -> exists ws, In ws Str.white_space /\ s = ws ++ r.
Proof.
  unfold Str.strip_start. destruct (List.find _ _) as [ws|] eqn:E; [|discriminate].
  intros [= <-]. apply find_some in E. destruct E as [Hin Hs].
  exists ws. split; [assumption | now apply startsWith_split].
Qed.

Lemma strip_end_some (s r : string) :
  Str.strip_end s = Some r -> exists ws, In ws Str.white_space /\ s = r ++ ws.
Proof.
  unfold Str.strip_end. destruct (List.find _ _) as [ws|] eqn:E; [|discriminate].
  intros [= <-]. apply find_some in E. destruct E as [Hin Hs].
  exists ws. split; [assumption | now apply endsWith_split].
Qed.

Lemma strip_start_none (s : string) :
  Str.strip_start s = None <-> existsb (Str.startsWith s) Str.white_space = false.
Proof.
  unfold Str.strip_start. split.
  - destruct (List.find _ _) eqn:E; [discriminate|]. intros _. now apply find_none_existsb.
  - intros E. now rewrite (existsb_false_find _ _ E).
Qed.

Lemma strip_end_none (s : string) :
  Str.strip_end s = None <-> existsb (Str.endsWith s) Str.white_space = false.
Proof.
  unfold Str.strip_end. split.
  - destruct (List.find _ _) eqn:E; [discriminate|]. intros _. now apply find_none_existsb.
  - intros E. now rewrite (existsb_false_find _ _ E).
Qed.

Lemma strip_start_shorter (s r : string) :
  Str.strip_start s = Some r -> (String.length r < String.length s)%nat.
Proof.
  intros E. apply strip_start_some in E. destruct E as [ws [Hin ->]].
  apply white_space_nonempty in Hin. rewrite string_app_length. lia.
Qed.

Lemma strip_end_shorter (s r : string) :
  Str.strip_end s = Some r -> (String.length r < String.length s)%nat.
Proof.
  intros E. apply strip_end_some in E. destruct E as [ws [Hin ->]].
  apply white_space_nonempty in Hin. rewrite string_app_length. lia.
Qed.

(** The fuel is enough: nothing is left to strip. *)
Lemma strip_all_done (strip : string -> option string) :
  (forall s r, strip s = Some r -> (String.length r < String.length s)%nat) ->
  forall n s, (String.length s <= n)%nat -> strip (Str.strip_all strip n s) = None.
Proof.
  intros Hshort. induction n as [|n IH]; intros s Hlen; cbn.
  - destruct (strip s) as [r|] eqn:E; [|reflexivity].
    apply Hshort in E. lia.
  - destruct (strip s) as [r|] eqn:E; [|assumption].
    apply IH. apply Hshort in E. lia.
Qed.

Lemma strip_all_fixed (strip : string -> option string) (n : nat) (s : string) :
  strip s = None -> Str.strip_all strip n s = s.
Proof. intros E. destruct n; cbn; [reflexivity | now rewrite E]. Qed.

Lemma all_white_app (a b : string) : all_white a -> all_white b -> all_white (a ++ b).
Proof.
  induction 1 as [|ws rest Hin _ IH]; intros Hb; [assumption|].
  rewrite string_app_assoc. constructor; auto.
Qed.

Lemma all_white_one (ws : string) : In ws Str.white_space -> all_white ws.
Proof.
  intros Hin. rewrite <- (string_app_nil_r ws). constructor; [assumption | constructor].
Qed.

Lemma trimStart_lead (s : string) :
  exists lead, s = lead ++ Str.trimStart s /\ all_white lead.
Proof.
  unfold Str.trimStart. generalize (String.length s) as n. intros n. revert s.
  induction n as [|n IH]; intros s; cbn.
  - exists EmptyString. split; [reflexivity | constructor].
  - destruct (Str.strip_start s) as [r|] eqn:E.
    + apply strip_start_some in E. destruct E as [ws [Hin ->]].
      destruct (IH r) as [lead [Hr Hw]]. exists (ws ++ lead). split.
      * rewrite string_app_assoc. now rewrite <- Hr.
      * now constructor.
    + exists EmptyString. split; [reflexivity | constructor].
Qed.

Lemma trimEnd_trail (s : string) :
  exists trail, s = Str.trimEnd s ++ trail /\ all_white trail.
Proof.
  unfold Str.trimEnd. generalize (String.length s) as n. intros n. revert s.
  induction n as [|n IH]; intros s; cbn.
  - exists EmptyString. split; [now rewrite string_app_nil_r | constructor].
  - destruct (Str.strip_end s) as [r|] eqn:E.
    + apply strip_end_some in E. destruct E as [ws [Hin ->]].
      destruct (IH r) as [trail [Hr Hw]]. exists (trail ++ ws). split.
      * rewrite <- string_app_assoc. now rewrite <- Hr.
      * apply all_white_app; [assumption | now apply all_white_one].
    + exists EmptyString. split; [now rewrite string_app_nil_r | constructor].
Qed.

(** What [trim] gives: the text between a run of white space at the head
    and one at the end, with no white space at either of its own ends. *)
Lemma trim_spec (s : string) :
  (exists lead trail, s = lead ++ Str.trim s ++ trail /\ all_white lead /\ all_white trail)
  /\ existsb (Str.startsWith (Str.trim s)) Str.white_space = false
  /\ existsb (Str.endsWith (Str.trim s)) Str.white_space = false.
Proof.
  unfold Str.trim.
  destruct (trimStart_lead s) as [lead [Hs Hlead]].
  destruct (trimEnd_trail (Str.trimStart s)) as [trail [Ht Htrail]].
  split; [|split].
  - exists lead, trail. split; [|tauto]. now rewrite <- Ht.
  - assert (Hn : existsb (Str.startsWith (Str.trimStart s)) Str.white_space = false).
    { apply strip_start_none. unfold Str.trimStart.
      apply strip_all_done; [apply strip_start_shorter | apply le_n]. }
    destruct (existsb (Str.startsWith (Str.trimEnd (Str.trimStart s))) Str.white_space)
      eqn:E; [|reflexivity].
    apply existsb_exists in E. destruct E as [ws [Hin Hws]].
    rewrite <- Hn. symmetry. apply existsb_exists. exists ws. split; [assumption|].
    rewrite Ht. now apply startsWith_longer.
  - apply strip_end_none. unfold Str.trimEnd.
    apply strip_all_done; [apply strip_end_shorter | apply le_n].
Qed.

Lemma trim_fixed (s : string) :
  Str.trim (Str.trim s) = Str.trim s
  /\ Str.trimStart (Str.trim s) = Str.trim s
  /\ Str.trimEnd (Str.trim s) = Str.trim s.
Proof.
  destruct (trim_spec s) as [_ [Hs He]].
  apply strip_start_none in Hs. apply strip_end_none in He.
  assert (Es : Str.trimStart (Str.trim s) = Str.trim s)
    by (unfold Str.trimStart at 1; now apply strip_all_fixed).
  assert (Ee : Str.trimEnd (Str.trim s) = Str.trim s)
    by (unfold Str.trimEnd at 1; now apply strip_all_fixed).
  split; [|tauto]. unfold Str.trim at 1. now rewrite Es.
Qed.

Lemma join_two_not_empty (sep a : string) (rest : list string) :
  sep <> EmptyString -> rest <> [] -> Str.join sep (a :: rest) <> EmptyString.
Proof.
  intros Hsep Hrest. destruct rest as [|b rest]; [contradiction|].
  cbn [Str.join]. destruct a as [|c a]; [|discriminate].
  cbn. destruct sep; [contradiction | discriminate].
Qed.

Lemma collect_empty (document : Document.t) :
  collect document = EmptyString <->
  Document.title document = EmptyString
  /\ (Document.metaDescription document = None
      \/ Document.metaDescription document = Some EmptyString)
  /\ (Document.bodyInnerText document = None
      \/ Document.bodyInnerText document = Some EmptyString).
Proof.
  destruct document as [title desc body]. unfold collect. cbn [Document.title
    Document.metaDescription Document.bodyInnerText].
  assert (Hsep : nl ++ nl <> EmptyString) by discriminate.
  assert (Ht : forall o : option string,
             Str.truthy (match o with Some d => d | None => EmptyString end) = false
             <-> o = None \/ o = Some EmptyString).
  { intros [[|c d]|]; cbn; split; intros E; auto; try discriminate;
      destruct E as [E|E]; discriminate. }
  destruct (Str.truthy (match desc with Some d => d | None => EmptyString end)) eqn:Ed;
    destruct (Str.truthy (match body with Some b => b | None => EmptyString end)) eqn:Eb;
    cbn [app]; split.
  all: try (intros E; exfalso; revert E; apply join_two_not_empty;
            [assumption | discriminate]).
  all: try (intros [_ [Hd Hb]]; exfalso;
            (apply Ht in Hd; congruence) || (apply Ht in Hb; congruence)).
  - cbn [Str.join]. intros ->. repeat split; now apply Ht.
  - intros [-> _]. reflexivity.
Qed.

Section PageText.

Context {H : Type} `{Host H}.


(** X8.  The summarizer is asked only about a page that gave some text.
    When the script injection rejects, or the page has an empty title, no
    description and no body text, [summarizeTab] with a summarizer and no
    language model returns the title fallback, and the host is left as the
    injection left it. *)
Theorem summarizer_needs_page_text (tab : Tab.t) (s : Summarizer H) (w : World H) (h1 : H) :
  chrome_scripting_executeScript (Tab.id tab) (host w) = (Throws, h1)
  \/ (exists document,
        chrome_scripting_executeScript (Tab.id tab) (host w) = (Returns document, h1)
        /\ Document.title document = EmptyString
        /\ (Document.metaDescription document = None
            \/ Document.metaDescription document = Some EmptyString)
        /\ (Document.bodyInnerText document = None
            \/ Document.bodyInnerText document = Some EmptyString)) ->
  summarizeTab tab (Some s) None w = ("Summary for " ++ tabTitle tab, mkWorld h1 (local w)).
Proof.
  intros Hpage.
  unfold summarizeTab, summarizeWithSummarizer, fetchTabTextContent, bind, call, ret.
  destruct Hpage as [E|[document [E Hempty]]]; rewrite E; cbn [host local].
  - reflexivity.
  - apply collect_empty in Hempty. rewrite Hempty, slice_to_empty. reflexivity.
Qed.

(** X9.  A summary that comes from the language model is trimmed: it is the
    model's text between a run of white space at its head and a run of
    white space at its end (the white space and the line terminators of
    ECMAScript, the no-break space among them), no white space is left at
    either of its ends, and trimming it again, at the head, at the end or
    at both, changes nothing. *)
Theorem model_summary_is_trimmed (tab : Tab.t) (m : LanguageModel H) (w : World H)
    (content r : string) (w1 : World H) (h2 : H) :
  fetchTabTextContent (Tab.id tab) w = (content, w1) ->
  fst (prompt m
         ("Summarize in one concise sentence for a tab dashboard. Title: "
          ++ dq (tabTitle tab) ++ ". Content:" ++ nl ++ nl ++ Str.slice_to 6000 content)
         (host w1))
  = Returns (PromptText r)
  \/ fst (prompt m
            ("Summarize in one concise sentence for a tab dashboard. Title: "
             ++ dq (tabTitle tab) ++ ". Content:" ++ nl ++ nl ++ Str.slice_to 6000 content)
            (host w1))
     = Returns (PromptOther (Some r)) ->
  let x := fst (summarizeTab tab None (Some m) w) in
  x = Str.trim r
  /\ (exists lead trail, r = lead ++ x ++ trail /\ all_white lead /\ all_white trail)
  /\ existsb (Str.startsWith x) Str.white_space = false
  /\ existsb (Str.endsWith x) Str.white_space = false
  /\ Str.trim x = x
  /\ Str.trimStart x = x
  /\ Str.trimEnd x = x.
Proof.
  intros Hfetch Hprompt.
  assert (E : fst (summarizeTab tab None (Some m) w) = Str.trim r).
  { unfold summarizeTab, summarizeWithLanguageModel, bind, call, ret. rewrite Hfetch.
    destruct (prompt m _ (host w1)) as [res h]. cbn [fst] in Hprompt.
    destruct Hprompt as [-> | ->]; reflexivity. }
  cbv zeta. rewrite E.
  destruct (trim_spec r) as [Hmid [Hs He]]. destruct (trim_fixed r) as [Et [Es Ee]].
  repeat split; assumption.
Qed.

End PageText.

Lemma summarizer_needs_page_text_witness :
  summarizeTab (Demo.tab 1 "https://a.example/" "Alpha")
    (Some (Demo.the_summarizer (Returns (SummaryText "never asked")))) None
    (Demo.world closed_pages_host)
  = ("Summary for Alpha", Demo.world closed_pages_host).
Proof.
  apply (summarizer_needs_page_text (H := Demo.State)
           (Demo.tab 1 "https://a.example/" "Alpha")
           (Demo.the_summarizer (Returns (SummaryText "never asked")))
           (Demo.world closed_pages_host) closed_pages_host).
  left. reflexivity.
Defined.

Lemma model_summary_is_trimmed_witness :
  fst (summarizeTab (Demo.tab 1 "https://a.example/" "Alpha") None (Some padding_model)
         (Demo.world Demo.quiet))
  = "A tidy summary.".
Proof.
  refine (eq_trans
            (proj1 (model_summary_is_trimmed (H := Demo.State)
                      (Demo.tab 1 "https://a.example/" "Alpha") padding_model
                      (Demo.world Demo.quiet) EmptyString padded_answer
                      (Demo.world Demo.quiet) Demo.quiet _ _))
            _).
  - vm_compute. reflexivity.
  - left. reflexivity.
  - vm_compute. reflexivity.
Defined.

(** ** Creating the capabilities *)

Section Creation.

Context {H : Type} `{Host H}.

Lemma resolveAISummarizerAPI_run (w : World H) :
  resolveAISummarizerAPI w
  = (match offered_summarizer (self_ai (host w)) with
     | Some api => Some api
     | None => offered_summarizer (chrome_aiOriginTrial (host w))
     end, w).
Proof.
  unfold resolveAISummarizerAPI, bind, read, ret, offered_summarizer.
  destruct (self_ai (host w)) as [[[a|] l]|];
    destruct (chrome_aiOriginTrial (host w)) as [[[a'|] l']|]; reflexivity.
Qed.

Lemma resolveAILanguageModelAPI_run (w : World H) :
  resolveAILanguageModelAPI w
  = (match offered_languageModel (self_ai (host w)) with
     | Some api => Some api
     | None => offered_languageModel (chrome_aiOriginTrial (host w))
     end, w).
Proof.
  unfold resolveAILanguageModelAPI, bind, read, ret, offered_languageModel.
  destruct (self_ai (host w)) as [[a [l|]]|];
    destruct (chrome_aiOriginTrial (host w)) as [[a' [l'|]]|]; reflexivity.
Qed.

Lemma tryCreateSummarizer_absent (w : World H) :
  offered_summarizer (self_ai (host w)) = None ->
  offered_summarizer (chrome_aiOriginTrial (host w)) = None ->
  tryCreateSummarizer w = (None, w).
Proof.
  intros E1 E2. unfold tryCreateSummarizer, bind.
  now rewrite resolveAISummarizerAPI_run, E1, E2.
Qed.

Lemma tryCreateLanguageModel_absent (w : World H) :
  offered_languageModel (self_ai (host w)) = None ->
  offered_languageModel (chrome_aiOriginTrial (host w)) = None ->
  tryCreateLanguageModel w = (None, w).
Proof.
  intros E1 E2. unfold tryCreateLanguageModel, bind.
  now rewrite resolveAILanguageModelAPI_run, E1, E2.
Qed.

(** X10.  For the summarizer and for the language model alike, the API of
    [self.ai] is preferred to that of the origin trial, which is used only
    when [self.ai] offers none; the creation then runs on the API that was
    chosen, with the options of the capability.  When neither global
    offers the API, the creation gives [null] without calling anything:
    the world is left as it was. *)
Theorem capability_is_resolved_in_order (w : World H) :
  (forall api,
     offered_summarizer (self_ai (host w)) = Some api ->
     tryCreateSummarizer w = tryCreate api summarizer_options w)
  /\ (forall api,
        offered_summarizer (self_ai (host w)) = None ->
        offered_summarizer (chrome_aiOriginTrial (host w)) = Some api ->
        tryCreateSummarizer w = tryCreate api summarizer_options w)
  /\ (offered_summarizer (self_ai (host w)) = None ->
      offered_summarizer (chrome_aiOriginTrial (host w)) = None ->
      tryCreateSummarizer w = (None, w))
  /\ (forall api,
        offered_languageModel (self_ai (host w)) = Some api ->
        tryCreateLanguageModel w = tryCreate api languageModel_options w)
  /\ (forall api,
        offered_languageModel (self_ai (host w)) = None ->
        offered_languageModel (chrome_aiOriginTrial (host w)) = Some api ->
        tryCreateLanguageModel w = tryCreate api languageModel_options w)
  /\ (offered_languageModel (self_ai (host w)) = None ->
      offered_languageModel (chrome_aiOriginTrial (host w)) = None ->
      tryCreateLanguageModel w = (None, w)).
Proof.
  repeat split.
  - intros api E. unfold tryCreateSummarizer, bind.
    now rewrite resolveAISummarizerAPI_run, E.
  - intros api E1 E2. unfold tryCreateSummarizer, bind.
    now rewrite resolveAISummarizerAPI_run, E1, E2.
  - apply tryCreateSummarizer_absent.
  - intros api E. unfold tryCreateLanguageModel, bind.
    now rewrite resolveAILanguageModelAPI_run, E.
  - intros api E1 E2. unfold tryCreateLanguageModel, bind.
    now rewrite resolveAILanguageModelAPI_run, E1, E2.
  - apply tryCreateLanguageModel_absent.
Qed.

(** X11.  A creation never fails outwards; these four cases are all there
    are.  Without a [capabilities] function, [create] is called at once.
    When the probe throws, the result is [null].  When the probe reports
    that [available] is 'no', the result is [null] and [create] is not
    called: the host is as the probe left it.  When the probe reports
    anything else, [create] is called after it.  And where [create] is
    called, the result is what it gave, or [null] when it throws. *)
Theorem creation_degrades_to_null {X : Type} (api : AIFactory H X) (options : JSValue)
    (w : World H) :
  (forall x h1,
     capabilities api = None ->
     create api options (host w) = (x, h1) ->
     tryCreate api options w
     = (match x with Returns c => c | Throws => None end, mkWorld h1 (local w)))
  /\ (forall probe h1,
        capabilities api = Some probe ->
        probe (host w) = (Throws, h1) ->
        tryCreate api options w = (None, mkWorld h1 (local w)))
  /\ (forall probe caps h1,
        capabilities api = Some probe ->
        probe (host w) = (Returns caps, h1) ->
        Js.opt_prop caps "available" = Some (JString "no") ->
        tryCreate api options w = (None, mkWorld h1 (local w)))
  /\ (forall probe caps h1 x h2,
        capabilities api = Some probe ->
        probe (host w) = (Returns caps, h1) ->
        Js.opt_prop caps "available" <> Some (JString "no") ->
        create api options h1 = (x, h2) ->
        tryCreate api options w
        = (match x with Returns c => c | Throws => None end, mkWorld h2 (local w))).
Proof.
  unfold tryCreate, bind, call, ret. repeat split.
  - intros x h1 -> Ec. rewrite Ec. now destruct x.
  - intros probe h1 -> Ep. now rewrite Ep.
  - intros probe caps h1 -> Ep Ea. rewrite Ep. unfold unavailable. now rewrite Ea.
  - intros probe caps h1 x h2 -> Ep Ea Ec. rewrite Ep. cbn [host local].
    assert (Eu : unavailable caps = false).
    { unfold unavailable, Js.strict_eq_string.
      destruct (Js.opt_prop caps "available") as [[| | |s| |]|]; try reflexivity.
      apply String.eqb_neq. intros <-. now apply Ea. }
    rewrite Eu. cbn [host local]. rewrite Ec. now destruct x.
Qed.

End Creation.

Lemma creation_degrades_to_null_witness :
  tryCreate (Demo.factory (Demo.the_summarizer Throws)) (JObject []) (Demo.world Demo.quiet)
  = (Some (Demo.the_summarizer Throws), Demo.world Demo.quiet)
  /\ tryCreate throwing_api (JObject []) (Demo.world Demo.quiet)
     = (None, Demo.world Demo.quiet)
  /\ tryCreate refusing_api (JObject []) (Demo.world Demo.quiet)
     = (None, Demo.world Demo.quiet)
  /\ tryCreate ready_api (JObject []) (Demo.world Demo.quiet)
     = (Some (Demo.the_summarizer Throws), Demo.world (snd (Date_now Demo.quiet))).
Proof.
  split; [|split; [|split]].
  - apply (proj1 (creation_degrades_to_null (H := Demo.State)
                    (Demo.factory (Demo.the_summarizer Throws)) (JObject [])
                    (Demo.world Demo.quiet))
             (Returns (Some (Demo.the_summarizer Throws))) Demo.quiet);
      reflexivity.
  - apply (proj1 (creation_degrades_to_null (H := Demo.State) throwing_api (JObject [])
                    (Demo.world Demo.quiet))
             Throws Demo.quiet);
      reflexivity.
  - apply (proj1 (proj2 (proj2 (creation_degrades_to_null (H := Demo.State) refusing_api
                                  (JObject []) (Demo.world Demo.quiet))))
             (fun h => (Returns (JObject [("available", JString "no")]), h))
             (JObject [("available", JString "no")]) Demo.quiet);
      reflexivity.
  - apply (proj2 (proj2 (proj2 (creation_degrades_to_null (H := Demo.State) ready_api
                                  (JObject []) (Demo.world Demo.quiet))))
             (fun h => (Returns (JObject [("available", JString "readily")]), h))
             (JObject [("available", JString "readily")]) Demo.quiet
             (Returns (Some (Demo.the_summarizer Throws))) (snd (Date_now Demo.quiet)));
      try reflexivity.
    discriminate.
Defined.

Lemma capability_is_resolved_in_order_witness :
  tryCreateSummarizer (Globals.world (Globals.mk true true))
  = (Some (Globals.summarizer_of "self.ai"), Globals.world (Globals.mk true true))
  /\ tryCreateLanguageModel (Globals.world (Globals.mk true true))
     = (Some (Globals.model_of "self.ai"), Globals.world (Globals.mk true true))
  /\ tryCreateSummarizer (Globals.world (Globals.mk false true))
     = (Some (Globals.summarizer_of "chrome.aiOriginTrial"),
        Globals.world (Globals.mk false true))
  /\ tryCreateLanguageModel (Globals.world (Globals.mk false true))
     = (Some (Globals.model_of "chrome.aiOriginTrial"),
        Globals.world (Globals.mk false true))
  /\ tryCreateLanguageModel (Globals.world (Globals.mk false false))
     = (None, Globals.world (Globals.mk false false)).
Proof.
  pose proof (capability_is_resolved_in_order (H := Globals.State)
                (Globals.world (Globals.mk true true))) as [S1 [_ [_ [L1 _]]]].
  pose proof (capability_is_resolved_in_order (H := Globals.State)
                (Globals.world (Globals.mk false true))) as [_ [S2 [_ [_ [L2 _]]]]].
  pose proof (capability_is_resolved_in_order (H := Globals.State)
                (Globals.world (Globals.mk false false))) as [_ [_ [_ [_ [_ L3]]]]].
  split; [|split; [|split; [|split]]].
  - exact (eq_trans (S1 _ eq_refl) eq_refl).
  - exact (eq_trans (L1 _ eq_refl) eq_refl).
  - exact (eq_trans (S2 _ eq_refl eq_refl) eq_refl).
  - exact (eq_trans (L2 _ eq_refl eq_refl) eq_refl).
  - exact (L3 eq_refl eq_refl).
Defined.

(** ** Processing runs *)

Section Runs.

Context {H : Type} `{Host H}.

Local Open Scope list_scope.

Lemma summarizeTabs_without_ai (tabs : list Tab.t) :
  forall acc (w : World H),
    summarizeTabs tabs None None acc w
    = (acc ++ map fallback_record (filter (fun tab => negb (skipped tab)) tabs), w).
Proof.
  induction tabs as [|tab rest IH]; intros acc w; cbn [summarizeTabs filter].
  - cbn. now rewrite app_nil_r.
  - destruct (skipped tab); cbn [negb]; [apply IH|].
    assert (E : summarizeTab tab None None w = ("Summary for " ++ tabTitle tab, w)%string)
      by reflexivity.
    unfold bind. rewrite E, IH.
    cbn [map]. now rewrite <- app_assoc.
Qed.

Lemma filter_all_skipped (tabs : list Tab.t) :
  (forall tab, In tab tabs -> skipped tab = true) ->
  filter (fun tab => negb (skipped tab)) tabs = [].
Proof.
  induction tabs as [|tab rest IH]; intros Hall; [reflexivity|]. cbn.
  rewrite (Hall tab) by now left. cbn. apply IH. intros t Ht. apply Hall. now right.
Qed.

Lemma processTabsAndStore_generatedAt (w : World H) :
  exists now, Snapshot.generatedAt (fst (processTabsAndStore w)) = Some now.
Proof.
  unfold processTabsAndStore, bind, storage_set, ret.
  run_steps. cbn. eauto.
Qed.

(** X12.  With no capability on offer, a processing run needs nothing but
    the tab list and the clock: every tab that is not skipped gets the
    summary "Summary for " and its title, the records are grouped by the
    keyword rules, the groups hold each record exactly once, and the
    snapshot with the clock reading is returned and stored. *)
Theorem processing_without_ai (w : World H) (tabs : list Tab.t) (h1 h2 : H) (now : Z) :
  chrome_tabs_query (host w) = (tabs, h1) ->
  offered_summarizer (self_ai h1) = None ->
  offered_summarizer (chrome_aiOriginTrial h1) = None ->
  offered_languageModel (self_ai h1) = None ->
  offered_languageModel (chrome_aiOriginTrial h1) = None ->
  Date_now h1 = (now, h2) ->
  let records := map fallback_record (filter (fun tab => negb (skipped tab)) tabs) in
  let payload := Snapshot.mk (Some now) (heuristicFallback records) in
  processTabsAndStore w = (payload, mkWorld h2 (Storage.set_latestGroups payload (local w)))
  /\ Permutation (List.concat (map snd (heuristicFallback records))) (map Original records).
Proof.
  intros Hq Hs1 Hs2 Hl1 Hl2 Hnow. cbn zeta. split.
  - unfold processTabsAndStore, bind, fetchAllTabs.
    unfold call at 1. rewrite Hq.
    rewrite tryCreateSummarizer_absent by assumption.
    rewrite tryCreateLanguageModel_absent by assumption.
    rewrite summarizeTabs_without_ai. cbn [app groupSummaries ret].
    unfold call. cbn [host local]. rewrite Hnow. reflexivity.
  - rewrite heuristicFallback_spec. unfold spec_fallback.
    rewrite concat_nonempty. cbn [categories map snd List.concat].
    rewrite app_nil_r. apply members_partition.
Qed.

(** X13.  When no tab is open, or every open tab is skipped, a processing
    run still stores a snapshot: it has a clock reading and no group at
    all, whatever capabilities are at hand. *)
Theorem processing_nothing_to_group (w : World H) :
  (forall tab, In tab (fst (chrome_tabs_query (host w))) -> skipped tab = true) ->
  Snapshot.groups (fst (processTabsAndStore w)) = []
  /\ (exists now, Snapshot.generatedAt (fst (processTabsAndStore w)) = Some now)
  /\ Storage.latestGroups (local (snd (processTabsAndStore w)))
     = Some (fst (processTabsAndStore w)).
Proof.
  intros Hall. split; [|split].
  - destruct (processTabsAndStore_groups w) as [summarizer [languageModel [w3 [w4 E]]]].
    rewrite E.
    destruct (summarizeTabs_records summarizer languageModel
                (fst (chrome_tabs_query (host w))) [] w3) as [rest [Er Hrec]].
    rewrite (filter_all_skipped _ Hall) in Hrec. inversion Hrec; subst.
    rewrite Er. cbn [app]. now destruct languageModel.
  - apply processTabsAndStore_generatedAt.
  - destruct processTabsAndStore_run as [F HF]. now rewrite HF.
Qed.

End Runs.

Lemma processing_without_ai_witness :
  processTabsAndStore (Demo.world browsing_host)
  = (Snapshot.mk (Some 5%Z) [("Work", [Original github_record])],
     mkWorld (Demo.mk 6 (Demo.tabs browsing_host) None None None)
       (Storage.set_latestGroups (Snapshot.mk (Some 5%Z) [("Work", [Original github_record])])
          Storage.empty)).
Proof.
  refine (proj1 (processing_without_ai (H := Demo.State) (Demo.world browsing_host)
                   (Demo.tabs browsing_host) browsing_host
                   (Demo.mk 6 (Demo.tabs browsing_host) None None None) 5%Z _ _ _ _ _ _));
    reflexivity.
Defined.

Lemma processing_nothing_to_group_witness :
  Snapshot.groups (fst (processTabsAndStore (Demo.world settings_only_host))) = [].
Proof.
  refine (proj1 (processing_nothing_to_group (H := Demo.State)
                   (Demo.world settings_only_host) _)).
  intros tab [<-|[<-|[]]]; reflexivity.
Defined.

(** ** Sessions *)

Section Sessions.

Context {H : Type} `{Host H}.

Local Open Scope list_scope.

Lemma saveSession_fields (sessionName : option string) (w : World H) :
  let session := fst (saveSession sessionName w) in
  let latest :=
    match Storage.latestGroups (local w) with
    | Some l => l
    | None => default_snapshot
    end in
  Session.groups session = Snapshot.groups latest
  /\ Session.generatedAt session = Snapshot.generatedAt latest
  /\ Session.id session = Str.of_Z (fst (Date_now (host w)))
  /\ Session.name session
     = (if Str.truthy (opt_string sessionName) then opt_string sessionName
        else "Session " ++ fst (Date_toLocaleString (snd (Date_now (host w)))))%string
  /\ host (snd (saveSession sessionName w))
     = (if Str.truthy (opt_string sessionName) then snd (Date_now (host w))
        else snd (Date_toLocaleString (snd (Date_now (host w))))).
Proof.
  unfold saveSession, getLatestGroups, bind, storage_get, storage_set, call, ret.
  destruct w as [h st]. cbn [host local].
  destruct (Storage.latestGroups st); cbn [host local fst snd];
    destruct (Date_now h) as [now h1]; cbn [host local fst snd];
    destruct (Str.truthy (opt_string sessionName)); cbn [host local fst snd];
    try destruct (Date_toLocaleString h1); cbn; repeat split.
Qed.

(** X14.  A session saved after a processing run is a copy of that run's
    snapshot, groups and timestamp; the snapshot stays the current one; and
    a later processing run replaces the snapshot but leaves the saved
    session as it is. *)
Theorem saved_session_copies_snapshot (name : option string) (w : World H) :
  let run := processTabsAndStore w in
  let saved := saveSession name (snd run) in
  let rerun := processTabsAndStore (snd saved) in
  Session.groups (fst saved) = Snapshot.groups (fst run)
  /\ Session.generatedAt (fst saved) = Snapshot.generatedAt (fst run)
  /\ Storage.latestGroups (local (snd saved)) = Some (fst run)
  /\ Storage.savedSessions (local (snd rerun)) = Storage.savedSessions (local (snd saved))
  /\ In (fst saved)
       (match Storage.savedSessions (local (snd rerun)) with Some l => l | None => [] end).
Proof.
  cbn zeta. destruct processTabsAndStore_run as [F HF].
  pose proof (saveSession_fields name (snd (processTabsAndStore w))) as Hf.
  pose proof (saveSession_run name (snd (processTabsAndStore w))) as Hr.
  cbn zeta in Hf, Hr. destruct Hf as [Hg [Ht _]]. destruct Hr as [Hl _].
  rewrite (HF (snd (saveSession name (snd (processTabsAndStore w))))). cbn [snd local].
  rewrite Hg, Ht, Hl. rewrite (HF w). cbn [snd fst local Storage.latestGroups
    Storage.set_latestGroups Storage.set_savedSessions Storage.savedSessions].
  repeat split. apply in_or_app. right. now left.
Qed.

(** X15.  The name of a saved session is the name given, when that is a
    string that is not empty, and then the clock is read once and the
    locale date is not asked for; with no name, or the empty name, the name
    is "Session " followed by the locale date. *)
Theorem session_name_defaults (name : option string) (w : World H) :
  (forall n, name = Some n -> n <> EmptyString ->
     Session.name (fst (saveSession name w)) = n
     /\ host (snd (saveSession name w)) = snd (Date_now (host w)))
  /\ (name = None \/ name = Some EmptyString ->
      Session.name (fst (saveSession name w))
      = ("Session " ++ fst (Date_toLocaleString (snd (Date_now (host w)))))%string
      /\ host (snd (saveSession name w))
         = snd (Date_toLocaleString (snd (Date_now (host w))))).
Proof.
  pose proof (saveSession_fields name w) as Hf. cbn zeta in Hf.
  destruct Hf as [_ [_ [_ [Hn Hh]]]]. split.
  - intros n -> Hne. cbn [opt_string] in Hn, Hh.
    assert (Et : Str.truthy n = true) by (destruct n; [contradiction | reflexivity]).
    rewrite Et in Hn, Hh. now split.
  - intros [-> | ->]; cbn [opt_string] in Hn, Hh; now split.
Qed.

(** X16.  The id of a saved session is the decimal text of the clock
    reading: two sessions have the same id exactly when they were saved at
    the same clock reading, whatever their names and contents. *)
Theorem session_ids_follow_the_clock (name name' : option string) (w w' : World H) :
  Session.id (fst (saveSession name w)) = Session.id (fst (saveSession name' w'))
  <-> fst (Date_now (host w)) = fst (Date_now (host w')).
Proof.
  pose proof (saveSession_fields name w) as Hf.
  pose proof (saveSession_fields name' w') as Hf'. cbn zeta in Hf, Hf'.
  destruct Hf as [_ [_ [Hi _]]]. destruct Hf' as [_ [_ [Hi' _]]].
  rewrite Hi, Hi'. split; [apply of_Z_inj | now intros ->].
Qed.

(** X17.  The steps that talk to the pages and the models never read or
    write [chrome.storage.local]: fetching the page text, summarizing a
    tab, grouping the summaries and creating the capabilities give the same
    result and the same host whatever the storage holds, and leave the
    storage as it was. *)
Theorem model_steps_leave_storage_alone (tab : Tab.t) (summarizer : option (Summarizer H))
    (languageModel : option (LanguageModel H)) (summaries : list Summary.t) :
  host_only (fetchTabTextContent (Tab.id tab))
  /\ host_only (summarizeTab tab summarizer languageModel)
  /\ host_only (groupSummaries summaries languageModel)
  /\ host_only tryCreateSummarizer
  /\ host_only tryCreateLanguageModel
  /\ (forall w, local (snd (summarizeTab tab summarizer languageModel w)) = local w)
  /\ (forall w, local (snd (groupSummaries summaries languageModel w)) = local w).
Proof.
  repeat split.
  - apply host_only_fetchTabTextContent.
  - apply host_only_summarizeTab.
  - apply host_only_groupSummaries.
  - apply host_only_tryCreateSummarizer.
  - apply host_only_tryCreateLanguageModel.
  - intros w. now rewrite (host_only_summarizeTab tab summarizer languageModel w).
  - intros w. now rewrite (host_only_groupSummaries summaries languageModel w).
Qed.

(** X18.  A message with no type, or with a type that is none of the three
    commands (the comparison is exact), is answered with the error "Unknown
    message type" and changes nothing. *)
Theorem unknown_message_is_refused (message : option Message.t) (w : World H) :
  (forall t, message_type message = Some t ->
     t <> PROCESS_TABS /\ t <> GET_LATEST_GROUPS /\ t <> SAVE_SESSION) ->
  onMessage message w = (Failure "Unknown message type", w).
Proof.
  intros Hun. unfold onMessage. fold (message_type message).
  destruct (message_type message) as [t|]; [|reflexivity].
  destruct (Hun t eq_refl) as [H1 [H2 H3]].
  apply String.eqb_neq in H1, H2, H3. now rewrite H1, H2, H3.
Qed.

(** X19.  The commands compose through the storage: after PROCESS_TABS,
    GET_LATEST_GROUPS answers with the same data and changes nothing;
    SAVE_SESSION then answers with a session that holds the groups of that
    data; and before anything was stored GET_LATEST_GROUPS answers with the
    default snapshot, no timestamp and no groups. *)
Theorem commands_compose (name : option string) (w : World H) :
  let command t := Some (Message.mk (Some t) name) in
  let processed := onMessage (command PROCESS_TABS) w in
  let read := onMessage (command GET_LATEST_GROUPS) (snd processed) in
  let saved := onMessage (command SAVE_SESSION) (snd read) in
  fst processed = Ok (SnapshotData (fst (processTabsAndStore w)))
  /\ read = processed
  /\ (exists session,
        fst saved = Ok (SessionData session)
        /\ Session.groups session = Snapshot.groups (fst (processTabsAndStore w)))
  /\ (Storage.latestGroups (local w) = None ->
      onMessage (command GET_LATEST_GROUPS) w
      = (Ok (SnapshotData (Snapshot.mk None [])), w)).
Proof.
  cbn zeta. destruct processTabsAndStore_run as [F HF].
  assert (Ep : onMessage (Some (Message.mk (Some PROCESS_TABS) name)) w
               = (Ok (SnapshotData (fst (processTabsAndStore w))),
                  snd (processTabsAndStore w))).
  { unfold onMessage. cbn [Message.type].
    change (String.eqb PROCESS_TABS PROCESS_TABS) with true. cbv beta iota.
    unfold bind, ret. now destruct (processTabsAndStore w). }
  assert (Eg : forall w0 : World H,
             onMessage (Some (Message.mk (Some GET_LATEST_GROUPS) name)) w0
             = (Ok (SnapshotData match Storage.latestGroups (local w0) with
                                 | Some l => l
                                 | None => default_snapshot
                                 end), w0)).
  { intros w0. unfold onMessage, getLatestGroups, bind, storage_get, ret.
    cbn [Message.type].
    change (String.eqb GET_LATEST_GROUPS PROCESS_TABS) with false.
    change (String.eqb GET_LATEST_GROUPS GET_LATEST_GROUPS) with true.
    cbv beta iota. now destruct (Storage.latestGroups (local w0)). }
  rewrite Ep. cbn [fst snd]. rewrite Eg. cbn [fst snd]. repeat split.
  - rewrite (HF w). reflexivity.
  - exists (fst (saveSession name (snd (processTabsAndStore w)))). split.
    + unfold onMessage. cbn [Message.type Message.name].
      change (String.eqb SAVE_SESSION PROCESS_TABS) with false.
      change (String.eqb SAVE_SESSION GET_LATEST_GROUPS) with false.
      change (String.eqb SAVE_SESSION SAVE_SESSION) with true. cbv beta iota.
      unfold bind, ret.
      now destruct (saveSession name (snd (processTabsAndStore w))).
    + pose proof (saveSession_fields name (snd (processTabsAndStore w))) as Hf.
      cbn zeta in Hf. destruct Hf as [Hg _]. rewrite Hg, (HF w). reflexivity.
  - intros Hnone. now rewrite Eg, Hnone.
Qed.

End Sessions.


Lemma session_name_defaults_witness :
  Session.name (fst (saveSession (Some "Monday") (Demo.world Demo.quiet))) = "Monday"
  /\ host (snd (saveSession (Some "Monday") (Demo.world Demo.quiet)))
     = snd (Date_now (host (Demo.world Demo.quiet))).
Proof.
  apply (proj1 (session_name_defaults (H := Demo.State) (Some "Monday")
                  (Demo.world Demo.quiet)) "Monday").
  - reflexivity.
  - discriminate.
Defined.

Lemma unknown_message_is_refused_witness :
  onMessage (Some (Message.mk (Some "process_tabs") None)) (Demo.world browsing_host)
  = (Failure "Unknown message type", Demo.world browsing_host).
Proof.
  apply (unknown_message_is_refused (H := Demo.State)).
  intros t E. inversion E. repeat split; discriminate.
Defined.

(** ** Keywords, failed prompts and installation *)

Lemma spec_category_text (r1 r2 : Summary.t) :
  item_text r1 = item_text r2 -> spec_category r1 = spec_category r2.
Proof. intros E. rewrite !spec_category_cases. now rewrite E. Qed.

Lemma heuristicFallback_single (r : Summary.t) :
  heuristicFallback [r] = [(category_name (spec_category r), [Original r])].
Proof.
  rewrite heuristicFallback_spec. unfold spec_fallback, categories. cbn [map].
  rewrite !members_cons. now destruct (spec_category r).
Qed.

Section Keywords.

Context {H : Type} `{Host H}.

(** X20.  The keyword rules look at the title and the summary only, and
    without regard to case: two records whose titles agree up to case and
    whose summaries agree up to case fall in the same category, whatever
    their urls, ids and icons; the url is never searched for keywords. *)
Theorem category_ignores_case_and_url (r1 r2 : Summary.t) (w : World H) :
  Str.toLowerCase (Summary.title r1) = Str.toLowerCase (Summary.title r2) ->
  Str.toLowerCase (Summary.summary r1) = Str.toLowerCase (Summary.summary r2) ->
  spec_category r1 = spec_category r2
  /\ Obj.keys (fst (groupSummaries [r1] None w)) = Obj.keys (fst (groupSummaries [r2] None w))
  /\ fst (groupSummaries [r1] None w) = [(category_name (spec_category r1), [Original r1])].
Proof.
  intros Et Es.
  assert (E : spec_category r1 = spec_category r2).
  { apply spec_category_text. now rewrite !item_text_split, Et, Es. }
  cbn [groupSummaries ret fst]. rewrite !heuristicFallback_single, E. repeat split.
Qed.

(** X21.  A prompt that fails gives the keyword fallback: when
    [languageModel.prompt] throws, or resolves to something that is not a
    string and has no [output], or to the empty string, [groupSummaries]
    returns the fallback grouping of the summaries. *)
Theorem failed_prompt_falls_back (summaries : list Summary.t) (m : LanguageModel H)
    (w : World H) :
  fst (prompt m (grouping_prompt summaries) (host w)) = Throws
  \/ fst (prompt m (grouping_prompt summaries) (host w)) = Returns (PromptOther None)
  \/ fst (prompt m (grouping_prompt summaries) (host w)) = Returns (PromptText EmptyString) ->
  fst (groupSummaries summaries (Some m) w) = heuristicFallback summaries.
Proof.
  intros Hp. unfold groupSummaries. destruct (nonempty summaries); [|reflexivity].
  unfold bind, call, ret.
  destruct (prompt m (grouping_prompt summaries) (host w)) as [raw h1]. cbn [fst] in Hp.
  destruct Hp as [-> | [-> | ->]]; reflexivity.
Qed.

(** X22.  The installation listener starts the storage over: whatever was
    stored, the snapshot becomes the default one and the list of saved
    sessions becomes empty, the theme is kept; a session saved right after
    is the only one stored and has no groups and no timestamp. *)
Theorem installation_starts_over (name : option string) (w : World H) :
  let fresh := snd (onInstalled w) in
  Storage.savedSessions (local fresh) = Some []
  /\ Storage.latestGroups (local fresh) = Some (Snapshot.mk None [])
  /\ Storage.theme (local fresh) = Storage.theme (local w)
  /\ host fresh = host w
  /\ Storage.savedSessions (local (snd (saveSession name fresh)))
     = Some [fst (saveSession name fresh)]
  /\ Session.groups (fst (saveSession name fresh)) = []
  /\ Session.generatedAt (fst (saveSession name fresh)) = None.
Proof.
  cbn zeta.
  pose proof (saveSession_run name (snd (onInstalled w))) as Hr.
  pose proof (saveSession_fields name (snd (onInstalled w))) as Hf.
  cbn zeta in Hr, Hf. destruct Hr as [Hl _]. destruct Hf as [Hg [Ht _]].
  rewrite Hl, Hg, Ht. repeat split.
Qed.

End Keywords.

Lemma category_ignores_case_and_url_witness :
  spec_category pull_requests = spec_category pull_requests_shouted
  /\ fst (groupSummaries [pull_requests] None (Demo.world Demo.quiet))
     = [("Other", [Original pull_requests])].
Proof.
  pose proof (category_ignores_case_and_url (H := Demo.State) pull_requests
                pull_requests_shouted (Demo.world Demo.quiet) eq_refl eq_refl) as P.
  split; [exact (proj1 P) | exact (proj2 (proj2 P))].
Defined.

Lemma failed_prompt_falls_back_witness :
  fst (groupSummaries [alpha_record] (Some (Demo.the_model Throws)) (Demo.world Demo.quiet))
  = heuristicFallback [alpha_record].
Proof.
  apply (failed_prompt_falls_back (H := Demo.State)). left. reflexivity.
Defined.

(** ** Writing the items as JSON and reading them back *)

Lemma append_assoc (a b c : string) : (a ++ b) ++ c = a ++ b ++ c.
Proof. induction a as [|x a IH]; cbn; [reflexivity | now rewrite IH]. Qed.

Lemma parse_char_quoted (c : ascii) (fuel : nat) (t : string) :
  JSON.parse_chars (S fuel) (JSON.quote_char c ++ t)
  = match JSON.parse_chars fuel t with
    | Some (x, r) => Some (String c x, r)
    | None => None
    end.
Proof.
  destruct c as [[] [] [] [] [] [] [] []]; reflexivity.
Qed.

Lemma quote_char_length (c : ascii) : (1 <= String.length (JSON.quote_char c))%nat.
Proof. destruct c as [[] [] [] [] [] [] [] []]; cbn; lia. Qed.

Lemma quote_chars_length (s : string) :
  (String.length s <= String.length (JSON.quote_chars s))%nat.
Proof.
  induction s as [|c s IH]; cbn; [lia|].
  rewrite length_append. pose proof (quote_char_length c). lia.
Qed.

Lemma parse_chars_quoted (s : string) :
  forall rest fuel, (String.length s < fuel)%nat ->
    JSON.parse_chars fuel (JSON.quote_chars s ++ String JSON.dquote rest) = Some (s, rest).
Proof.
  induction s as [|c s IH]; intros rest [|fuel] Hf; try (cbn in Hf; lia).
  - reflexivity.
  - cbn [JSON.quote_chars]. rewrite append_assoc, parse_char_quoted.
    rewrite IH by (cbn in Hf; lia). reflexivity.
Qed.

Lemma quote_unfold (s rest : string) :
  JSON.quote s ++ rest
  = String JSON.dquote (JSON.quote_chars s ++ String JSON.dquote rest).
Proof. unfold JSON.quote. cbn. now rewrite append_assoc. Qed.

Lemma parse_value_quoted (s rest : string) (fuel : nat) :
  JSON.parse_value (S fuel) (JSON.quote s ++ rest) = Some (JString s, rest).
Proof.
  rewrite quote_unfold. cbn [JSON.parse_value JSON.skip_ws].
  change (JSON.is_ws JSON.dquote) with false. cbv iota.
  change (Ascii.eqb JSON.dquote "{") with false.
  change (Ascii.eqb JSON.dquote "[") with false.
  change (Ascii.eqb JSON.dquote JSON.dquote) with true. cbv iota.
  rewrite parse_chars_quoted; [reflexivity|].
  rewrite length_append. pose proof (quote_chars_length s). lia.
Qed.

(** One member "key":value followed by a comma or by the closing brace. *)
Lemma parse_member (fuel : nat) (acc : Obj.t JSValue) (k vtext : string) (v : JSValue)
    (tail : string) :
  (forall rest, JSON.parse_value fuel (vtext ++ rest) = Some (v, rest)) ->
  JSON.parse_members (S fuel) acc (JSON.quote k ++ ":" ++ vtext ++ "," ++ tail)
  = JSON.parse_members fuel (Obj.define acc k v) tail
  /\ JSON.parse_members (S fuel) acc (JSON.quote k ++ ":" ++ vtext ++ "}" ++ tail)
     = Some (JObject (Obj.define acc k v), tail).
Proof.
  intros Hv. split.
  - rewrite quote_unfold. cbn [JSON.parse_members JSON.skip_ws].
    change (JSON.is_ws JSON.dquote) with false. cbv iota.
    change (Ascii.eqb JSON.dquote JSON.dquote) with true. cbv iota.
    rewrite parse_chars_quoted
      by (rewrite length_append; pose proof (quote_chars_length k); lia).
    cbn [append JSON.skip_ws]. change (JSON.is_ws ":") with false. cbv iota.
    rewrite Hv. cbn [append JSON.skip_ws]. change (JSON.is_ws ",") with false.
    reflexivity.
  - rewrite quote_unfold. cbn [JSON.parse_members JSON.skip_ws].
    change (JSON.is_ws JSON.dquote) with false. cbv iota.
    change (Ascii.eqb JSON.dquote JSON.dquote) with true. cbv iota.
    rewrite parse_chars_quoted
      by (rewrite length_append; pose proof (quote_chars_length k); lia).
    cbn [append JSON.skip_ws]. change (JSON.is_ws ":") with false. cbv iota.
    rewrite Hv. cbn [append JSON.skip_ws]. change (JSON.is_ws "}") with false.
    reflexivity.
Qed.

Lemma stringify_object_unfold (props : list (string * string)) :
  JSON.stringify_object props = "{" ++ Str.join "," (map member_text props) ++ "}".
Proof. reflexivity. Qed.

Lemma parse_members_props (props : list (string * string)) :
  forall acc rest fuel,
    props <> [] -> (List.length props < fuel)%nat ->
    JSON.parse_members fuel acc (Str.join "," (map member_text props) ++ "}" ++ rest)
    = Some (JObject (fold_left (fun o p => Obj.define o (fst p) (JString (snd p))) props acc),
            rest).
Proof.
  induction props as [|[k v] props IH]; intros acc rest fuel Hne Hf; [contradiction|].
  destruct fuel as [|[|fuel]]; try (cbn in Hf; lia).
  destruct props as [|q props].
  - cbn [map Str.join fold_left]. unfold member_text. cbn [fst snd].
    rewrite !append_assoc.
    apply (proj2 (parse_member (S fuel) acc k (JSON.quote v) (JString v) rest
                    (fun r => parse_value_quoted v r fuel))).
  - change (Str.join "," (map member_text ((k, v) :: q :: props)))
      with (member_text (k, v) ++ "," ++ Str.join "," (map member_text (q :: props))).
    unfold member_text at 1. cbn [fst snd]. rewrite !append_assoc.
    rewrite (proj1 (parse_member (S fuel) acc k (JSON.quote v) (JString v) _
                      (fun r => parse_value_quoted v r fuel))).
    cbn [fold_left fst snd]. apply IH; [discriminate | cbn in Hf |- *; lia].
Qed.

Lemma parse_value_props (props : list (string * string)) (rest : string) (fuel : nat) :
  props <> [] -> (List.length props + 1 < fuel)%nat ->
  JSON.parse_value fuel (JSON.stringify_object props ++ rest)
  = Some (JObject (fold_left (fun o p => Obj.define o (fst p) (JString (snd p))) props []),
          rest).
Proof.
  intros Hne Hf. destruct fuel as [|fuel]; [lia|].
  rewrite stringify_object_unfold, !append_assoc.
  destruct props as [|[k v] props]; [contradiction|].
  assert (Hhead : exists r0,
             Str.join "," (map member_text ((k, v) :: props)) ++ "}" ++ rest
             = String JSON.dquote r0).
  { destruct props; cbn [map Str.join member_text fst]; unfold JSON.quote; cbn; eauto. }
  destruct Hhead as [r0 Hr0].
  assert (Hs : JSON.skip_ws (Str.join "," (map member_text ((k, v) :: props)) ++ "}" ++ rest)
               = String JSON.dquote r0) by (rewrite Hr0; reflexivity).
  change ("{" ++ Str.join "," (map member_text ((k, v) :: props)) ++ "}" ++ rest)
    with (String "{" (Str.join "," (map member_text ((k, v) :: props)) ++ "}" ++ rest)).
  cbn [JSON.parse_value JSON.skip_ws]. change (JSON.is_ws "{") with false.
  cbv iota. change (Ascii.eqb "{" "{") with true. cbv iota. rewrite Hs.
  apply parse_members_props; [discriminate | cbn in Hf |- *; lia].
Qed.

Lemma parse_elements_list {A} (txt : A -> string) (val : A -> JSValue) (need : nat) :
  (forall a rest f, (need <= f)%nat -> JSON.parse_value f (txt a ++ rest) = Some (val a, rest)) ->
  forall items acc rest fuel,
    items <> [] -> (need + List.length items <= fuel)%nat ->
    JSON.parse_elements fuel acc (Str.join "," (map txt items) ++ "]" ++ rest)
    = Some (JArray (acc ++ map val items), rest).
Proof.
  intros Hv. induction items as [|a items IH]; intros acc rest fuel Hne Hf; [contradiction|].
  destruct fuel as [|fuel]; [cbn in Hf; lia|].
  destruct items as [|b items].
  - cbn [map Str.join JSON.parse_elements].
    rewrite Hv by (cbn in Hf; lia).
    cbn [append JSON.skip_ws]. change (JSON.is_ws "]") with false. reflexivity.
  - change (Str.join "," (map txt (a :: b :: items)))
      with (txt a ++ "," ++ Str.join "," (map txt (b :: items))).
    rewrite !append_assoc. cbn [JSON.parse_elements].
    rewrite Hv by (cbn in Hf; lia).
    cbn [append JSON.skip_ws]. change (JSON.is_ws ",") with false. cbv iota.
    change (String "]" rest) with ("]" ++ rest).
    rewrite IH by (try discriminate; cbn in Hf |- *; lia).
    cbn [map]. now rewrite <- app_assoc.
Qed.

Lemma prompt_items_map (summaries : list Summary.t) :
  prompt_items summaries = map item_props summaries.
Proof. reflexivity. Qed.

Lemma parse_value_item (s : Summary.t) (rest : string) (fuel : nat) :
  (5 <= fuel)%nat ->
  JSON.parse_value fuel (JSON.stringify_object (item_props s) ++ rest)
  = Some (echoed (item_props s), rest).
Proof.
  intros Hf. rewrite parse_value_props by (try discriminate; cbn; lia). reflexivity.
Qed.

Lemma parse_value_items (summaries : list Summary.t) (rest : string) (fuel : nat) :
  summaries <> [] -> (6 + List.length summaries <= fuel)%nat ->
  JSON.parse_value fuel (JSON.stringify_array (prompt_items summaries) ++ rest)
  = Some (JArray (echoed_items summaries), rest).
Proof.
  intros Hne Hf. destruct fuel as [|fuel]; [lia|].
  unfold JSON.stringify_array, echoed_items. rewrite prompt_items_map, !map_map.
  rewrite !append_assoc.
  destruct summaries as [|s summaries]; [contradiction|].
  assert (Hhead : exists r0,
             Str.join "," (map (fun x => JSON.stringify_object (item_props x))
                             (s :: summaries)) ++ "]" ++ rest
             = String "{" r0).
  { destruct summaries; cbn [map Str.join]; rewrite stringify_object_unfold; cbn; eauto. }
  destruct Hhead as [r0 Hr0].
  assert (Hs : JSON.skip_ws
                 (Str.join "," (map (fun x => JSON.stringify_object (item_props x))
                                  (s :: summaries)) ++ "]" ++ rest)
               = String "{" r0) by (rewrite Hr0; reflexivity).
  cbn [append JSON.parse_value JSON.skip_ws]. change (JSON.is_ws "[") with false.
  cbv iota. change (Ascii.eqb "[" "{") with false. change (Ascii.eqb "[" "[") with true.
  cbv iota. change (String "]" rest) with ("]" ++ rest). rewrite Hs.
  rewrite (parse_elements_list (fun x => JSON.stringify_object (item_props x))
             (fun x => echoed (item_props x)) 5)
    by (try discriminate; try (intros; now apply parse_value_item); cbn in Hf |- *; lia).
  reflexivity.
Qed.

Lemma parse_value_single_member (k vtext : string) (v : JSValue) (rest : string) (fuel : nat) :
  (forall r, JSON.parse_value fuel (vtext ++ r) = Some (v, r)) ->
  JSON.parse_value (S (S fuel)) ("{" ++ JSON.quote k ++ ":" ++ vtext ++ "}" ++ rest)
  = Some (JObject [(k, v)], rest).
Proof.
  intros Hv.
  assert (Hhead : exists r0, JSON.quote k ++ ":" ++ vtext ++ "}" ++ rest = String JSON.dquote r0)
    by (unfold JSON.quote; cbn; eauto).
  destruct Hhead as [r0 Hr0].
  assert (Hs : JSON.skip_ws (JSON.quote k ++ ":" ++ vtext ++ "}" ++ rest)
               = String JSON.dquote r0) by (rewrite Hr0; reflexivity).
  change ("{" ++ JSON.quote k ++ ":" ++ vtext ++ "}" ++ rest)
    with (String "{" (JSON.quote k ++ ":" ++ vtext ++ "}" ++ rest)).
  cbn [JSON.parse_value JSON.skip_ws]. change (JSON.is_ws "{") with false.
  cbv iota. change (Ascii.eqb "{" "{") with true. cbv iota. rewrite Hs.
  now rewrite (proj2 (parse_member fuel [] k vtext v rest Hv)).
Qed.

Lemma parse_value_echo_answer (k : string) (summaries : list Summary.t) (fuel : nat) :
  summaries <> [] -> (10 + List.length summaries <= fuel)%nat ->
  JSON.parse_value fuel (echo_answer k summaries)
  = Some (JObject [("groups", JObject [(k, JArray (echoed_items summaries))])], EmptyString).
Proof.
  intros Hne Hf. destruct fuel as [|[|[|[|fuel]]]]; try lia.
  unfold echo_answer.
  replace ("}" : string) with ("}" ++ EmptyString) at 2 by reflexivity.
  apply parse_value_single_member. intros r. rewrite !append_assoc.
  apply parse_value_single_member. intros r'.
  apply parse_value_items; [assumption | lia].
Qed.

Lemma join_length {A} (txt : A -> string) (sep : string) (items : list A) :
  (forall a, (1 <= String.length (txt a))%nat) ->
  (List.length items <= String.length (Str.join sep (map txt items)))%nat.
Proof.
  intros Hone. induction items as [|a items IH]; [cbn; lia|].
  destruct items as [|b items].
  - cbn. apply Hone.
  - change (Str.join sep (map txt (a :: b :: items)))
      with (txt a ++ sep ++ Str.join sep (map txt (b :: items))).
    rewrite !length_append. pose proof (Hone a). cbn [List.length] in IH |- *. lia.
Qed.

Lemma stringify_array_length (summaries : list Summary.t) :
  (List.length summaries + 2 <= String.length (JSON.stringify_array (prompt_items summaries)))%nat.
Proof.
  unfold JSON.stringify_array. rewrite prompt_items_map.
  rewrite !length_append.
  pose proof (join_length JSON.stringify_object "," (map item_props summaries)) as Hj.
  rewrite length_map in Hj.
  assert (Hone : forall a, (1 <= String.length (JSON.stringify_object a))%nat)
    by (intros a; rewrite stringify_object_unfold; cbn; lia).
  specialize (Hj Hone). cbn [String.length]. lia.
Qed.

Lemma parse_items (summaries : list Summary.t) :
  summaries <> [] ->
  JSON.parse (JSON.stringify_array (prompt_items summaries))
  = Returns (JArray (echoed_items summaries)).
Proof.
  intros Hne. unfold JSON.parse.
  pose proof (parse_value_items summaries EmptyString
                (2 * String.length (JSON.stringify_array (prompt_items summaries)) + 2) Hne)
    as Hp.
  assert (Hnil : forall x : string, x ++ EmptyString = x)
    by (induction x as [|c x IH]; cbn; [reflexivity | now rewrite IH]).
  rewrite Hnil in Hp. rewrite Hp; [reflexivity|].
  pose proof (stringify_array_length summaries). lia.
Qed.

Lemma echo_answer_length (k : string) (summaries : list Summary.t) :
  (List.length summaries + 4 <= String.length (echo_answer k summaries))%nat.
Proof.
  unfold echo_answer. rewrite !length_append.
  pose proof (stringify_array_length summaries). cbn [String.length]. lia.
Qed.

Lemma parse_echo_answer (k : string) (summaries : list Summary.t) :
  summaries <> [] ->
  JSON.parse (echo_answer k summaries)
  = Returns (JObject [("groups", JObject [(k, JArray (echoed_items summaries))])]).
Proof.
  intros Hne. unfold JSON.parse.
  rewrite parse_value_echo_answer; [reflexivity | assumption |].
  pose proof (echo_answer_length k summaries). lia.
Qed.

Lemma endsWith_bracket (p : string) : Str.endsWith (p ++ "]}}") "```" = false.
Proof.
  unfold Str.endsWith. rewrite length_append.
  replace (String.length p + String.length "]}}" - String.length "```")%nat
    with (String.length p) by (cbn; lia).
  rewrite drop_append. cbn. apply andb_false_r.
Qed.

Lemma strip_fences_echo_answer (k : string) (summaries : list Summary.t) :
  strip_fences (echo_answer k summaries) = echo_answer k summaries.
Proof.
  assert (Hend : Str.endsWith (echo_answer k summaries) "```" = false).
  { unfold echo_answer, JSON.stringify_array.
    replace ("{" ++ JSON.quote "groups" ++ ":"
             ++ ("{" ++ JSON.quote k ++ ":"
                 ++ ("[" ++ Str.join "," (map JSON.stringify_object (prompt_items summaries))
                     ++ "]") ++ "}") ++ "}")
      with (("{" ++ JSON.quote "groups" ++ ":" ++ "{" ++ JSON.quote k ++ ":" ++ "["
             ++ Str.join "," (map JSON.stringify_object (prompt_items summaries))) ++ "]}}")
      by (rewrite !append_assoc; reflexivity).
    apply endsWith_bracket. }
  unfold strip_fences. cbv zeta.
  change (Str.startsWith (echo_answer k summaries) "```") with false. cbv iota.
  now rewrite Hend.
Qed.

Section RoundTrip.

Context {H : Type} `{Host H}.

(** X23.  What [JSON.stringify] writes, [JSON.parse] reads back: a quoted
    string gives the string, whatever characters it holds, and the array of
    items sent to the model gives the items, each an object with the title,
    the summary cut at 400 characters and the url of its record. *)
Theorem written_items_read_back (summaries : list Summary.t) :
  (forall s, JSON.parse (JSON.quote s) = Returns (JString s))
  /\ (summaries <> [] ->
      JSON.parse (JSON.stringify_array (prompt_items summaries))
      = Returns (JArray (map (fun r => JObject [("title", JString (Summary.title r));
                                                ("summary", JString (Str.slice_to 400 (Summary.summary r)));
                                                ("url", JString (Summary.url r))])
                           summaries))).
Proof.
  split.
  - intros s. unfold JSON.parse.
    assert (Hnil : JSON.quote s = JSON.quote s ++ EmptyString).
    { generalize (JSON.quote s). induction s0 as [|c x IH]; cbn; [reflexivity | now rewrite <- IH]. }
    rewrite Hnil at 2.
    replace (2 * String.length (JSON.quote s) + 2)%nat
      with (S (2 * String.length (JSON.quote s) + 1)) by lia.
    now rewrite parse_value_quoted.
  - intros Hne. rewrite (parse_items summaries Hne). unfold echoed_items.
    rewrite prompt_items_map, map_map. reflexivity.
Qed.

(** X24.  When no two input records share a url or a title and the model
    answers with the JSON text of the items it was sent, put under one
    category, [groupSummaries] returns that category with every input
    record, unchanged and in input order. *)
Theorem echoed_text_groups_everything (summaries : list Summary.t)
    (m : LanguageModel H) (w : World H) (k : string) :
  summaries <> [] ->
  distinct_tabs summaries ->
  k <> "__proto__" ->
  fst (prompt m (grouping_prompt summaries) (host w))
  = Returns (PromptText (echo_answer k summaries)) ->
  fst (groupSummaries summaries (Some m) w) = [(k, map Original summaries)].
Proof.
  intros Hne Hd Hk Ep.
  apply (groupSummaries_echoed summaries m w (PromptText (echo_answer k summaries)) k);
    try assumption.
  cbn [response_text]. rewrite strip_fences_echo_answer. now apply parse_echo_answer.
Qed.

End RoundTrip.

Lemma written_items_read_back_witness :
  JSON.parse (JSON.stringify_array (prompt_items [loner; twin_first]))
  = Returns (JArray [JObject [("title", JString "Mail"); ("summary", JString "Summary for Mail");
                              ("url", JString "https://mail.example/")];
                     JObject [("title", JString "News"); ("summary", JString "Summary for News");
                              ("url", JString "https://news.example/")]]).
Proof.
  apply (proj2 (written_items_read_back [loner; twin_first])). discriminate.
Defined.

Lemma echoed_text_groups_everything_witness :
  fst (groupSummaries [loner; twin_first]
         (Some (Demo.the_model (Returns (PromptText (echo_answer "Open" [loner; twin_first])))))
         (Demo.world Demo.quiet))
  = [("Open", [Original loner; Original twin_first])].
Proof.
  apply (echoed_text_groups_everything (H := Demo.State) [loner; twin_first]
           (Demo.the_model (Returns (PromptText (echo_answer "Open" [loner; twin_first]))))
           (Demo.world Demo.quiet) "Open").
  - discriminate.
  - split; repeat constructor; cbn; intuition discriminate.
  - discriminate.
  - reflexivity.
Defined.
